(** * pyopenvr bindings generator: the declaration model of
      [src/translate/model.py]

    A shallow embedding of the declaration model and its rendering engine:
    the lexical type translator [translate_type], the [Parameter]
    classification predicates, and the [Method] / [Function] renderers.

    Text is modelled as [list ascii]; a character is read as the Latin-1
    code point of the same number, and the character classes of Python's
    [re] and [str] are those of Python 3 on that range.  The interpreter's
    recursion limit is not part of the model. *)

From Stdlib Require Import List Ascii String NArith Arith Bool Lia.
Import ListNotations.

Local Open Scope list_scope.

(* ================================================================== *)
(** * Text *)
(* ================================================================== *)

Definition text := list ascii.

(** A literal of the source, written as a Rocq string. *)
Definition str (s : string) : text := list_ascii_of_string s.

Definition code (c : ascii) : N := N_of_ascii c.

Definition in_range (lo hi : N) (c : ascii) : bool :=
  ((lo <=? code c) && (code c <=? hi))%N.

Definition is_code (n : N) (c : ascii) : bool := (code c =? n)%N.

(** [str.isspace] and the class [\s] of [re]. *)
Definition is_space (c : ascii) : bool :=
  in_range 9 13 c || in_range 28 32 c || is_code 133 c || is_code 160 c.

(** The class [\d] of [re]. *)
Definition is_digit (c : ascii) : bool := in_range 48 57 c.

(** The class [\w] of [re]: alphanumeric or underscore. *)
Definition is_word (c : ascii) : bool :=
  is_digit c || in_range 65 90 c || is_code 95 c || in_range 97 122 c
  || is_code 170 c || in_range 178 179 c || is_code 181 c
  || in_range 185 186 c || in_range 188 190 c || in_range 192 214 c
  || in_range 216 246 c || in_range 248 255 c.

Definition is_chr (a c : ascii) : bool := Ascii.eqb c a.
Definition not_chr (a c : ascii) : bool := negb (Ascii.eqb c a).
Definition one_of (l : list ascii) (c : ascii) : bool := existsb (Ascii.eqb c) l.
Definition non_space (c : ascii) : bool := negb (is_space c).

Definition newline : ascii := ascii_of_N 10.

(** [str.lower] on one character. *)
Definition lower (c : ascii) : ascii :=
  if in_range 65 90 c || in_range 192 214 c || in_range 216 222 c
  then ascii_of_N (code c + 32) else c.

Fixpoint text_eqb (a b : text) : bool :=
  match a, b with
  | [], [] => true
  | x :: a', y :: b' => Ascii.eqb x y && text_eqb a' b'
  | _, _ => false
  end.

(** [s.startswith(p)] *)
Fixpoint startswith (s p : text) : bool :=
  match p, s with
  | [], _ => true
  | x :: p', y :: s' => Ascii.eqb x y && startswith s' p'
  | _ :: _, [] => false
  end.

Fixpoint lstrip (s : text) : text :=
  match s with
  | c :: s' => if is_space c then lstrip s' else s
  | [] => []
  end.

Definition rstrip (s : text) : text := rev (lstrip (rev s)).

(** [s.strip()] *)
Definition strip (s : text) : text := rstrip (lstrip s).

(** [sep.join(parts)] *)
Fixpoint join (sep : text) (parts : list text) : text :=
  match parts with
  | [] => []
  | [p] => p
  | p :: ps => p ++ sep ++ join sep ps
  end.

(* ================================================================== *)
(** * Regular expressions: the fragment of [re] the module uses *)
(* ================================================================== *)

(** Quantifiers only ever apply to a character class or to a group that is
    made optional, so [Star] takes a class. *)
Inductive regex : Type :=
| Eps
| Chr (p : ascii -> bool)
| Cat (r1 r2 : regex)
| Alt (r1 r2 : regex)
| Star (p : ascii -> bool)
| Grp (n : nat) (r : regex)
| Bol
| Eol
| Wordb.

Definition Plus (p : ascii -> bool) : regex := Cat (Chr p) (Star p).
Definition Opt (r : regex) : regex := Alt r Eps.
Definition Seq (l : list regex) : regex := fold_right Cat Eps l.
Definition Lit (s : string) : regex := Seq (map (fun a => Chr (is_chr a)) (str s)).
Definition Alts (l : list regex) (last : regex) : regex := fold_right Alt last l.

Definition captures := list (nat * text).

(** [m.group(n)] *)
Fixpoint group (cs : captures) (n : nat) : text :=
  match cs with
  | [] => []
  | (k, t) :: cs' => if Nat.eqb k n then t else group cs' n
  end.

(** [$] without MULTILINE: the end, or just before a final newline. *)
Definition at_eol (rest : text) : bool :=
  match rest with
  | [] => true
  | [c] => Ascii.eqb c newline
  | _ => false
  end.

Definition head_is_word (s : text) : bool :=
  match s with
  | c :: _ => is_word c
  | [] => false
  end.

(** [\b]: exactly one of the two neighbours is a word character. *)
Definition at_wordb (pre rest : text) : bool :=
  xorb (head_is_word pre) (head_is_word rest).

(** The text consumed between two suffixes of the subject. *)
Definition consumed (rest rest' : text) : text :=
  firstn (List.length rest - List.length rest') rest.

Section Matcher.
Context {A : Type}.

(** Greedy repetition of a class: longest run first, then shorter. *)
Fixpoint star_run (p : ascii -> bool) (k : text -> text -> option A)
         (pre rest : text) : option A :=
  match rest with
  | c :: rest' =>
      if p c then
        match star_run p k (c :: pre) rest' with
        | Some a => Some a
        | None => k pre rest
        end
      else k pre rest
  | [] => k pre rest
  end.

(** Backtracking matcher with continuation; [pre] is the text before the
    current position, reversed. *)
Fixpoint run (r : regex) (pre rest : text) (cs : captures)
         (k : text -> text -> captures -> option A) : option A :=
  match r with
  | Eps => k pre rest cs
  | Chr p =>
      match rest with
      | c :: rest' => if p c then k (c :: pre) rest' cs else None
      | [] => None
      end
  | Cat r1 r2 =>
      run r1 pre rest cs (fun pre' rest' cs' => run r2 pre' rest' cs' k)
  | Alt r1 r2 =>
      match run r1 pre rest cs k with
      | Some a => Some a
      | None => run r2 pre rest cs k
      end
  | Star p => star_run p (fun pre' rest' => k pre' rest' cs) pre rest
  | Grp n r =>
      run r pre rest cs
          (fun pre' rest' cs' => k pre' rest' ((n, consumed rest rest') :: cs'))
  | Bol => match pre with [] => k pre rest cs | _ :: _ => None end
  | Eol => if at_eol rest then k pre rest cs else None
  | Wordb => if at_wordb pre rest then k pre rest cs else None
  end.
End Matcher.

(** A match at the current position: what is left of the subject, and the
    groups. *)
Definition match_at (r : regex) (pre rest : text) : option (text * captures) :=
  run r pre rest [] (fun _ rest' cs => Some (rest', cs)).

(** [re.match(r, s)] *)
Definition re_match (r : regex) (s : text) : option captures :=
  match match_at r [] s with
  | Some (_, cs) => Some cs
  | None => None
  end.

(** [re.sub(r, repl, s)] for a literal replacement: leftmost matches, left to
    right, not overlapping.  [skip] counts the characters of the current match
    still to be passed over. *)
Fixpoint sub_scan (r : regex) (repl : text) (pre rest : text) (skip : nat) : text :=
  match rest with
  | [] =>
      match match_at r pre [] with
      | Some _ => repl
      | None => []
      end
  | c :: rest' =>
      match skip with
      | S k => sub_scan r repl (c :: pre) rest' k
      | O =>
          match match_at r pre rest with
          | Some (rest'', _) =>
              match List.length rest - List.length rest'' with
              | O => repl ++ c :: sub_scan r repl (c :: pre) rest' 0
              | S k => repl ++ sub_scan r repl (c :: pre) rest' k
              end
          | None => c :: sub_scan r repl (c :: pre) rest' 0
          end
      end
  end.

Definition re_sub (r : regex) (repl : string) (s : text) : text :=
  sub_scan r (str repl) [] s 0.

(** Truth value of what [re.match] answers. *)
Definition matched (m : option captures) : bool :=
  match m with
  | Some _ => true
  | None => false
  end.

Definition matches (r : regex) (s : text) : bool := matched (re_match r s).

(* ================================================================== *)
(** * The type translator *)
(* ================================================================== *)

Definition any_but_newline : ascii -> bool := not_chr newline.
Definition star_or_amp : ascii -> bool := one_of ["*"; "&"]%char.

(** Pattern "\bconst\s+". *)
Definition rx_const_lead : regex := Seq [Wordb; Lit "const"; Plus is_space].
(** Pattern "\s+const\b". *)
Definition rx_const_trail : regex := Seq [Plus is_space; Lit "const"; Wordb].
(** Pattern "\bstruct\s+". *)
Definition rx_struct : regex := Seq [Wordb; Lit "struct"; Plus is_space].
(** Pattern "\benum\s+". *)
Definition rx_enum : regex := Seq [Wordb; Lit "enum"; Plus is_space].
(** Pattern "\bunion\s+". *)
Definition rx_union : regex := Seq [Wordb; Lit "union"; Plus is_space].
(** Patterns "8_t\b", "16_t\b", "32_t\b", "64_t\b". *)
Definition rx_width (digits : string) : regex := Seq [Lit digits; Lit "_t"; Wordb].
(** Pattern "\bunsigned\s+". *)
Definition rx_unsigned : regex := Seq [Wordb; Lit "unsigned"; Plus is_space].
(** Pattern "^\s*(?:const\s+)?char\s*\*\s*$". *)
Definition rx_char_p : regex :=
  Seq [Bol; Star is_space; Opt (Seq [Lit "const"; Plus is_space]); Lit "char";
       Star is_space; Chr (is_chr "*"); Star is_space; Eol].
(** Pattern "\blong\s+long\b". *)
Definition rx_long_long : regex := Seq [Wordb; Lit "long"; Plus is_space; Lit "long"; Wordb].
(** Pattern "^(float|u?int|double|u?char|u?short|u?long)". *)
Definition rx_primitive : regex :=
  Seq [Bol;
       Grp 1 (Alts [Lit "float";
                    Seq [Opt (Lit "u"); Lit "int"];
                    Lit "double";
                    Seq [Opt (Lit "u"); Lit "char"];
                    Seq [Opt (Lit "u"); Lit "short"]]
                   (Seq [Opt (Lit "u"); Lit "long"]))].
(** Pattern "\bVR_". *)
Definition rx_vr_prefix : regex := Seq [Wordb; Lit "VR_"].
(** Lines 490 and 494: from the start, group 1 is one or more characters
    other than a star followed by one that is not a space; then spaces, a star
    or an ampersand, and group 2, the rest of the line up to the end. *)
Definition rx_pointer : regex :=
  Seq [Bol; Grp 1 (Seq [Plus (not_chr "*"); Chr non_space]); Star is_space;
       Chr star_or_amp; Grp 2 (Star any_but_newline); Eol].
(** Lines 497 and 501: from the start, group 1 is one or more characters
    other than a star; then "ptr", an optional "_t", and group 2, the rest of
    the line up to the end. *)
Definition rx_ptr : regex :=
  Seq [Bol; Grp 1 (Plus (not_chr "*")); Lit "ptr"; Opt (Lit "_t");
       Grp 2 (Star any_but_newline); Eol].
(** Pattern "\bbool\b". *)
Definition rx_bool : regex := Seq [Wordb; Lit "bool"; Wordb].
(** Line 514: from the start, group 1 is one or more characters other than
    an opening bracket followed by one that is not a space; then spaces, a
    bracketed group 2 of one or more digits, and group 3, the rest of the line
    up to the end. *)
Definition rx_array : regex :=
  Seq [Bol; Grp 1 (Seq [Plus (not_chr "["); Chr non_space]); Star is_space;
       Chr (is_chr "["); Grp 2 (Plus is_digit); Chr (is_chr "]");
       Grp 3 (Star any_but_newline); Eol].

(** Lines 466-471: trim, and drop the keywords. *)
Definition strip_noise (type_name : text) : text :=
  let result := strip type_name in
  let result := re_sub rx_const_lead EmptyString result in
  let result := re_sub rx_const_trail EmptyString result in
  let result := re_sub rx_struct EmptyString result in
  let result := re_sub rx_enum EmptyString result in
  re_sub rx_union EmptyString result.

(** Lines 473-474: no implicit int. *)
Definition no_implicit_int (result : text) : text :=
  if text_eqb result (str "unsigned") then str "unsigned int" else result.

(** Lines 476-480: abbreviate the type for ctypes. *)
Definition abbreviate (result : text) : text :=
  let result := re_sub (rx_width "8") "8" result in
  let result := re_sub (rx_width "16") "16" result in
  let result := re_sub (rx_width "32") "32" result in
  let result := re_sub (rx_width "64") "64" result in
  re_sub rx_unsigned "u" result.

(** Lines 481-482. *)
Definition char_pointer (result : text) : text :=
  if matches rx_char_p result then str "c_char_p" else result.

(** Lines 485-486: prepend [c_] for ctypes. *)
Definition prepend_c (result : text) : text :=
  if matches rx_primitive result then str "c_" ++ result else result.

(** Lines 466-488: the rewrites before the pointer loops. *)
Definition normalize (type_name : text) : text :=
  let result := strip_noise type_name in
  let result := no_implicit_int result in
  let result := abbreviate result in
  let result := char_pointer result in
  let result := re_sub rx_long_long "longlong" result in
  let result := prepend_c result in
  re_sub rx_vr_prefix EmptyString result.

(** Lines 503-511: the rewrites between the pointer loops and the array rule. *)
Definition finish (result : text) : text :=
  let result := if text_eqb result (str "void") then str "None" else result in
  let result := if text_eqb result (str "POINTER(None)") then str "c_void_p" else result in
  let result := re_sub rx_bool "openvr_bool" result in
  if startswith result (str "vr::") then skipn 4 result else result.

(** The two [while m:] loops (lines 490-494 and 497-501) have the same body;
    [rec] is the recursive call on the pointee, [n] bounds the iterations. *)
Fixpoint rewrite_loop (rx : regex) (rec : text -> option text) (n : nat)
         (result : text) : option text :=
  match re_match rx result with
  | None => Some result
  | Some m =>
      match n with
      | O => None
      | S n' =>
          match rec (group m 1) with
          | None => None
          | Some pointee_type =>
              rewrite_loop rx rec n'
                (str "POINTER(" ++ pointee_type ++ str ")" ++ group m 2)
          end
      end
  end.

(** Lines 513-520. *)
Definition array_rule (rec : text -> option text) (bracket : bool)
           (result : text) : option text :=
  match re_match rx_array result with
  | Some m =>
      match rec (group m 1 ++ group m 3) with
      | None => None
      | Some t =>
          let result := t ++ str " * " ++ group m 2 in
          Some (if bracket then str "(" ++ result ++ str ")" else result)
      end
  | None => Some result
  end.

(** [translate_type] with a bound on the depth of the recursion and on the
    iterations of each loop; [None] when the bound is reached. *)
Fixpoint translate_type_fuel (fuel : nat) (type_name : text) (bracket : bool)
  : option text :=
  match fuel with
  | O => None
  | S n =>
      let result := normalize type_name in
      match rewrite_loop rx_pointer (fun t => translate_type_fuel n t false) n result with
      | None => None
      | Some result =>
          match rewrite_loop rx_ptr (fun t => translate_type_fuel n t false) n result with
          | None => None
          | Some result =>
              array_rule (fun t => translate_type_fuel n t true) bracket (finish result)
          end
      end
  end.

(** The weight that every recursive call and every loop iteration lowers:
    an opening bracket counts twice, a star, an ampersand, a [t] and an [s]
    once, and nothing else counts. *)
Definition char_weight (c : ascii) : nat :=
  if is_chr "[" c then 2
  else if one_of ["*"; "&"; "t"; "s"]%char c then 1
  else 0.

Definition weight (s : text) : nat := list_sum (map char_weight s).

(** [translate_type(type_name, bracket)] *)
Definition translate_type_b (type_name : text) (bracket : bool) : text :=
  match translate_type_fuel (S (weight type_name)) type_name bracket with
  | Some r => r
  | None => []
  end.

(** [translate_type(type_name)] *)
Definition translate_type (type_name : text) : text :=
  translate_type_b type_name false.


(* ================================================================== *)
(** * The text helpers of [textwrap] and [inspect] *)
(* ================================================================== *)

Definition tab : ascii := ascii_of_N 9.
Definition dquote : ascii := ascii_of_N 34.
Definition nl : text := [newline].
Definition spaces (n : nat) : text := repeat " "%char n.
Definition triple_quote : text := [dquote; dquote; dquote].

Definition is_nil (s : text) : bool :=
  match s with
  | [] => true
  | _ :: _ => false
  end.

(** [s.split(sep)] for a separator of one character. *)
Fixpoint split_on (sep : ascii) (s : text) : list text :=
  match s with
  | [] => [[]]
  | c :: s' =>
      if Ascii.eqb c sep then [] :: split_on sep s'
      else match split_on sep s' with
           | l :: ls => (c :: l) :: ls
           | [] => [[c]]
           end
  end.

(** The line boundaries of [str.splitlines]. *)
Definition is_linebreak (c : ascii) : bool :=
  in_range 10 13 c || in_range 28 30 c || is_code 133 c.

(** [s.splitlines(True)]; [cur] is the line being read, reversed. *)
Fixpoint splitlines_from (cur : text) (s : text) : list text :=
  match s with
  | [] => if is_nil cur then [] else [rev cur]
  | c :: s' =>
      if is_linebreak c then
        match s' with
        | d :: s'' =>
            if is_code 13 c && is_code 10 d
            then rev (d :: c :: cur) :: splitlines_from [] s''
            else rev (c :: cur) :: splitlines_from [] s'
        | [] => [rev (c :: cur)]
        end
      else splitlines_from (c :: cur) s'
  end.

(** [textwrap.indent(t, prefix)]: the prefix goes before every line that is
    not made of white space only. *)
Definition indent (t prefix : text) : text :=
  List.concat (map (fun line => if is_nil (strip line) then line else prefix ++ line)
              (splitlines_from [] t)).

Definition is_blank (c : ascii) : bool := is_chr " " c || is_chr tab c.

Fixpoint leading_blanks (line : text) : text :=
  match line with
  | c :: line' => if is_blank c then c :: leading_blanks line' else []
  | [] => []
  end.

(** The [for i, (x, y) in enumerate(zip(margin, indent))] loop of
    [textwrap.dedent]: the margin is cut at the first difference. *)
Fixpoint cut_at_difference (margin ind : text) : text :=
  match margin, ind with
  | x :: margin', y :: ind' =>
      if Ascii.eqb x y then x :: cut_at_difference margin' ind' else []
  | _, _ => margin
  end.

Definition dedent_margin (margin : option text) (ind : text) : option text :=
  match margin with
  | None => Some ind
  | Some m =>
      if startswith ind m then Some m
      else if startswith m ind then Some ind
      else Some (cut_at_difference m ind)
  end.

(** [textwrap.dedent(t)]: lines of blanks only are emptied, then the longest
    common leading run of blanks is removed from every line. *)
Definition dedent (t : text) : text :=
  let lines := map (fun l => if forallb is_blank l then [] else l)
                   (split_on newline t) in
  let indents := map leading_blanks (filter (fun l => negb (is_nil l)) lines) in
  match fold_left dedent_margin indents None with
  | Some (c :: m) =>
      join nl (map (fun l => if startswith l (c :: m)
                             then skipn (List.length (c :: m)) l else l) lines)
  | _ => join nl lines
  end.

(** [s.expandtabs()], tab stops every 8 columns. *)
Fixpoint expandtabs_from (col : nat) (s : text) : text :=
  match s with
  | [] => []
  | c :: s' =>
      if is_code 9 c then
        let incr := 8 - col mod 8 in
        spaces incr ++ expandtabs_from (col + incr) s'
      else if is_code 10 c || is_code 13 c then c :: expandtabs_from 0 s'
      else c :: expandtabs_from (S col) s'
  end.

Definition indentation (line : text) : option nat :=
  let content := List.length (lstrip line) in
  if Nat.eqb content 0 then None else Some (List.length line - content).

Definition min_margin (margin : option nat) (line : text) : option nat :=
  match indentation line, margin with
  | None, _ => margin
  | Some i, None => Some i
  | Some i, Some m => Some (Nat.min m i)
  end.

Fixpoint drop_empty (lines : list text) : list text :=
  match lines with
  | [] :: lines' => drop_empty lines'
  | _ => lines
  end.

(** [inspect.cleandoc(doc)] *)
Definition cleandoc (doc : text) : text :=
  match split_on newline (expandtabs_from 0 doc) with
  | [] => []
  | first :: others =>
      let others := match fold_left min_margin others None with
                    | Some margin => map (skipn margin) others
                    | None => others
                    end in
      join nl (drop_empty (rev (drop_empty (rev (lstrip first :: others)))))
  end.

(** Truth value of an attribute that is [None] or a string. *)
Definition truthy (o : option text) : bool :=
  match o with
  | Some (_ :: _) => true
  | _ => false
  end.

Definition text_of (o : option text) : text :=
  match o with
  | Some t => t
  | None => str "None"
  end.

Inductive exn : Type := IndexError.

Inductive outcome : Type :=
| Returned (t : text)
| Raised (e : exn).

(** [name[0].lower() + name[1:]] *)
Definition downcase_first (name : text) : option text :=
  match name with
  | [] => None
  | c :: name' => Some (lower c :: name')
  end.

(* ================================================================== *)
(** * The type handles of the header parser *)
(* ================================================================== *)

(** The kinds of [clang.cindex.TypeKind] that occur in the headers. *)
Inductive TypeKind : Type :=
| INVALID | VOID | BOOL | CHAR_S | INT | UINT | FLOAT | DOUBLE
| POINTER | LVALUEREFERENCE | RECORD | ENUM | TYPEDEF | ELABORATED
| CONSTANTARRAY.

Definition TypeKind_eqb (a b : TypeKind) : bool :=
  match a, b with
  | INVALID, INVALID | VOID, VOID | BOOL, BOOL | CHAR_S, CHAR_S | INT, INT
  | UINT, UINT | FLOAT, FLOAT | DOUBLE, DOUBLE | POINTER, POINTER
  | LVALUEREFERENCE, LVALUEREFERENCE | RECORD, RECORD | ENUM, ENUM
  | TYPEDEF, TYPEDEF | ELABORATED, ELABORATED
  | CONSTANTARRAY, CONSTANTARRAY => true
  | _, _ => false
  end.

(** A [clang.cindex.Type] as the model reads it: kind, spelling,
    const-qualification and pointee; [InvalidType] is what [get_pointee]
    answers on a type that points to nothing. *)
Inductive CType : Type :=
| InvalidType
| mkType (kind : TypeKind) (spelling : text) (const_qualified : bool)
         (pointee : CType).

Definition kind (t : CType) : TypeKind :=
  match t with
  | InvalidType => INVALID
  | mkType k _ _ _ => k
  end.

Definition spelling (t : CType) : text :=
  match t with
  | InvalidType => []
  | mkType _ s _ _ => s
  end.

Definition is_const_qualified (t : CType) : bool :=
  match t with
  | InvalidType => false
  | mkType _ _ c _ => c
  end.

Definition get_pointee (t : CType) : CType :=
  match t with
  | InvalidType => InvalidType
  | mkType _ _ _ p => p
  end.

(* ================================================================== *)
(** * Parameter *)
(* ================================================================== *)

(** Pattern "^(vr::)?E\S+Error$". *)
Definition rx_error : regex :=
  Seq [Bol; Opt (Grp 1 (Lit "vr::")); Lit "E"; Plus non_space; Lit "Error"; Eol].
(** Pattern "array_count:(\S+);". *)
Definition rx_array_count : regex :=
  Seq [Lit "array_count:"; Grp 1 (Plus non_space); Lit ";"].
(** Pattern "^unTrackedDevice.*Count$". *)
Definition rx_device_count : regex :=
  Seq [Bol; Lit "unTrackedDevice"; Star any_but_newline; Lit "Count"; Eol].

Module Param.

Record t : Type := mk {
  name : text;
  docstring : option text;
  type_ : CType;
  default_value : option text;
  annotation : option text;
  is_count : bool
}.

(** [Parameter.__init__] *)
Definition init (name : text) (type_ : CType)
           (default_value docstring annotation : option text) : t :=
  let name := if text_eqb name (str "type") then str "type_" else name in
  mk name docstring type_ default_value annotation false.

(** The assignment [self.is_count = True]. *)
Definition mark_count (self : t) : t :=
  mk (name self) (docstring self) (type_ self) (default_value self)
     (annotation self) true.

Definition is_error (self : t) : bool :=
  if negb (TypeKind_eqb (kind (type_ self)) POINTER) then false
  else
    let t := translate_type (spelling (get_pointee (type_ self))) in
    if matches rx_error t then true else false.

(** The match object, or nothing. *)
Definition is_array (self : t) : option captures :=
  if negb (truthy (annotation self)) then None
  else re_match rx_array_count (text_of (annotation self)).

Definition is_out_string (self : t) : bool :=
  if negb (truthy (annotation self)) then false
  else text_eqb (text_of (annotation self)) (str "out_string: ;").

Definition is_output (self : t) : bool :=
  if is_count self then false
  else if negb (TypeKind_eqb (kind (type_ self)) POINTER) then false
  else
    let pt := get_pointee (type_ self) in
    if is_const_qualified pt then false
    else if TypeKind_eqb (kind pt) VOID then false
    else true.

Definition is_input (self : t) : bool :=
  if is_count self then false
  else if matched (is_array self) then true
  else if text_eqb (name self) (str "pEvent") then true
  else if text_eqb (name self) (str "uncbVREvent") then false
  else if text_eqb (name self) (str "unControllerStateSize") then false
  else if negb (is_output self) then true
  else false.

Definition pre_call_block (self : t) : text :=
  match is_array self with
  | Some m =>
      let count_param := group m 1 in
      let element_t := translate_type (spelling (get_pointee (type_ self))) in
      let result :=
        if matches rx_device_count count_param then
          dedent (List.concat
            [spaces 20; str "if "; name self; str " is None:"; nl;
             spaces 24; count_param; str " = k_unMaxTrackedDeviceCount"; nl;
             spaces 24; name self; str " = ("; element_t; str " * "; count_param;
               str ")()"; nl;
             spaces 24; name self; str "Arg = byref("; name self; str "[0])"; nl;
             spaces 20])
        else
          dedent (List.concat
            [spaces 16; str "if "; name self; str " is None:"; nl;
             spaces 20; count_param; str " = 0"; nl;
             spaces 20; name self; str "Arg = None"; nl;
             spaces 16]) in
      result ++
      dedent (List.concat
        [spaces 16; str "else:"; nl;
         spaces 20; count_param; str " = len("; name self; str ")"; nl;
         spaces 20; name self; str "Arg = byref("; name self; str "[0])"; nl;
         spaces 16])
  | None =>
      if is_out_string self then []
      else if is_count self then []
      else if text_eqb (name self) (str "uncbVREvent")
      then str "uncbVREvent = sizeof(VREvent_t)" ++ nl
      else if text_eqb (name self) (str "unControllerStateSize")
      then str "uncbVREvent = sizeof(VRControllerState_t)" ++ nl
      else if negb (is_input self) then
        let t := translate_type (spelling (get_pointee (type_ self))) in
        name self ++ str " = " ++ t ++ str "()" ++ nl
      else []
  end.

Definition post_call_block (self : t) : text :=
  if is_error self then
    dedent (List.concat
      [spaces 16; str "if "; name self; str ".value != 0:"; nl;
       spaces 20; str "raise OpenVRError(str("; name self; str "))"; nl;
       spaces 12])
  else [].

Definition input_param_name (self : t) : option text :=
  if negb (is_input self) then None
  else if truthy (default_value self)
  then Some (name self ++ str "=" ++ text_of (default_value self))
  else Some (name self).

Definition call_param_name (self : t) : text :=
  if matched (is_array self) then name self ++ str "Arg"
  else if is_count self then name self
  else if is_out_string self then name self
  else if is_output self then str "byref(" ++ name self ++ str ")"
  else if TypeKind_eqb (kind (type_ self)) POINTER
  then str "byref(" ++ name self ++ str ")"
  else name self.

Definition return_param_name (self : t) : option text :=
  if is_error self then None
  else if is_out_string self then Some (str "bytes(" ++ name self ++ str ".value)")
  else if negb (is_output self) then None
  else
    let result := name self in
    let pt := translate_type (spelling (get_pointee (type_ self))) in
    Some (if startswith pt (str "c_") then result ++ str ".value" else result).

End Param.

(* ================================================================== *)
(** * Method *)
(* ================================================================== *)

(** The parameters of a method are distinct objects, one for each position
    of the list.  The identity tests of lines 209-211 are then tests on the
    index, and the assignment of line 206 changes the parameter at index
    [pix + 1] and no other. *)

Module Method.

Record t : Type := mk {
  name : text;
  docstring : option text;
  type_ : option text;
  parameters : list Param.t;
  count_parameter_names : list text
}.

(** [Method.__init__] *)
Definition init (name : text) (type_ docstring : option text) : t :=
  mk name docstring type_ [] [].

Definition with_parameters (self : t) (ps : list Param.t) : t :=
  mk (name self) (docstring self) (type_ self) ps (count_parameter_names self).

(** [Method.add_parameter] *)
Definition add_parameter (self : t) (parameter : Param.t) : t :=
  let names :=
    match Param.is_array parameter with
    | Some m => group m 1 :: count_parameter_names self
    | None => count_parameter_names self
    end in
  let parameter :=
    if existsb (text_eqb (Param.name parameter)) names
    then Param.mark_count parameter else parameter in
  mk (name self) (docstring self) (type_ self)
     (parameters self ++ [parameter]) names.

Definition has_return (self : t) : bool :=
  match type_ self with
  | Some ty => if text_eqb ty (str "void") then false
               else negb (existsb Param.is_out_string (parameters self))
  | None => negb (existsb Param.is_out_string (parameters self))
  end.

(** [len_param.is_count = True] on the parameter at index [i]. *)
Fixpoint mark_count_at (i : nat) (ps : list Param.t) : list Param.t :=
  match ps, i with
  | [], _ => []
  | p :: ps', O => Param.mark_count p :: ps'
  | p :: ps', S i' => p :: mark_count_at i' ps'
  end.

(** Lines 207-214: the arguments of the probing call for the string
    parameter at index [pix]; [j] is the index of the head of [ps]. *)
Fixpoint call_params0 (pix j : nat) (ps : list Param.t) : list text :=
  match ps with
  | [] => []
  | p2 :: ps' =>
      (if Nat.eqb j pix then [str "None"]
       else if Nat.eqb j (pix + 1) then [str "0"]
       else if is_nil (Param.call_param_name p2) then []
       else [Param.call_param_name p2])
      ++ call_params0 pix (S j) ps'
  end.

(** Lines 216-221. *)
Definition probe_block (p len_param : Param.t) (param_list : text) : text :=
  dedent (List.concat
    [spaces 20; Param.name len_param; str " = fn("; param_list; str ")"; nl;
     spaces 20; str "if "; Param.name len_param; str " == 0:"; nl;
     spaces 24; str "return b''"; nl;
     spaces 20; Param.name p; str " = ctypes.create_string_buffer(";
       Param.name len_param; str ")"; nl;
     spaces 16]).

(** Lines 203-221: the loop over the indices [pixs] still to visit.  It
    answers the parameters as the loop leaves them and the text it added, or
    no text when [self.parameters[pix + 1]] is out of range. *)
Fixpoint probe_loop (pixs : list nat) (ps : list Param.t) (pre : text)
  : list Param.t * option text :=
  match pixs with
  | [] => (ps, Some pre)
  | pix :: pixs' =>
      match nth_error ps pix with
      | None => (ps, Some pre)
      | Some p =>
          if Param.is_out_string p then
            match nth_error ps (pix + 1) with
            | None => (ps, None)
            | Some _ =>
                let ps := mark_count_at (pix + 1) ps in
                let len_param := nth (pix + 1) ps p in
                let param_list := join (str ", ") (call_params0 pix 0 ps) in
                probe_loop pixs' ps (pre ++ probe_block p len_param param_list)
            end
          else probe_loop pixs' ps pre
      end
  end.

Definition keep (o : option text) : list text :=
  match o with
  | Some (c :: s) => [c :: s]
  | _ => []
  end.

(** Lines 222-251: what follows the probing loop; [out_params] and
    [pre_call_statements] are what lines 198-221 have collected. *)
Definition assemble (self : t) (out_params : list text)
           (pre_call_statements : text) : outcome :=
  let ps := parameters self in
  let in_params := str "self" :: flat_map (fun p => keep (Param.input_param_name p)) ps in
  let call_params := flat_map (fun p => keep (Some (Param.call_param_name p))) ps in
  let out_params := out_params ++ flat_map (fun p => keep (Param.return_param_name p)) ps in
  let pre_call_statements :=
    pre_call_statements ++ List.concat (map Param.pre_call_block ps) in
  let post_call_statements := List.concat (map Param.post_call_block ps) in
  let param_list1 := join (str ", ") in_params in
  match downcase_first (name self) with
  | None => Raised IndexError
  | Some method_name =>
      let method_string :=
        str "def " ++ method_name ++ str "(" ++ param_list1 ++ str "):" ++ nl in
      let body_string :=
        if truthy (docstring self)
        then triple_quote ++ text_of (docstring self) ++ triple_quote ++ nl ++ nl
        else [] in
      let body_string :=
        body_string ++ str "fn = self.function_table." ++ method_name ++ nl in
      let body_string := body_string ++ pre_call_statements in
      let param_list2 := join (str ", ") call_params in
      let body_string :=
        if has_return self
        then body_string ++ str "result = fn(" ++ param_list2 ++ str ")" ++ nl
        else body_string ++ str "fn(" ++ param_list2 ++ str ")" ++ nl in
      let body_string := body_string ++ post_call_statements in
      let body_string :=
        match out_params with
        | [] => body_string
        | _ :: _ => body_string ++ str "return " ++ join (str ", ") out_params ++ nl
        end in
      let body_string := indent body_string (spaces 4) in
      Returned (method_string ++ body_string)
  end.

(** [Method.ctypes_string]: the method as the call leaves it, and the text
    or the exception. *)
Definition ctypes_string (self : t) : t * outcome :=
  let out_params := if has_return self then [str "result"] else [] in
  let '(ps, probe) :=
    probe_loop (seq 0 (List.length (parameters self))) (parameters self) [] in
  let self := with_parameters self ps in
  (self,
   match probe with
   | None => Raised IndexError
   | Some pre_call_statements => assemble self out_params pre_call_statements
   end).

End Method.

(* ================================================================== *)
(** * Function *)
(* ================================================================== *)

Module Func.

Record t : Type := mk {
  name : text;
  docstring : option text;
  type_ : CType;
  parameters : list Param.t
}.

(** [Function.add_parameter] *)
Definition add_parameter (self : t) (parameter : Param.t) : t :=
  mk (name self) (docstring self) (type_ self) (parameters self ++ [parameter]).

(** What the loop of lines 112-128 has collected. *)
Record collected : Type := mkCollected {
  params : list text;
  call_params : list text;
  param_types : list text;
  error_param : option Param.t
}.

(** One turn of the loop of lines 112-128. *)
Definition collect (acc : collected) (p : Param.t) : collected :=
  let '(ps, err) :=
    if Param.is_error p then (params acc, Some p)
    else
      let n := Param.name p in
      let n := if truthy (Param.default_value p)
               then n ++ str "=" ++ text_of (Param.default_value p) else n in
      (params acc ++ [n], error_param acc) in
  let c :=
    if TypeKind_eqb (kind (Param.type_ p)) POINTER then
      let pt := get_pointee (Param.type_ p) in
      if is_const_qualified pt then Param.name p
      else str "byref(" ++ Param.name p ++ str ")"
    else Param.name p in
  mkCollected ps (call_params acc ++ [c])
              (param_types acc ++ [translate_type (spelling (Param.type_ p))])
              err.

(** The entry of [params] that a parameter which is not an error parameter
    contributes (lines 116-119). *)
Definition signature_name (p : Param.t) : text :=
  if truthy (Param.default_value p)
  then Param.name p ++ str "=" ++ text_of (Param.default_value p)
  else Param.name p.

(** The entry of [call_params] that any parameter contributes
    (lines 120-127). *)
Definition call_argument (p : Param.t) : text :=
  if TypeKind_eqb (kind (Param.type_ p)) POINTER then
    if is_const_qualified (get_pointee (Param.type_ p)) then Param.name p
    else str "byref(" ++ Param.name p ++ str ")"
  else Param.name p.

(** The name of the wrapper before its first letter is lowered
    (lines 100-102). *)
Definition python_name (self : t) : text :=
  if startswith (name self) (str "VR_") then skipn 3 (name self) else name self.

(** Lines 134-140: the text handed to [inspect.cleandoc] when no parameter
    is an error parameter. *)
Definition plain_template (name restype arg_types py_name args docstring
                           call_args : text) : text :=
  List.concat
    [nl;
     spaces 16; str "_openvr."; name; str ".restype = "; restype; nl;
     spaces 16; str "_openvr."; name; str ".argtypes = ["; arg_types; str "]"; nl;
     spaces 16; str "def "; py_name; str "("; args; str "):"; docstring; nl;
     spaces 20; str "result =     _openvr."; name; str "("; call_args; str ")"; nl;
     spaces 20; str "return result"; nl;
     spaces 12].

(** Lines 143-151: the same with an error parameter. *)
Definition error_template (name restype arg_types py_name args docstring
                           error_name etype call_args : text) : text :=
  List.concat
    [nl;
     spaces 16; str "_openvr."; name; str ".restype = "; restype; nl;
     spaces 16; str "_openvr."; name; str ".argtypes = ["; arg_types; str "]"; nl;
     spaces 16; str "def "; py_name; str "("; args; str "):"; docstring; nl;
     spaces 20; error_name; str " = "; etype; str "()"; nl;
     spaces 20; str "result =     _openvr."; name; str "("; call_args; str ")"; nl;
     spaces 20; str "_checkInitError("; error_name; str ".value)"; nl;
     spaces 20; str "return result"; nl;
     spaces 12].

(** [Function.__str__] *)
Definition to_str (self : t) : outcome :=
  match downcase_first (python_name self) with
  | None => Raised IndexError
  | Some py_name =>
      let docstring :=
        if truthy (docstring self)
        then indent (nl ++ triple_quote ++ text_of (docstring self) ++ triple_quote)
                    (spaces 20)
        else [] in
      let acc := fold_left collect (parameters self) (mkCollected [] [] [] None) in
      let restype := translate_type (spelling (type_ self)) in
      let args := join (str ", ") (params acc) in
      let call_args := join (str ", ") (call_params acc) in
      let arg_types := join (str ", ") (param_types acc) in
      let method_string :=
        match error_param acc with
        | None =>
            plain_template (name self) restype arg_types py_name args docstring call_args
        | Some error_param =>
            let etype := translate_type (spelling (get_pointee (Param.type_ error_param))) in
            error_template (name self) restype arg_types py_name args docstring
                           (Param.name error_param) etype call_args
        end in
      Returned (cleandoc method_string)
  end.

End Func.

(* ================================================================== *)
(** * What the properties are stated with *)
(* ================================================================== *)

(** What a match means: [Matches r pre s rest cs cs'] when [r] matches the
    segment [s] that stands between [pre] (reversed) and [rest], taking the
    groups from [cs] to [cs']. *)
Inductive Matches : regex -> text -> text -> text -> captures -> captures -> Prop :=
| M_Eps pre rest cs : Matches Eps pre [] rest cs cs
| M_Chr p c pre rest cs : p c = true -> Matches (Chr p) pre [c] rest cs cs
| M_Cat r1 r2 pre s1 s2 rest cs cs1 cs2 :
    Matches r1 pre s1 (s2 ++ rest) cs cs1 ->
    Matches r2 (rev s1 ++ pre) s2 rest cs1 cs2 ->
    Matches (Cat r1 r2) pre (s1 ++ s2) rest cs cs2
| M_AltL r1 r2 pre s rest cs cs' :
    Matches r1 pre s rest cs cs' -> Matches (Alt r1 r2) pre s rest cs cs'
| M_AltR r1 r2 pre s rest cs cs' :
    Matches r2 pre s rest cs cs' -> Matches (Alt r1 r2) pre s rest cs cs'
| M_Star p s pre rest cs : forallb p s = true -> Matches (Star p) pre s rest cs cs
| M_Grp n r pre s rest cs cs' :
    Matches r pre s rest cs cs' -> Matches (Grp n r) pre s rest cs ((n, s) :: cs')
| M_Bol rest cs : Matches Bol [] [] rest cs cs
| M_Eol pre rest cs : at_eol rest = true -> Matches Eol pre [] rest cs cs
| M_Wordb pre rest cs : at_wordb pre rest = true -> Matches Wordb pre [] rest cs cs.

(** Every character satisfies a test that holds on the 256 of them. *)
Definition all_ascii : list ascii := map ascii_of_nat (seq 0 256).

Definition extends (f g : text -> option text) : Prop :=
  forall t r, f t = Some r -> g t = Some r.

Local Open Scope char_scope.

(** [lit] is found somewhere in [s]: Python's [lit in s]. *)
Fixpoint has_sub (lit s : text) : bool :=
  startswith s lit
  || match s with
     | [] => false
     | _ :: s' => has_sub lit s'
     end.

(** Spellings that no rewrite before the loops touches, the test for
    [unsigned], [char *] and the primitive roots apart. *)
Definition calm (x : text) : bool :=
  negb (existsb is_space x)
  && negb (has_sub (str "8_t") x) && negb (has_sub (str "16_t") x)
  && negb (has_sub (str "32_t") x) && negb (has_sub (str "64_t") x)
  && negb (has_sub (str "VR_") x).

(** Spellings in target form: nothing is left for any rule to rewrite. *)
Definition settled (x : text) : bool :=
  calm x
  && negb (existsb (one_of ["*"; "&"; "["]) x)
  && negb (has_sub (str "ptr") x) && negb (has_sub (str "bool") x)
  && negb (matches rx_primitive x)
  && negb (text_eqb x (str "unsigned")) && negb (text_eqb x (str "void"))
  && negb (text_eqb x (str "POINTER(None)")) && negb (startswith x (str "vr::")).

Definition inherited (phi : text -> bool) : Prop :=
  forall u s v, phi s = true -> phi (u ++ s ++ v) = true.

(** The primitive roots that line 485 recognises. *)
Definition primitive_roots : list string :=
  ["float"; "int"; "uint"; "double"; "char"; "uchar"; "short"; "ushort";
   "long"; "ulong"]%string.

(** [n] trailing stars. *)
Definition stars (n : nat) : text := repeat "*" n.

(** One pointer wrapper around a target type. *)
Definition pointer_to (x : text) : text := str "POINTER(" ++ x ++ str ")".

(** [n] nested pointer wrappers. *)
Definition nested_pointer (n : nat) (x : text) : text := Nat.iter n pointer_to x.

(** A text of three characters or more that opens like a pointer wrapper
    or like a ctypes primitive. *)
Definition wrapped (x : text) : bool :=
  match x with
  | a :: b :: _ :: _ => Ascii.eqb a "P" || (Ascii.eqb a "c" && Ascii.eqb b "_")
  | _ => false
  end.

Local Close Scope char_scope.

(** The parameters as [Method.ctypes_string] leaves them: the parameter that
    follows an output string is marked as a count. *)
Fixpoint mark_successors (after_string : bool) (ps : list Param.t) : list Param.t :=
  match ps with
  | [] => []
  | p :: ps' =>
      (if after_string then Param.mark_count p else p)
      :: mark_successors (Param.is_out_string p) ps'
  end.

(** The text of the probing phase, by recursion on the parameters still to
    visit; [done] are the parameters already visited, and [after_string]
    tells that the last of them is an output string, so that the next one
    is met marked as a count. *)
Fixpoint probe_texts (done : list Param.t) (after_string : bool)
         (todo : list Param.t) : option text :=
  match todo with
  | [] => Some []
  | p0 :: rest =>
      let p := if after_string then Param.mark_count p0 else p0 in
      if Param.is_out_string p0 then
        match rest with
        | [] => None
        | q :: r =>
            let cur := done ++ p :: Param.mark_count q :: r in
            let block :=
              Method.probe_block p (Param.mark_count q)
                (join (str ", ") (Method.call_params0 (List.length done) 0 cur)) in
            match probe_texts (done ++ [p]) true rest with
            | Some t => Some (block ++ t)
            | None => None
            end
        end
      else probe_texts (done ++ [p]) false rest
  end.

(** What the text of a render reads in a parameter. *)
Definition stable (q : Param.t) : Prop :=
  Param.call_param_name (Param.mark_count q) = Param.call_param_name q.

(** The successors of output strings in [ps] have a call-site expression
    that marking them as counts does not change. *)
Fixpoint successors_stable (after_string : bool) (ps : list Param.t) : Prop :=
  match ps with
  | [] => True
  | p :: ps' =>
      (after_string = true -> stable p)
      /\ successors_stable (Param.is_out_string p) ps'
  end.

(** A method on which rendering reads nothing new: every parameter after an
    output string is already marked as a count. *)
Definition sample_string_method : Method.t :=
  Method.mk (str "GetName") None (Some (str "uint32_t"))
    [Param.init (str "pchValue")
       (mkType POINTER (str "char *") false (mkType CHAR_S (str "char") false InvalidType))
       None None (Some (str "out_string: ;"));
     Param.init (str "unBufferSize") (mkType TYPEDEF (str "uint32_t") false InvalidType)
       None None None]
    [].

(** Two output strings, the second followed by a pointer. *)
Definition sample_two_strings : Method.t :=
  Method.mk (str "GetNames") None (Some (str "uint32_t"))
    [Param.init (str "a")
       (mkType POINTER (str "char *") false (mkType CHAR_S (str "char") false InvalidType))
       None None (Some (str "out_string: ;"));
     Param.init (str "na") (mkType TYPEDEF (str "uint32_t") false InvalidType)
       None None None;
     Param.init (str "b")
       (mkType POINTER (str "char *") false (mkType CHAR_S (str "char") false InvalidType))
       None None (Some (str "out_string: ;"));
     Param.init (str "nb")
       (mkType POINTER (str "uint32_t *") false
               (mkType TYPEDEF (str "uint32_t") false InvalidType))
       None None None]
    [].

(** A text on one line. *)
Definition no_newline (s : text) : bool := forallb any_but_newline s.




(** The error parameter the loop of lines 112-128 is left with. *)
Definition last_error (ps : list Param.t) (init : option Param.t) : option Param.t :=
  fold_left (fun e p => if Param.is_error p then Some p else e) ps init.

(** A function whose first parameter is the error output. *)
Definition sample_error_function : Func.t :=
  Func.mk (str "VR_InitInternal") None (mkType TYPEDEF (str "uint32_t") false InvalidType)
    [Param.init (str "peError")
       (mkType POINTER (str "vr::EVRInitError *") false
          (mkType ENUM (str "vr::EVRInitError") false InvalidType))
       None None None;
     Param.init (str "eType") (mkType ENUM (str "vr::EVRApplicationType") false InvalidType)
       None None None].


(* ================================================================== *)
(** * The function table entry of a method *)
(* ================================================================== *)

(** What [Method.ctypes_fntable_string] can raise: [IndexError] on
    [self.name[0]] when the name is empty, [AttributeError] on
    [translate_type(None)] when the method was given no type. *)
Inductive fault : Type := Index_Error | Attribute_Error.

Inductive answer : Type :=
| Answer (t : text)
| Fault (e : fault).

(** [Method.ctypes_fntable_string] *)
Definition ctypes_fntable_string (self : Method.t) : answer :=
  match downcase_first (Method.name self) with
  | None => Fault Index_Error
  | Some method_name =>
      match Method.type_ self with
      | None => Fault Attribute_Error
      | Some type_ =>
          let param_list :=
            translate_type type_
            :: map (fun p => translate_type (spelling (Param.type_ p)))
                   (Method.parameters self) in
          let params := join (str ", ") param_list in
          Answer (str "(" ++ [dquote] ++ method_name ++ [dquote]
                  ++ str ", OPENVR_FNTABLE_CALLTYPE(" ++ params ++ str ")),")
      end
  end.

(** The parameters of a method, added one after the other to a new
    method. *)
Definition method_of (name : text) (type_ docstring : option text)
           (ps : list Param.t) : Method.t :=
  fold_left Method.add_parameter ps (Method.init name type_ docstring).

(** The count that an array parameter names, if it is one. *)
Definition announced_count (p : Param.t) : option text :=
  match Param.is_array p with
  | Some m => Some (group m 1)
  | None => None
  end.

(* ================================================================== *)
(** * Enumerations, constants, typedefs and structures *)
(* ================================================================== *)

Module EnumConstant.

Record t : Type := mk {
  name : text;
  value : text;
  docstring : option text
}.

(** [EnumConstant.__str__] *)
Definition to_str (self : t) : text :=
  name self ++ str " = ENUM_VALUE_TYPE(" ++ value self ++ str ")".

End EnumConstant.

Module EnumDecl.

Record t : Type := mk {
  name : text;
  docstring : option text;
  constants : list EnumConstant.t
}.

(** [EnumDecl.__init__] *)
Definition init (name : text) (docstring : option text) : t := mk name docstring [].

(** [EnumDecl.add_constant] *)
Definition add_constant (self : t) (constant : EnumConstant.t) : t :=
  mk (name self) (docstring self) (constants self ++ [constant]).

(** [EnumDecl.__str__] *)
Definition to_str (self : t) : text :=
  fold_left (fun result c => result ++ nl ++ EnumConstant.to_str c)
            (constants self) (name self ++ str " = ENUM_TYPE").

End EnumDecl.

Module ConstantDeclaration.

Record t : Type := mk {
  name : text;
  value : text;
  docstring : option text
}.

(** [ConstantDeclaration.__str__] *)
Definition to_str (self : t) : text :=
  let docstring :=
    if truthy (docstring self) then str "  # " ++ text_of (docstring self) else [] in
  name self ++ str " = " ++ value self ++ docstring.

End ConstantDeclaration.

Module Typedef.

Record t : Type := mk {
  name : text;
  original : text;
  docstring : option text
}.

(** [Typedef.__init__]: the alias is the name of the declaration. *)
Definition init (alias original : text) (docstring : option text) : t :=
  mk alias original docstring.

(** [Typedef.__str__] *)
Definition to_str (self : t) : text :=
  let orig := translate_type (original self) in
  if text_eqb (name self) orig then []
  else name self ++ str " = " ++ orig.

End Typedef.

Module StructField.

Record t : Type := mk {
  name : text;
  type_ : text;
  docstring : option text
}.

(** [StructField.__str__] *)
Definition to_str (self : t) : text :=
  let type_name := translate_type (type_ self) in
  str "(" ++ [dquote] ++ name self ++ [dquote] ++ str ", " ++ type_name ++ str "),".

End StructField.

Module Struct.

Record t : Type := mk {
  name : text;
  docstring : option text;
  fields : list StructField.t;
  base : option text
}.

(** [Struct.__init__] *)
Definition init (name : text) (docstring : option text) : t :=
  let name :=
    if text_eqb name (str "vr::VRControllerState001_t")
    then str "VRControllerState_t" else name in
  let base := None in
  let base :=
    if text_eqb name (str "VRControllerState_t")
    then Some (str "PackHackStructure") else base in
  let base :=
    if text_eqb name (str "vr::VREvent_t")
    then Some (str "PackHackStructure") else base in
  mk name docstring [] base.

(** [Struct.add_field] *)
Definition add_field (self : t) (field : StructField.t) : t :=
  mk (name self) (docstring self) (fields self ++ [field]) (base self).

(** Lines 411-414: a newline, twenty blanks and the field, for each field. *)
Definition field_lines (fs : list StructField.t) : text :=
  fold_left (fun fields f => fields ++ nl ++ spaces 20 ++ StructField.to_str f) fs [].

(** Lines 416-422: the bases of the class. *)
Definition bases (self : t) : text :=
  let name := translate_type (name self) in
  let result :=
    match base self with
    | Some b => translate_type b
    | None => str "Structure"
    end in
  let result :=
    if startswith name (str "HmdMatrix") then str "_MatrixMixin, " ++ result
    else result in
  if startswith name (str "HmdVector") then str "_VectorMixin, " ++ result else result.

(** Lines 423-427: the text handed to [inspect.cleandoc]. *)
Definition template (name base docstring fields : text) : text :=
  List.concat
    [nl;
     spaces 12; str "class "; name; str "("; base; str "):"; docstring; nl;
     spaces 16; str "_fields_ = ["; fields; nl;
     spaces 16; str "]"; nl;
     spaces 8].

(** [Struct.__str__] *)
Definition to_str (self : t) : text :=
  let docstring :=
    if truthy (docstring self)
    then indent (nl ++ triple_quote ++ text_of (docstring self) ++ triple_quote ++ nl)
                (spaces 16)
    else [] in
  cleandoc (template (translate_type (name self)) (bases self) docstring
                     (field_lines (fields self))).

End Struct.

Module StructureForwardDeclaration.

(** [StructureForwardDeclaration.__str__], on the name of the
    declaration. *)
Definition to_str (name : text) : text :=
  cleandoc (List.concat
    [nl;
     spaces 12; str "class "; name; str "(Structure):"; nl;
     spaces 16; str "pass"; nl;
     spaces 8]).

End StructureForwardDeclaration.

(* ================================================================== *)
(** * Texts on one line *)
(* ================================================================== *)

(** A text without a tabulation. *)
Definition no_tab (s : text) : bool := forallb (fun c => negb (is_code 9 c)) s.

(** A text that is one line of a template whatever stands around it. *)
Definition one_line (s : text) : bool := no_newline s && no_tab s.

(** A line that [cleandoc] can take the margin from: on one line, without a
    tabulation, and not made of white space only. *)
Definition plain_line (s : text) : bool :=
  no_newline s && no_tab s && negb (is_nil (lstrip s)).

(** A parameter whose name, default value and translated types are each on
    one line. *)
Definition tidy_parameter (p : Param.t) : bool :=
  one_line (Param.name p)
  && one_line (text_of (Param.default_value p))
  && one_line (translate_type (spelling (Param.type_ p)))
  && one_line (translate_type (spelling (get_pointee (Param.type_ p)))).

(** A bare spelling: not empty, without white space, and in which [const],
    [struct] and [enum] are not written. *)
Definition bare (x : text) : bool :=
  negb (is_nil x) && negb (existsb is_space x)
  && negb (has_sub (str "const") x) && negb (has_sub (str "struct") x)
  && negb (has_sub (str "enum") x).

(** A name of two characters or more that opens with none of the letters
    that open a primitive, and is not [None]. *)
Definition named (y : text) : bool :=
  match y with
  | a :: _ :: _ =>
      negb (one_of ["f"; "i"; "u"; "d"; "c"; "s"; "l"]%char a)
      && negb (text_eqb y (str "None"))
  | _ => false
  end.

(** A text in which none of the words that the rewrites before the loops
    look for next to white space is written. *)
Definition wordless (s : text) : bool :=
  forallb (fun lit => negb (has_sub (str lit) s))
          ["const"; "struct"; "enum"; "union"; "unsigned"; "long"]%string.

(** The name of a declared type: settled, named, and wordless. *)
Definition type_name (y : text) : bool := settled y && named y && wordless y.

(** The dimensions of an array as C spells them: each one in brackets. *)
Definition dimensions (ds : list text) : text :=
  List.concat (map (fun d => str "[" ++ d ++ str "]") ds).

(** A dimension that the array rule reads: one or more digits. *)
Definition digits (d : text) : bool := negb (is_nil d) && forallb is_digit d.

(** The ctypes expression for an array of [y] with the dimensions [ds]:
    the first dimension is the outermost factor, and every array inside
    another one comes in parentheses. *)
Fixpoint array_of (y : text) (ds : list text) (bracket : bool) : text :=
  match ds with
  | [] => y
  | d :: ds' =>
      let result := array_of y ds' true ++ str " * " ++ d in
      if bracket then str "(" ++ result ++ str ")" else result
  end.

(** The characters of the dimensions of an array. *)
Definition index_char (c : ascii) : bool := one_of ["["; "]"]%char c || is_digit c.

(* ================================================================== *)
(** * Class *)
(* ================================================================== *)

Module Class.

Record t : Type := mk {
  name : text;
  docstring : option text;
  base : text;
  methods : list Method.t
}.

(** [Class.__init__] *)
Definition init (name : text) (docstring : option text) : t :=
  mk name docstring (str "object") [].

(** [Class.add_method] *)
Definition add_method (self : t) (method : Method.t) : t :=
  mk (name self) (docstring self) (base self) (methods self ++ [method]).

Definition with_methods (self : t) (ms : list Method.t) : t :=
  mk (name self) (docstring self) (base self) ms.

(** What the loop of lines 31-33 has collected, or the exception that
    ended it. *)
Inductive progress : Type :=
| Collected (methods fn_table_methods : text)
| Stopped (e : fault).

(** Lines 31-33: [str(method)] is [Method.ctypes_string], which leaves its
    marks on the parameters of the method; the entry of the function table
    is asked of the method after that.  The loop answers the methods as it
    leaves them. *)
Fixpoint collect (ms : list Method.t) (methods fn_table_methods : text)
  : list Method.t * progress :=
  match ms with
  | [] => ([], Collected methods fn_table_methods)
  | method :: ms' =>
      let '(method, rendered) := Method.ctypes_string method in
      match rendered with
      | Raised IndexError => (method :: ms', Stopped Index_Error)
      | Returned s =>
          let methods := methods ++ indent s (spaces 16) ++ nl in
          match ctypes_fntable_string method with
          | Fault e => (method :: ms', Stopped e)
          | Answer entry =>
              let fn_table_methods := fn_table_methods ++ nl ++ spaces 20 ++ entry in
              let '(ms', r) := collect ms' methods fn_table_methods in
              (method :: ms', r)
          end
      end
  end.

(** Lines 34-51: the text handed to [inspect.cleandoc]. *)
Definition template (name base docstring fn_table_methods methods : text) : text :=
  List.concat
    [nl;
     spaces 12; str "class "; name; str "_FnTable(Structure):"; nl;
     spaces 16; str "_fields_ = ["; fn_table_methods; nl;
     spaces 16; str "]"; nl;
     spaces 8; nl;
     nl;
     spaces 12; str "class "; name; str "("; base; str "):"; docstring; nl;
     spaces 16; str "def __init__(self):"; nl;
     spaces 20; str "version_key = "; name; str "_Version"; nl;
     spaces 20; str "if not isInterfaceVersionValid(version_key):"; nl;
     spaces 24; str "_checkInitError(VRInitError_Init_InterfaceNotFound)"; nl;
     spaces 20; str "fn_key = b"; [dquote]; str "FnTable:"; [dquote];
       str " + version_key"; nl;
     spaces 20; str "fn_type = "; name; str "_FnTable"; nl;
     spaces 20;
       str "fn_table_ptr = cast(getGenericInterface(fn_key), POINTER(fn_type))"; nl;
     spaces 20; str "if fn_table_ptr is None:"; nl;
     spaces 24; str "raise OpenVRError("; [dquote];
       str "Error retrieving VR API for "; name; [dquote]; str ")"; nl;
     spaces 20; str "self.function_table = fn_table_ptr.contents"; nl; methods; nl;
     spaces 8].

(** [Class.__str__]: the class as the call leaves it, and the text or the
    exception. *)
Definition to_str (self : t) : t * answer :=
  let docstring :=
    if truthy (docstring self)
    then indent (nl ++ triple_quote ++ text_of (docstring self) ++ triple_quote ++ nl)
                (spaces 16)
    else [] in
  let name := translate_type (name self) in
  let '(ms, r) :=
    match methods self with
    | [] => ([], Collected (str "pass") [])
    | _ :: _ => collect (methods self) nl []
    end in
  (with_methods self ms,
   match r with
   | Stopped e => Fault e
   | Collected methods fn_table_methods =>
       Answer (cleandoc (template name (base self) docstring fn_table_methods methods))
   end).

End Class.

(* ================================================================== *)
(** * Lines of templates *)
(* ================================================================== *)

(** No line boundary of [str.splitlines]. *)
Definition no_break (s : text) : bool := forallb (fun c => negb (is_linebreak c)) s.

(** A line of generated code: one line for [splitlines] too, without tabs,
    and not made of white space only. *)
Definition code_line (s : text) : bool := plain_line s && no_break s.

(** A line of generated code, or an empty line. *)
Definition code_or_empty (s : text) : bool := is_nil s || code_line s.

(** A line of a template: text written to the right of the margin, or
    blanks only. *)
Inductive row : Type :=
| Line (l : text)
| Blanks (t : nat).

(** The row as the template holds it, with the margin [n]. *)
Definition written (n : nat) (r : row) : text :=
  match r with
  | Line l => spaces n ++ l
  | Blanks t => spaces t
  end.

(** The row as [inspect.cleandoc] leaves it. *)
Definition cleaned (r : row) : text :=
  match r with
  | Line l => l
  | Blanks _ => []
  end.

Definition row_fits (n : nat) (r : row) : bool :=
  match r with
  | Line l => plain_line l
  | Blanks t => t <=? n
  end.

(** A line of a text that is moved [k] columns to the right inside another
    one; empty lines stay empty. *)
Definition shifted (k : nat) (l : text) : text :=
  if is_nil l then [] else spaces k ++ l.

(* ================================================================== *)
(** * The methods of a class *)
(* ================================================================== *)

(** [str(method)] when the rendering returns; no text when it raises. *)
Definition method_text (m : Method.t) : text :=
  match snd (Method.ctypes_string m) with
  | Returned s => s
  | Raised _ => []
  end.

(** The lines of [str(method)]; the text ends with a newline, which leaves
    an empty last piece that is no line. *)
Definition method_lines (m : Method.t) : list text :=
  removelast (split_on newline (method_text m)).

(** [method.ctypes_fntable_string()] when it returns; no text when it
    raises. *)
Definition table_entry (m : Method.t) : text :=
  match ctypes_fntable_string m with
  | Answer e => e
  | Fault _ => []
  end.

(** Neither [str(method)] nor [method.ctypes_fntable_string()] raises. *)
Definition renders (m : Method.t) : bool :=
  match snd (Method.ctypes_string m), ctypes_fntable_string m with
  | Returned _, Answer _ => true
  | _, _ => false
  end.

(** A method that is rendered as lines of code and empty lines, each ended
    by a newline, the last of them a line of code, and whose entry in the
    function table is one line. *)
Definition tidy_method (m : Method.t) : bool :=
  renders m
  && text_eqb (method_text m)
              (List.concat (map (fun l => l ++ nl) (method_lines m)))
  && forallb code_or_empty (method_lines m)
  && negb (is_nil (last (method_lines m) []))
  && one_line (table_entry m).

(** A docstring of one line. *)
Definition short_doc (o : option text) : bool :=
  match o with
  | Some d => no_break d && no_tab d
  | None => true
  end.

(** The lines of the methods inside a class: every method one level to
    the right, and an empty line between two methods. *)
Fixpoint method_blocks (blocks : list (list text)) : list text :=
  match blocks with
  | [] => []
  | [b] => map (shifted 4) b
  | b :: bs => map (shifted 4) b ++ [] :: method_blocks bs
  end.

(** The row of a line that is moved [k] columns to the right of the
    margin. *)
Definition row_of (k : nat) (l : text) : row :=
  if is_nil l then Blanks 0 else Line (spaces k ++ l).

(** The exception that rendering a method inside a class raises, if any:
    that of [str(method)], or else that of
    [method.ctypes_fntable_string()]. *)
Definition failure (m : Method.t) : option fault :=
  match snd (Method.ctypes_string m) with
  | Raised IndexError => Some Index_Error
  | Returned _ =>
      match ctypes_fntable_string m with
      | Fault e => Some e
      | Answer _ => None
      end
  end.

(** The last parameter is an output string: no parameter is left to take
    its length. *)
Definition ends_with_out_string (m : Method.t) : bool :=
  match rev (Method.parameters m) with
  | p :: _ => Param.is_out_string p
  | [] => false
  end.

(* ================================================================== *)
(** * Samples *)
(* ================================================================== *)

(** A function with two error outputs. *)
Definition sample_two_errors : Func.t :=
  Func.mk (str "VR_GetGenericInterface") None
    (mkType POINTER (str "void *") false (mkType VOID (str "void") false InvalidType))
    [Param.init (str "peFirst")
       (mkType POINTER (str "vr::EVRInitError *") false
          (mkType ENUM (str "vr::EVRInitError") false InvalidType))
       None None None;
     Param.init (str "pchInterfaceVersion")
       (mkType POINTER (str "const char *") false
          (mkType CHAR_S (str "const char") true InvalidType))
       None None None;
     Param.init (str "peError")
       (mkType POINTER (str "vr::EVRInitError *") false
          (mkType ENUM (str "vr::EVRInitError") false InvalidType))
       None None None].

(** An array of poses, with its count. *)
Definition sample_array_parameter : Param.t :=
  Param.init (str "pTrackedDevicePoseArray")
    (mkType POINTER (str "vr::TrackedDevicePose_t *") false
       (mkType RECORD (str "vr::TrackedDevicePose_t") false InvalidType))
    None None (Some (str "array_count:unTrackedDevicePoseArrayCount;")).

(** An error output. *)
Definition sample_error_parameter : Param.t :=
  Param.init (str "peError")
    (mkType POINTER (str "vr::EVRInitError *") false
       (mkType ENUM (str "vr::EVRInitError") false InvalidType))
    None None None.

(** An output string. *)
Definition sample_string_parameter : Param.t :=
  Param.init (str "pchValue")
    (mkType POINTER (str "char *") false (mkType CHAR_S (str "char") false InvalidType))
    None None (Some (str "out_string: ;")).

(** A structure with two fields. *)
Definition sample_struct : Struct.t :=
  Struct.add_field
    (Struct.add_field (Struct.init (str "vr::HmdQuad_t") None)
       (StructField.mk (str "vCorners") (str "vr::HmdVector3_t[4]") None))
    (StructField.mk (str "bValid") (str "bool") None).

(** A method without output strings. *)
Definition sample_plain_method : Method.t :=
  Method.mk (str "GetCount") None (Some (str "uint32_t"))
    [Param.init (str "eType") (mkType ENUM (str "vr::EVRApplicationType") false InvalidType)
       None None None]
    [].

(** A class with a docstring and two methods, and a class without
    methods. *)
Definition sample_class : Class.t :=
  Class.mk (str "vr::IVRSystem") (Some (str "The system.")) (str "object")
    [sample_string_method; sample_plain_method].

Definition sample_empty_class : Class.t := Class.init (str "vr::IVRSystem") None.

(** An enumeration with two constants. *)
Definition sample_enum : EnumDecl.t :=
  EnumDecl.add_constant
    (EnumDecl.add_constant (EnumDecl.init (str "EVREye") None)
       (EnumConstant.mk (str "Eye_Left") (str "0") None))
    (EnumConstant.mk (str "Eye_Right") (str "1") None).

(* ================================================================== *)
(** * Properties *)
(* ================================================================== *)

Lemma consumed_app (s rest : text) : consumed (s ++ rest) rest = s.
Proof.
  unfold consumed. rewrite length_app.
  replace (List.length s + List.length rest - List.length rest) with (List.length s + 0) by lia.
  rewrite firstn_app_2. simpl. apply app_nil_r.
Qed.

Lemma star_run_sound {A} (p : ascii -> bool) (k : text -> text -> option A) :
  forall rest pre a,
    star_run p k pre rest = Some a ->
    exists s rest', rest = s ++ rest' /\ forallb p s = true /\
                    k (rev s ++ pre) rest' = Some a.
Proof.
  induction rest as [|c rest IH]; intros pre a H; simpl in H.
  - exists [], []. auto.
  - destruct (p c) eqn:Hp.
    + destruct (star_run p k (c :: pre) rest) eqn:Hs.
      * inversion H; subst. apply IH in Hs. destruct Hs as (s & rest' & -> & Hall & Hk).
        exists (c :: s), rest'. simpl. rewrite Hp, Hall. repeat split; auto.
        rewrite <- app_assoc. exact Hk.
      * exists [], (c :: rest). auto.
    + exists [], (c :: rest). auto.
Qed.

Lemma run_sound {A} (r : regex) :
  forall pre rest cs (k : text -> text -> captures -> option A) a,
    run r pre rest cs k = Some a ->
    exists s rest' cs', rest = s ++ rest' /\ Matches r pre s rest' cs cs' /\
                        k (rev s ++ pre) rest' cs' = Some a.
Proof.
  induction r; intros pre rest cs k a H; simpl in H.
  - exists [], rest, cs. repeat split; auto. constructor.
  - destruct rest as [|c rest]; [discriminate|]. destruct (p c) eqn:Hp; [|discriminate].
    exists [c], rest, cs. repeat split; auto. constructor; auto.
  - apply IHr1 in H. destruct H as (s1 & rest1 & cs1 & -> & M1 & H).
    apply IHr2 in H. destruct H as (s2 & rest2 & cs2 & -> & M2 & H).
    exists (s1 ++ s2), rest2, cs2. rewrite <- app_assoc. repeat split; auto.
    + econstructor; eauto.
    + rewrite rev_app_distr, <- app_assoc. exact H.
  - destruct (run r1 pre rest cs k) eqn:H1.
    + inversion H; subst. apply IHr1 in H1. destruct H1 as (s & rest' & cs' & -> & M & Hk).
      exists s, rest', cs'. repeat split; auto. apply M_AltL; auto.
    + apply IHr2 in H. destruct H as (s & rest' & cs' & -> & M & Hk).
      exists s, rest', cs'. repeat split; auto. apply M_AltR; auto.
  - apply star_run_sound in H. destruct H as (s & rest' & -> & Hall & Hk).
    exists s, rest', cs. repeat split; auto. constructor; auto.
  - apply IHr in H. destruct H as (s & rest' & cs' & -> & M & Hk).
    rewrite consumed_app in Hk.
    exists s, rest', ((n, s) :: cs'). repeat split; auto. constructor; auto.
  - destruct pre; [|discriminate]. exists [], rest, cs. repeat split; auto. constructor.
  - destruct (at_eol rest) eqn:E; [|discriminate].
    exists [], rest, cs. repeat split; auto. constructor; auto.
  - destruct (at_wordb pre rest) eqn:E; [|discriminate].
    exists [], rest, cs. repeat split; auto. constructor; auto.
Qed.

Lemma match_at_sound (r : regex) (pre rest rest' : text) (cs : captures) :
  match_at r pre rest = Some (rest', cs) ->
  exists s, rest = s ++ rest' /\ Matches r pre s rest' [] cs.
Proof.
  unfold match_at. intros H. apply run_sound in H.
  destruct H as (s & r' & cs' & -> & M & Hk). inversion Hk; subst.
  exists s. auto.
Qed.

Lemma re_match_sound (r : regex) (s : text) (cs : captures) :
  re_match r s = Some cs ->
  exists seg rest, s = seg ++ rest /\ Matches r [] seg rest [] cs.
Proof.
  unfold re_match. destruct (match_at r [] s) as [[rest cs']|] eqn:H; [|discriminate].
  intros E. inversion E; subst. apply match_at_sound in H.
  destruct H as (seg & -> & M). exists seg, rest. auto.
Qed.

(** ** Inversion of a match, constructor by constructor *)

Lemma Matches_Eps_inv pre s rest cs cs' :
  Matches Eps pre s rest cs cs' -> s = [] /\ cs' = cs.
Proof. intros H; inversion H; subst; auto. Qed.

Lemma Matches_Chr_inv p pre s rest cs cs' :
  Matches (Chr p) pre s rest cs cs' -> exists c, s = [c] /\ p c = true /\ cs' = cs.
Proof. intros H; inversion H; subst; eauto. Qed.

Lemma Matches_Cat_inv r1 r2 pre s rest cs cs' :
  Matches (Cat r1 r2) pre s rest cs cs' ->
  exists s1 s2 cs1, s = s1 ++ s2 /\ Matches r1 pre s1 (s2 ++ rest) cs cs1 /\
                    Matches r2 (rev s1 ++ pre) s2 rest cs1 cs'.
Proof. intros H; inversion H; subst; eauto 10. Qed.

Lemma Matches_Alt_inv r1 r2 pre s rest cs cs' :
  Matches (Alt r1 r2) pre s rest cs cs' ->
  Matches r1 pre s rest cs cs' \/ Matches r2 pre s rest cs cs'.
Proof. intros H; inversion H; subst; auto. Qed.

Lemma Matches_Star_inv p pre s rest cs cs' :
  Matches (Star p) pre s rest cs cs' -> forallb p s = true /\ cs' = cs.
Proof. intros H; inversion H; subst; auto. Qed.

Lemma Matches_Grp_inv n r pre s rest cs cs' :
  Matches (Grp n r) pre s rest cs cs' ->
  exists cs1, Matches r pre s rest cs cs1 /\ cs' = (n, s) :: cs1.
Proof. intros H; inversion H; subst; eauto. Qed.

Lemma Matches_Bol_inv pre s rest cs cs' :
  Matches Bol pre s rest cs cs' -> s = [] /\ pre = [] /\ cs' = cs.
Proof. intros H; inversion H; subst; auto. Qed.

Lemma Matches_Eol_inv pre s rest cs cs' :
  Matches Eol pre s rest cs cs' -> s = [] /\ at_eol rest = true /\ cs' = cs.
Proof. intros H; inversion H; subst; auto. Qed.

Lemma Matches_Wordb_inv pre s rest cs cs' :
  Matches Wordb pre s rest cs cs' -> s = [] /\ at_wordb pre rest = true /\ cs' = cs.
Proof. intros H; inversion H; subst; auto. Qed.

Ltac inv_matches_step :=
  match goal with
  | H : Matches Eps _ _ _ _ _ |- _ =>
      apply Matches_Eps_inv in H; destruct H as [? ?]
  | H : Matches (Chr _) _ _ _ _ _ |- _ =>
      apply Matches_Chr_inv in H; destruct H as (? & ? & ? & ?)
  | H : Matches (Cat _ _) _ _ _ _ _ |- _ =>
      apply Matches_Cat_inv in H; destruct H as (? & ? & ? & ? & ? & ?)
  | H : Matches (Star _) _ _ _ _ _ |- _ =>
      apply Matches_Star_inv in H; destruct H as [? ?]
  | H : Matches (Grp _ _) _ _ _ _ _ |- _ =>
      apply Matches_Grp_inv in H; destruct H as (? & ? & ?)
  | H : Matches Bol _ _ _ _ _ |- _ =>
      apply Matches_Bol_inv in H; destruct H as (? & ? & ?)
  | H : Matches Eol _ _ _ _ _ |- _ =>
      apply Matches_Eol_inv in H; destruct H as (? & ? & ?)
  | H : Matches Wordb _ _ _ _ _ |- _ =>
      apply Matches_Wordb_inv in H; destruct H as (? & ? & ?)
  | H : Matches (Alt _ _) _ _ _ _ _ |- _ =>
      apply Matches_Alt_inv in H; destruct H as [H | H]
  end.

Ltac inv_matches := repeat (inv_matches_step; subst).

(** ** The weight *)

Lemma weight_app (a b : text) : weight (a ++ b) = weight a + weight b.
Proof. unfold weight. rewrite map_app, list_sum_app. reflexivity. Qed.

Lemma weight_cons c (s : text) : weight (c :: s) = char_weight c + weight s.
Proof. reflexivity. Qed.

Lemma weight_nil : weight [] = 0.
Proof. reflexivity. Qed.

Lemma weight_rev (s : text) : weight (rev s) = weight s.
Proof.
  induction s as [|c s IH]; simpl; auto.
  rewrite weight_app, IH, !weight_cons, weight_nil. lia.
Qed.

Lemma ascii_forall (f : ascii -> bool) :
  forallb f all_ascii = true -> forall c, f c = true.
Proof.
  intros H c. rewrite forallb_forall in H. apply H.
  unfold all_ascii. rewrite <- (ascii_nat_embedding c).
  apply in_map. apply in_seq. pose proof (nat_ascii_bounded c). lia.
Qed.

(** [ascii_fact f c]: adds [f c = true], checked on every character. *)
Ltac ascii_fact f c :=
  let E := fresh "E" in
  assert (E : forallb f all_ascii = true) by (vm_compute; reflexivity);
  apply ascii_forall with (c := c) in E; cbv beta in E.

Lemma weight_star_or_amp c : star_or_amp c = true -> char_weight c = 1.
Proof.
  intros H.
  ascii_fact (fun c => implb (star_or_amp c) (Nat.eqb (char_weight c) 1)) c.
  rewrite H in E. apply Nat.eqb_eq in E. exact E.
Qed.

Lemma digit_weightless c : is_digit c = true -> char_weight c = 0.
Proof.
  intros H.
  ascii_fact (fun c => implb (is_digit c) (Nat.eqb (char_weight c) 0)) c.
  rewrite H in E. apply Nat.eqb_eq in E. exact E.
Qed.

Lemma weight_digits (s : text) : forallb is_digit s = true -> weight s = 0.
Proof.
  induction s as [|c s IH]; simpl; intros H; auto.
  apply andb_true_iff in H. destruct H as [Hc Hs].
  rewrite weight_cons, (IH Hs), (digit_weightless c Hc). reflexivity.
Qed.

Ltac weigh :=
  repeat first [rewrite weight_app in * | rewrite weight_cons in * | rewrite weight_nil in *].

(** The weight of a character of the pattern. *)
Ltac literal_weights :=
  repeat match goal with
         | |- context [char_weight (Ascii ?a ?b ?c ?d ?e ?f ?g ?h)] =>
             let v := eval vm_compute in (char_weight (Ascii a b c d e f g h)) in
             change (char_weight (Ascii a b c d e f g h)) with v
         end.

Lemma rx_pointer_weight (s : text) (m : captures) :
  re_match rx_pointer s = Some m ->
  weight (group m 1) + 1 + weight (group m 2) <= weight s.
Proof.
  intros H. apply re_match_sound in H. destruct H as (seg & rest & -> & M).
  cbv [rx_pointer Seq fold_right Plus] in M.
  inv_matches. simpl group. weigh.
  match goal with H : star_or_amp _ = true |- _ => apply weight_star_or_amp in H end.
  lia.
Qed.

Lemma rx_ptr_weight (s : text) (m : captures) :
  re_match rx_ptr s = Some m ->
  weight (group m 1) + 1 + weight (group m 2) <= weight s.
Proof.
  intros H. apply re_match_sound in H. destruct H as (seg & rest & -> & M).
  cbv [rx_ptr Seq fold_right Plus Lit Opt str list_ascii_of_string map] in M.
  inv_matches; simpl group; weigh;
    repeat match goal with
           | H : is_chr ?a ?c = true |- _ => apply Ascii.eqb_eq in H; subst c
           end; literal_weights; lia.
Qed.

Lemma rx_array_weight (s : text) (m : captures) :
  re_match rx_array s = Some m ->
  weight (group m 1) + 2 + weight (group m 3) <= weight s /\ weight (group m 2) = 0.
Proof.
  intros H. apply re_match_sound in H. destruct H as (seg & rest & -> & M).
  cbv [rx_array Seq fold_right Plus] in M.
  inv_matches; simpl group; weigh;
    repeat match goal with
           | H : is_chr ?a ?c = true |- _ => apply Ascii.eqb_eq in H; subst c
           | H : is_digit _ = true |- _ => apply digit_weightless in H
           | H : forallb is_digit _ = true |- _ => apply weight_digits in H
           end; literal_weights; split; lia.
Qed.

#[local] Arguments weight : simpl never.
#[local] Arguments char_weight : simpl never.

(** The weight of a literal of the source. *)
Ltac literal_weight :=
  repeat match goal with
         | |- context [weight (str ?x)] =>
             let v := eval vm_compute in (weight (str x)) in
             change (weight (str x)) with v
         end.

(** ** No rewrite before or after the loops adds weight *)

Lemma text_eqb_eq (a b : text) : text_eqb a b = true <-> a = b.
Proof.
  revert b. induction a as [|x a IH]; destruct b as [|y b]; simpl; split;
    try discriminate; try reflexivity; intros H.
  - apply andb_true_iff in H. destruct H as [H1 H2].
    apply Ascii.eqb_eq in H1. apply IH in H2. subst. reflexivity.
  - inversion H; subst. rewrite Ascii.eqb_refl. simpl. apply IH. reflexivity.
Qed.

Lemma sub_scan_weight r repl : weight repl = 0 ->
  forall rest pre skip, weight (sub_scan r repl pre rest skip) <= weight rest.
Proof.
  intros Hr. induction rest as [|c rest IH]; intros pre skip; cbn [sub_scan].
  - destruct (match_at r pre []); change (weight []) with 0; lia.
  - destruct skip as [|k].
    + destruct (match_at r pre (c :: rest)) as [[rest'' cs]|].
      * destruct (List.length (c :: rest) - List.length rest'');
          weigh; rewrite Hr; specialize (IH (c :: pre)).
        -- specialize (IH 0). lia.
        -- specialize (IH n). lia.
      * weigh. specialize (IH (c :: pre) 0). lia.
    + weigh. specialize (IH (c :: pre) k). lia.
Qed.

Lemma re_sub_weight r repl s : weight (str repl) = 0 -> weight (re_sub r repl s) <= weight s.
Proof. intros H. apply sub_scan_weight. exact H. Qed.

Lemma lstrip_weight s : weight (lstrip s) <= weight s.
Proof.
  induction s as [|c s IH]; simpl; auto.
  destruct (is_space c); weigh; lia.
Qed.

Lemma strip_weight s : weight (strip s) <= weight s.
Proof.
  unfold strip, rstrip. rewrite weight_rev.
  etransitivity; [apply lstrip_weight|]. rewrite weight_rev. apply lstrip_weight.
Qed.

Lemma strip_noise_weight s : weight (strip_noise s) <= weight s.
Proof.
  unfold strip_noise.
  repeat (etransitivity; [apply re_sub_weight; reflexivity|]).
  apply strip_weight.
Qed.

Lemma abbreviate_weight s : weight (abbreviate s) <= weight s.
Proof.
  unfold abbreviate.
  repeat (etransitivity; [apply re_sub_weight; reflexivity|]). lia.
Qed.

Lemma char_pointer_weight s : weight (char_pointer s) <= weight s.
Proof. unfold char_pointer. destruct (matches rx_char_p s); literal_weight; lia. Qed.

Lemma prepend_c_weight s : weight (prepend_c s) <= weight s.
Proof.
  unfold prepend_c. destruct (matches rx_primitive s); [|lia].
  rewrite weight_app. literal_weight. lia.
Qed.

Lemma normalize_weight s : weight (normalize s) <= weight s.
Proof.
  unfold normalize.
  etransitivity; [apply re_sub_weight; reflexivity|].
  etransitivity; [apply prepend_c_weight|].
  etransitivity; [apply re_sub_weight; reflexivity|].
  etransitivity; [apply char_pointer_weight|].
  pose proof (strip_noise_weight s) as Hs.
  unfold no_implicit_int.
  destruct (text_eqb (strip_noise s) (str "unsigned")) eqn:E.
  - apply text_eqb_eq in E. rewrite E in Hs.
    etransitivity; [|exact Hs]. vm_compute. lia.
  - etransitivity; [apply abbreviate_weight|]. exact Hs.
Qed.

Lemma skipn_weight n (s : text) : weight (skipn n s) <= weight s.
Proof.
  revert s. induction n as [|n IH]; intros [|c s]; simpl; auto.
  weigh. specialize (IH s). lia.
Qed.

Lemma finish_weight s : weight (finish s) <= weight s.
Proof.
  unfold finish.
  set (r1 := if text_eqb s (str "void") then str "None" else s).
  assert (H1 : weight r1 <= weight s).
  { unfold r1. destruct (text_eqb s (str "void")); literal_weight; lia. }
  set (r2 := if text_eqb r1 (str "POINTER(None)") then str "c_void_p" else r1).
  assert (H2 : weight r2 <= weight r1).
  { unfold r2. destruct (text_eqb r1 (str "POINTER(None)")); literal_weight; lia. }
  pose proof (re_sub_weight rx_bool "openvr_bool" r2 eq_refl) as H3.
  destruct (startswith _ _).
  - pose proof (skipn_weight 4 (re_sub rx_bool "openvr_bool" r2)). lia.
  - lia.
Qed.

(** ** The loops and the array rule, given a recursive call that answers on
    every lighter text *)

Lemma rewrite_loop_total rx rec (bound : nat) :
  (forall s m, re_match rx s = Some m ->
               weight (group m 1) + 1 + weight (group m 2) <= weight s) ->
  (forall g, weight g < bound -> exists r, rec g = Some r /\ weight r <= weight g) ->
  forall n result, weight result <= n -> weight result <= bound ->
    exists r, rewrite_loop rx rec n result = Some r /\ weight r <= weight result.
Proof.
  intros Hrx Hrec. induction n as [|n IH]; intros result Hn Hb; simpl.
  - destruct (re_match rx result) as [m|] eqn:E; [|eauto].
    apply Hrx in E. lia.
  - destruct (re_match rx result) as [m|] eqn:E; [|eauto].
    apply Hrx in E.
    destruct (Hrec (group m 1)) as (p & -> & Hp); [lia|].
    destruct (IH (str "POINTER(" ++ p ++ str ")" ++ group m 2)) as (r & Hr & Hw).
    + weigh. literal_weight. lia.
    + weigh. literal_weight. lia.
    + exists r. split; auto. revert Hw. weigh. literal_weight. lia.
Qed.

Lemma array_rule_total rec bracket (bound : nat) result :
  (forall g, weight g < bound -> exists r, rec g = Some r /\ weight r <= weight g) ->
  weight result <= bound ->
  exists r, array_rule rec bracket result = Some r /\ weight r <= weight result.
Proof.
  intros Hrec Hb. unfold array_rule.
  destruct (re_match rx_array result) as [m|] eqn:E; [|eauto].
  apply rx_array_weight in E. destruct E as [E1 E2].
  destruct (Hrec (group m 1 ++ group m 3)) as (t & -> & Ht).
  { rewrite weight_app. lia. }
  eexists. split; [reflexivity|].
  rewrite weight_app in Ht.
  destruct bracket; weigh; literal_weight; lia.
Qed.

(** ** More fuel changes no answer *)

Lemma rewrite_loop_mono rx f g : extends f g ->
  forall n n' result r, n <= n' ->
    rewrite_loop rx f n result = Some r -> rewrite_loop rx g n' result = Some r.
Proof.
  intros Hfg. induction n as [|n IH]; intros n' result r Hn; simpl.
  - destruct (re_match rx result) eqn:E; [discriminate|].
    intros H. destruct n'; simpl; rewrite E; exact H.
  - destruct n' as [|n']; [lia|]. simpl.
    destruct (re_match rx result) eqn:E; [|auto].
    destruct (f (group c 1)) as [p|] eqn:Ef; [|discriminate].
    rewrite (Hfg _ _ Ef). apply IH. lia.
Qed.

Lemma array_rule_mono f g bracket result r : extends f g ->
  array_rule f bracket result = Some r -> array_rule g bracket result = Some r.
Proof.
  intros Hfg. unfold array_rule.
  destruct (re_match rx_array result); [|auto].
  destruct (f _) as [t|] eqn:Ef; [|discriminate].
  rewrite (Hfg _ _ Ef). auto.
Qed.

Lemma translate_type_fuel_mono :
  forall n n' s b r, n <= n' ->
    translate_type_fuel n s b = Some r -> translate_type_fuel n' s b = Some r.
Proof.
  induction n as [|n IH]; intros n' s b r Hn; [discriminate|].
  destruct n' as [|n']; [lia|]. simpl.
  assert (Hext : forall b', extends (fun t => translate_type_fuel n t b')
                                    (fun t => translate_type_fuel n' t b')).
  { intros b' t x Hx. apply (IH n'); [lia|exact Hx]. }
  destruct (rewrite_loop rx_pointer _ n (normalize s)) as [r1|] eqn:E1; [|discriminate].
  rewrite (rewrite_loop_mono _ _ _ (Hext false) n n' _ _ ltac:(lia) E1).
  destruct (rewrite_loop rx_ptr _ n r1) as [r2|] eqn:E2; [|discriminate].
  rewrite (rewrite_loop_mono _ _ _ (Hext false) n n' _ _ ltac:(lia) E2).
  apply array_rule_mono. apply Hext.
Qed.

(** ** Enough fuel gives an answer *)

Lemma translate_type_fuel_total :
  forall w s b, weight s <= w ->
    exists r, translate_type_fuel (S w) s b = Some r /\ weight r <= weight s.
Proof.
  induction w as [w IH] using lt_wf_ind. intros s b Hw. simpl.
  assert (Hrec : forall b' g, weight g < w ->
            exists r, translate_type_fuel w g b' = Some r /\ weight r <= weight g).
  { intros b' g Hg. destruct w as [|w']; [lia|].
    destruct (IH (weight g) ltac:(lia) g b' (le_n _)) as (r & Hr & Hwr).
    exists r. split; auto.
    apply (translate_type_fuel_mono (S (weight g))); [lia|exact Hr]. }
  pose proof (normalize_weight s) as Hn.
  destruct (rewrite_loop_total rx_pointer (fun t => translate_type_fuel w t false) w
              rx_pointer_weight (Hrec false) w (normalize s)) as (r1 & -> & H1); try lia.
  destruct (rewrite_loop_total rx_ptr (fun t => translate_type_fuel w t false) w
              rx_ptr_weight (Hrec false) w r1) as (r2 & -> & H2); try lia.
  pose proof (finish_weight r2) as Hf.
  destruct (array_rule_total (fun t => translate_type_fuel w t true) b w (finish r2)
              (Hrec true)) as (r3 & -> & H3); try lia.
  exists r3. split; auto. lia.
Qed.

Lemma translate_type_b_spec s b :
  translate_type_fuel (S (weight s)) s b = Some (translate_type_b s b)
  /\ weight (translate_type_b s b) <= weight s.
Proof.
  unfold translate_type_b.
  destruct (translate_type_fuel_total (weight s) s b (le_n _)) as (r & -> & H). auto.
Qed.

(** An answer with any fuel is the answer. *)
Lemma translate_type_fuel_sound n s b r :
  translate_type_fuel n s b = Some r -> translate_type_b s b = r.
Proof.
  intros H. destruct (translate_type_b_spec s b) as [E _].
  apply (translate_type_fuel_mono _ (n + S (weight s))) in H; [|lia].
  apply (translate_type_fuel_mono _ (n + S (weight s))) in E; [|lia].
  congruence.
Qed.

Lemma translate_type_fuel_enough n s b :
  weight s < n -> translate_type_fuel n s b = Some (translate_type_b s b).
Proof.
  intros H. destruct (translate_type_b_spec s b) as [E _].
  apply (translate_type_fuel_mono (S (weight s))); [lia|exact E].
Qed.

(** ** Running the greedy repetition *)

Lemma star_run_first {A} p (k : text -> text -> option A) :
  forall l pre rest a,
    forallb p l = true ->
    star_run p k (rev l ++ pre) rest = Some a ->
    star_run p k pre (l ++ rest) = Some a.
Proof.
  induction l as [|x l IH]; intros pre rest a Hl H; simpl in *; auto.
  apply andb_true_iff in Hl. destruct Hl as [Hx Hl]. rewrite Hx.
  rewrite (IH (x :: pre) rest a Hl); auto.
  rewrite <- app_assoc in H. exact H.
Qed.

Lemma star_run_stop {A} p (k : text -> text -> option A) pre rest :
  match rest with [] => true | c :: _ => negb (p c) end = true ->
  star_run p k pre rest = k pre rest.
Proof.
  destruct rest as [|c rest]; simpl; auto.
  intros H. apply negb_true_iff in H. rewrite H. reflexivity.
Qed.

Lemma star_run_back {A} p (k : text -> text -> option A) :
  forall l pre c rest a,
    forallb p l = true -> p c = true ->
    star_run p k (c :: rev l ++ pre) rest = None ->
    k (rev l ++ pre) (c :: rest) = Some a ->
    star_run p k pre (l ++ c :: rest) = Some a.
Proof.
  induction l as [|x l IH]; intros pre c rest a Hl Hc Hn Hk; simpl in *.
  - rewrite Hc, Hn. exact Hk.
  - apply andb_true_iff in Hl. destruct Hl as [Hx Hl]. rewrite Hx.
    rewrite (IH (x :: pre) c rest a Hl Hc); auto;
      rewrite <- app_assoc in *; simpl in *; auto.
Qed.

Lemma consumed_eq (whole seg rest : text) :
  whole = seg ++ rest -> consumed whole rest = seg.
Proof. intros ->. apply consumed_app. Qed.

Lemma star_run_all {A} p (k : text -> text -> option A) l pre a :
  forallb p l = true -> k (rev l ++ pre) [] = Some a -> star_run p k pre l = Some a.
Proof.
  intros Hl Hk. rewrite <- (app_nil_r l). apply star_run_first; auto.
Qed.

Lemma rx_pointer_two_stars c0 mid tl :
  forallb (not_chr "*") (c0 :: mid) = true ->
  forallb any_but_newline tl = true ->
  re_match rx_pointer (c0 :: mid ++ "*" :: "*" :: tl)%char
  = Some [(2, tl); (1, c0 :: mid ++ ["*"%char])].
Proof.
  intros H Htl. simpl in H. apply andb_true_iff in H. destruct H as [H0 Hm].
  unfold re_match, match_at, rx_pointer. cbn [Seq fold_right Plus run].
  rewrite H0.
  erewrite star_run_first; [|exact Hm|].
  2:{ cbn [star_run not_chr Ascii.eqb Bool.eqb negb non_space is_space in_range is_code code
           N_of_ascii N_of_digits N.leb N.eqb N.compare Pos.compare Pos.compare_cont
           Pos.eqb N.add N.mul Pos.add Pos.mul Pos.succ andb orb star_or_amp one_of existsb].
      apply star_run_all; [exact Htl|]. cbn [at_eol]. reflexivity. }
  cbv beta iota.
  rewrite (consumed_eq tl tl []) by (rewrite app_nil_r; reflexivity).
  rewrite (consumed_eq (c0 :: mid ++ "*" :: "*" :: tl) (c0 :: mid ++ ["*"]) ("*" :: tl))%char
    by (simpl; rewrite <- app_assoc; reflexivity).
  reflexivity.
Qed.

(** The evaluation steps that decide a class on a character of the subject. *)
Ltac run_classes :=
  cbn [star_run not_chr Ascii.eqb Bool.eqb negb non_space is_space in_range is_code code
       N_of_ascii N_of_digits N.leb N.eqb N.compare Pos.compare Pos.compare_cont
       Pos.eqb N.add N.mul Pos.add Pos.mul Pos.succ andb orb star_or_amp one_of existsb
       is_chr at_eol].

Lemma rx_pointer_one_star c0 mid cl :
  forallb (not_chr "*") (c0 :: mid ++ [cl]) = true ->
  non_space cl = true ->
  re_match rx_pointer (c0 :: mid ++ [cl; "*"%char])
  = Some [(2, []); (1, c0 :: mid ++ [cl])].
Proof.
  intros H Hcl. simpl in H. apply andb_true_iff in H. destruct H as [H0 Hm].
  rewrite forallb_app in Hm. apply andb_true_iff in Hm. destruct Hm as [Hm Hl].
  simpl in Hl. rewrite andb_true_r in Hl.
  unfold re_match, match_at, rx_pointer. cbn [Seq fold_right Plus run].
  rewrite H0.
  erewrite star_run_back; [|exact Hm|exact Hl| |].
  2:{ run_classes. reflexivity. }
  2:{ rewrite Hcl. run_classes. reflexivity. }
  cbv beta iota.
  rewrite (consumed_eq [] [] []) by reflexivity.
  rewrite (consumed_eq (c0 :: mid ++ [cl; "*"]) (c0 :: mid ++ [cl]) ["*"])%char
    by (simpl; rewrite <- app_assoc; reflexivity).
  reflexivity.
Qed.

Local Open Scope char_scope.

(** ** Properties of a text that every text around it inherits *)

Lemma existsb_inherited q : inherited (existsb q).
Proof.
  intros u s v H. rewrite !existsb_app, H. rewrite orb_true_r. reflexivity.
Qed.

Lemma startswith_app a x : startswith (a ++ x) a = true.
Proof.
  induction a as [|c a IH]; cbn [startswith app].
  - destruct x; reflexivity.
  - rewrite Ascii.eqb_refl, IH. reflexivity.
Qed.

Lemma startswith_app_l s lit v : startswith s lit = true -> startswith (s ++ v) lit = true.
Proof.
  revert s. induction lit as [|a lit IH]; intros [|y s]; cbn [startswith app]; auto.
  - destruct v; reflexivity.
  - discriminate.
  - intros H. apply andb_true_iff in H. destruct H as [H1 H2].
    rewrite H1, (IH s H2). reflexivity.
Qed.

Lemma has_sub_unfold lit s :
  has_sub lit s
  = startswith s lit || match s with [] => false | _ :: s' => has_sub lit s' end.
Proof. destruct s; reflexivity. Qed.

Lemma has_sub_app_r lit u s : has_sub lit s = true -> has_sub lit (u ++ s) = true.
Proof.
  intros H. induction u as [|x u IH]; cbn [app]; auto.
  rewrite has_sub_unfold, IH. apply orb_true_r.
Qed.

Lemma has_sub_app_l lit s v : has_sub lit s = true -> has_sub lit (s ++ v) = true.
Proof.
  induction s as [|x s IH]; rewrite has_sub_unfold; intros H.
  - rewrite orb_false_r in H. destruct lit; [|discriminate].
    destruct v; reflexivity.
  - cbn [app]. rewrite has_sub_unfold.
    apply orb_true_iff in H. destruct H as [H|H].
    + change (x :: s ++ v) with ((x :: s) ++ v).
      rewrite (startswith_app_l _ _ v H). reflexivity.
    + rewrite (IH H). apply orb_true_r.
Qed.

Lemma has_sub_inherited lit : inherited (has_sub lit).
Proof. intros u s v H. apply has_sub_app_r, has_sub_app_l, H. Qed.

Lemma has_sub_here lit v : has_sub lit (lit ++ v) = true.
Proof. rewrite has_sub_unfold, startswith_app. reflexivity. Qed.

(** A literal is not found across a character that it does not hold. *)
Lemma startswith_sep lit u c v :
  existsb (Ascii.eqb c) lit = false -> startswith (u ++ c :: v) lit = startswith u lit.
Proof.
  revert u. induction lit as [|a lit IH]; intros u H.
  - destruct u; reflexivity.
  - cbn [existsb] in H. apply orb_false_iff in H. destruct H as [Ha Hl].
    destruct u as [|x u]; cbn [startswith app].
    + rewrite Ascii.eqb_sym, Ha. reflexivity.
    + rewrite (IH u Hl). reflexivity.
Qed.

Lemma has_sub_nil lit : lit <> [] -> has_sub lit [] = false.
Proof. destruct lit; [contradiction|reflexivity]. Qed.

Lemma has_sub_sep lit u c v :
  lit <> [] -> existsb (Ascii.eqb c) lit = false ->
  has_sub lit (u ++ c :: v) = has_sub lit u || has_sub lit v.
Proof.
  intros Hn Hc. induction u as [|x u IH].
  - cbn [app]. rewrite has_sub_unfold, (has_sub_nil lit Hn).
    pose proof (startswith_sep lit [] c v Hc) as E. cbn [app] in E. rewrite E.
    destruct lit; [contradiction|reflexivity].
  - cbn [app]. rewrite has_sub_unfold, (has_sub_unfold lit (x :: u)), IH.
    change (x :: u ++ c :: v) with ((x :: u) ++ c :: v).
    rewrite (startswith_sep lit (x :: u) c v Hc). apply orb_assoc.
Qed.

Section Quiet.
Variable phi : text -> bool.
Hypothesis phi_inherited : inherited phi.
Variable r : regex.
Hypothesis r_needs : forall pre s rest cs cs', Matches r pre s rest cs cs' -> phi s = true.

Lemma match_at_quiet pre rest :
  phi (rev pre ++ rest) = false -> match_at r pre rest = None.
Proof.
  intros H. destruct (match_at r pre rest) as [[rest' cs]|] eqn:E; auto.
  apply match_at_sound in E. destruct E as (s & -> & M).
  apply r_needs in M. rewrite (phi_inherited (rev pre) s rest' M) in H. discriminate.
Qed.

Lemma sub_scan_quiet repl :
  forall rest pre, phi (rev pre ++ rest) = false -> sub_scan r repl pre rest 0 = rest.
Proof.
  induction rest as [|c rest IH]; intros pre H; cbn [sub_scan].
  - rewrite match_at_quiet; auto.
  - rewrite match_at_quiet; auto. f_equal. apply IH.
    simpl. rewrite <- app_assoc. exact H.
Qed.

Lemma re_sub_quiet repl x : phi x = false -> re_sub r repl x = x.
Proof. intros H. apply sub_scan_quiet. exact H. Qed.

Lemma re_match_quiet x : phi x = false -> re_match r x = None.
Proof.
  intros H. unfold re_match. rewrite match_at_quiet; auto.
Qed.
End Quiet.

(** ** What each pattern needs in the text it matches *)

Ltac literal_chars :=
  repeat match goal with
         | H : is_chr ?a ?c = true |- _ => apply Ascii.eqb_eq in H; subst c
         end.

Ltac found_char :=
  match goal with
  | H : ?q ?c = true |- existsb ?q _ = true =>
      apply existsb_exists; exists c; split; [|exact H];
      repeat (rewrite ?in_app_iff; simpl); tauto
  end.

Ltac needs_space r :=
  intros pre s rest cs cs' M;
  cbv [r rx_width Seq fold_right Plus Lit Opt str list_ascii_of_string map] in M;
  inv_matches; found_char.

Lemma rx_const_lead_needs :
  forall pre s rest cs cs', Matches rx_const_lead pre s rest cs cs' -> existsb is_space s = true.
Proof. needs_space rx_const_lead. Qed.

Lemma rx_const_trail_needs :
  forall pre s rest cs cs', Matches rx_const_trail pre s rest cs cs' -> existsb is_space s = true.
Proof. needs_space rx_const_trail. Qed.

Lemma rx_struct_needs :
  forall pre s rest cs cs', Matches rx_struct pre s rest cs cs' -> existsb is_space s = true.
Proof. needs_space rx_struct. Qed.

Lemma rx_enum_needs :
  forall pre s rest cs cs', Matches rx_enum pre s rest cs cs' -> existsb is_space s = true.
Proof. needs_space rx_enum. Qed.

Lemma rx_union_needs :
  forall pre s rest cs cs', Matches rx_union pre s rest cs cs' -> existsb is_space s = true.
Proof. needs_space rx_union. Qed.

Lemma rx_unsigned_needs :
  forall pre s rest cs cs', Matches rx_unsigned pre s rest cs cs' -> existsb is_space s = true.
Proof. needs_space rx_unsigned. Qed.

Lemma rx_long_long_needs :
  forall pre s rest cs cs', Matches rx_long_long pre s rest cs cs' -> existsb is_space s = true.
Proof. needs_space rx_long_long. Qed.

Lemma rx_pointer_needs :
  forall pre s rest cs cs', Matches rx_pointer pre s rest cs cs' ->
    existsb star_or_amp s = true.
Proof. needs_space rx_pointer. Qed.

Lemma rx_array_needs :
  forall pre s rest cs cs', Matches rx_array pre s rest cs cs' ->
    existsb (is_chr "[") s = true.
Proof.
  intros pre s rest cs cs' M.
  cbv [rx_array Seq fold_right Plus] in M. inv_matches.
  match goal with H : is_chr "[" ?c = true |- _ =>
    apply existsb_exists; exists c; split; [|exact H] end.
  repeat (rewrite ?in_app_iff; simpl); tauto.
Qed.

Lemma rx_char_p_needs :
  forall pre s rest cs cs', Matches rx_char_p pre s rest cs cs' ->
    existsb (is_chr "*") s = true.
Proof.
  intros pre s rest cs cs' M.
  cbv [rx_char_p Seq fold_right Plus Lit Opt str list_ascii_of_string map] in M.
  inv_matches;
  match goal with H : is_chr "*" ?c = true |- _ =>
    apply existsb_exists; exists c; split; [|exact H] end;
  repeat (rewrite ?in_app_iff; simpl); tauto.
Qed.

Ltac needs_literal r :=
  intros pre s rest cs cs' M;
  cbv [r rx_width Seq fold_right Plus Lit Opt str list_ascii_of_string map] in M;
  inv_matches; literal_chars; reflexivity.

Lemma rx_width_8_needs :
  forall pre s rest cs cs', Matches (rx_width "8") pre s rest cs cs' ->
    has_sub (str "8_t") s = true.
Proof. needs_literal rx_width. Qed.

Lemma rx_width_16_needs :
  forall pre s rest cs cs', Matches (rx_width "16") pre s rest cs cs' ->
    has_sub (str "16_t") s = true.
Proof. needs_literal rx_width. Qed.

Lemma rx_width_32_needs :
  forall pre s rest cs cs', Matches (rx_width "32") pre s rest cs cs' ->
    has_sub (str "32_t") s = true.
Proof. needs_literal rx_width. Qed.

Lemma rx_width_64_needs :
  forall pre s rest cs cs', Matches (rx_width "64") pre s rest cs cs' ->
    has_sub (str "64_t") s = true.
Proof. needs_literal rx_width. Qed.

Lemma rx_vr_prefix_needs :
  forall pre s rest cs cs', Matches rx_vr_prefix pre s rest cs cs' ->
    has_sub (str "VR_") s = true.
Proof. needs_literal rx_vr_prefix. Qed.

Lemma rx_bool_needs :
  forall pre s rest cs cs', Matches rx_bool pre s rest cs cs' ->
    has_sub (str "bool") s = true.
Proof. needs_literal rx_bool. Qed.

Lemma rx_ptr_needs :
  forall pre s rest cs cs', Matches rx_ptr pre s rest cs cs' ->
    has_sub (str "ptr") s = true.
Proof.
  intros pre s rest cs cs' M.
  cbv [rx_ptr Seq fold_right Plus Lit Opt str list_ascii_of_string map] in M.
  inv_matches; literal_chars;
    apply has_sub_app_r; apply has_sub_app_r; apply has_sub_app_l; reflexivity.
Qed.

(** ** Spellings that the rewrites leave alone *)

Lemma lstrip_id x : existsb is_space x = false -> lstrip x = x.
Proof.
  destruct x as [|c x]; simpl; auto. intros H.
  apply orb_false_iff in H. destruct H as [H _]. rewrite H. reflexivity.
Qed.

Lemma existsb_rev {A} (q : A -> bool) (l : list A) : existsb q (rev l) = existsb q l.
Proof.
  induction l as [|a l IH]; simpl; auto.
  rewrite existsb_app, IH. simpl. rewrite orb_false_r. apply orb_comm.
Qed.

Lemma strip_id x : existsb is_space x = false -> strip x = x.
Proof.
  intros H. unfold strip, rstrip. rewrite (lstrip_id x H).
  rewrite lstrip_id; [apply rev_involutive|]. rewrite existsb_rev. exact H.
Qed.

Lemma calm_parts x : calm x = true ->
  existsb is_space x = false
  /\ (has_sub (str "8_t") x = false /\ has_sub (str "16_t") x = false
      /\ has_sub (str "32_t") x = false /\ has_sub (str "64_t") x = false)
  /\ has_sub (str "VR_") x = false.
Proof.
  unfold calm. intros H.
  repeat (apply andb_true_iff in H; destruct H as [H ?]).
  repeat split; apply negb_true_iff; assumption.
Qed.

Lemma strip_noise_calm x : calm x = true -> strip_noise x = x.
Proof.
  intros H. apply calm_parts in H. destruct H as (Hs & _ & _).
  unfold strip_noise. rewrite (strip_id x Hs).
  rewrite (re_sub_quiet _ (existsb_inherited _) _ rx_const_lead_needs) by exact Hs.
  rewrite (re_sub_quiet _ (existsb_inherited _) _ rx_const_trail_needs) by exact Hs.
  rewrite (re_sub_quiet _ (existsb_inherited _) _ rx_struct_needs) by exact Hs.
  rewrite (re_sub_quiet _ (existsb_inherited _) _ rx_enum_needs) by exact Hs.
  rewrite (re_sub_quiet _ (existsb_inherited _) _ rx_union_needs) by exact Hs.
  reflexivity.
Qed.

Lemma abbreviate_calm x : calm x = true -> abbreviate x = x.
Proof.
  intros H. apply calm_parts in H. destruct H as (Hs & (H8 & H16 & H32 & H64) & _).
  unfold abbreviate.
  rewrite (re_sub_quiet _ (has_sub_inherited _) _ rx_width_8_needs "8" x H8).
  rewrite (re_sub_quiet _ (has_sub_inherited _) _ rx_width_16_needs "16" x H16).
  rewrite (re_sub_quiet _ (has_sub_inherited _) _ rx_width_32_needs "32" x H32).
  rewrite (re_sub_quiet _ (has_sub_inherited _) _ rx_width_64_needs "64" x H64).
  rewrite (re_sub_quiet _ (existsb_inherited _) _ rx_unsigned_needs) by exact Hs.
  reflexivity.
Qed.

Lemma normalize_calm x :
  calm x = true -> text_eqb x (str "unsigned") = false -> matches rx_char_p x = false ->
  normalize x = prepend_c x.
Proof.
  intros H Hu Hc. unfold normalize.
  rewrite (strip_noise_calm x H). unfold no_implicit_int. rewrite Hu.
  rewrite (abbreviate_calm x H). unfold char_pointer. rewrite Hc.
  apply calm_parts in H. destruct H as (Hs & Ht & Hr).
  rewrite (re_sub_quiet _ (existsb_inherited _) _ rx_long_long_needs) by exact Hs.
  apply (re_sub_quiet _ (has_sub_inherited _) _ rx_vr_prefix_needs).
  unfold prepend_c. destruct (matches rx_primitive x); [|exact Hr].
  change (str "c_" ++ x) with ("c" :: "_" :: x).
  rewrite has_sub_unfold, (has_sub_unfold _ ("_" :: x)), Hr. reflexivity.
Qed.

Lemma settled_parts x : settled x = true ->
  calm x = true /\ existsb (one_of ["*"; "&"; "["]) x = false
  /\ has_sub (str "ptr") x = false /\ has_sub (str "bool") x = false
  /\ matches rx_primitive x = false
  /\ text_eqb x (str "unsigned") = false /\ text_eqb x (str "void") = false
  /\ text_eqb x (str "POINTER(None)") = false /\ startswith x (str "vr::") = false.
Proof.
  unfold settled. remember (calm x) as cx. intros H.
  repeat (apply andb_true_iff in H; destruct H as [H ?]).
  repeat split; try (apply negb_true_iff; assumption). exact H.
Qed.

Lemma existsb_weaken {A} (p q : A -> bool) (l : list A) :
  (forall a, p a = true -> q a = true) -> existsb q l = false -> existsb p l = false.
Proof.
  intros Hpq. induction l as [|a l IH]; simpl; auto. intros H.
  apply orb_false_iff in H. destruct H as [Ha Hl]. rewrite (IH Hl), orb_false_r.
  destruct (p a) eqn:E; auto. rewrite (Hpq a E) in Ha. discriminate.
Qed.

Lemma settled_no_pointer x : settled x = true -> re_match rx_pointer x = None.
Proof.
  intros H. apply settled_parts in H. destruct H as (_ & Hc & _).
  apply (re_match_quiet _ (existsb_inherited _) _ rx_pointer_needs).
  revert Hc. apply existsb_weaken. intros a.
  unfold star_or_amp, one_of. simpl. intros Ha.
  repeat (apply orb_true_iff in Ha; destruct Ha as [Ha|Ha]);
    rewrite ?Ha, ?orb_true_r; auto; discriminate.
Qed.

Lemma settled_no_ptr x : settled x = true -> re_match rx_ptr x = None.
Proof.
  intros H. apply settled_parts in H. destruct H as (_ & _ & Hp & _).
  apply (re_match_quiet _ (has_sub_inherited _) _ rx_ptr_needs). exact Hp.
Qed.

Lemma settled_no_array x : settled x = true -> re_match rx_array x = None.
Proof.
  intros H. apply settled_parts in H. destruct H as (_ & Hc & _).
  apply (re_match_quiet _ (existsb_inherited _) _ rx_array_needs).
  revert Hc. apply existsb_weaken. intros a.
  unfold is_chr, one_of. simpl. intros Ha. rewrite Ha, !orb_true_r. reflexivity.
Qed.

Lemma settled_no_char_p x : settled x = true -> matches rx_char_p x = false.
Proof.
  intros H. apply settled_parts in H. destruct H as (_ & Hc & _).
  unfold matches.
  rewrite (re_match_quiet _ (existsb_inherited _) _ rx_char_p_needs); [reflexivity|].
  revert Hc. apply existsb_weaken. intros a.
  unfold is_chr, one_of. simpl. intros Ha. rewrite Ha. reflexivity.
Qed.

Lemma settled_finish x : settled x = true -> finish x = x.
Proof.
  intros H. pose proof (settled_parts x H) as (_ & _ & _ & Ho & _ & _ & Hv & Hn & Hs).
  unfold finish. rewrite Hv, Hn.
  rewrite (re_sub_quiet _ (has_sub_inherited _) _ rx_bool_needs) by exact Ho.
  rewrite Hs. reflexivity.
Qed.

Lemma settled_normalize x : settled x = true -> normalize x = x.
Proof.
  intros H. pose proof (settled_parts x H) as (Hc & _ & _ & _ & Hp & Hu & _).
  rewrite normalize_calm; auto using settled_no_char_p.
  unfold prepend_c. rewrite Hp. reflexivity.
Qed.

(** A settled spelling is translated to itself, with any fuel. *)
Lemma translate_type_fuel_settled x n b :
  settled x = true -> translate_type_fuel (S n) x b = Some x.
Proof.
  intros H. cbn [translate_type_fuel].
  rewrite (settled_normalize x H).
  assert (L1 : forall rec, rewrite_loop rx_pointer rec n x = Some x).
  { intros rec. destruct n; simpl; rewrite (settled_no_pointer x H); reflexivity. }
  rewrite L1.
  assert (L2 : forall rec, rewrite_loop rx_ptr rec n x = Some x).
  { intros rec. destruct n; simpl; rewrite (settled_no_ptr x H); reflexivity. }
  rewrite L2. rewrite (settled_finish x H).
  unfold array_rule. rewrite (settled_no_array x H). reflexivity.
Qed.

Lemma translate_type_b_settled x b : settled x = true -> translate_type_b x b = x.
Proof.
  intros H. apply (translate_type_fuel_sound 1). apply translate_type_fuel_settled, H.
Qed.

(** ** Pointer wrappers of settled spellings are settled *)

(** A literal without brackets that [POINTER] does not hold is found in a
    pointer wrapper only inside the wrapped text. *)
Lemma has_sub_pointer_to lit y :
  lit <> [] -> existsb (Ascii.eqb "(") lit = false -> existsb (Ascii.eqb ")") lit = false ->
  has_sub lit (str "POINTER") = false ->
  has_sub lit (pointer_to y) = has_sub lit y.
Proof.
  intros Hn Ho Hc Hp. unfold pointer_to.
  change (str "POINTER(" ++ y ++ str ")") with (str "POINTER" ++ "(" :: y ++ ")" :: []).
  rewrite (has_sub_sep lit _ "(" _ Hn Ho), Hp.
  rewrite (has_sub_sep lit y ")" [] Hn Hc), (has_sub_nil lit Hn).
  rewrite orb_false_r. reflexivity.
Qed.

Ltac literal_apart :=
  first [discriminate | reflexivity].

Lemma existsb_snoc {A} (q : A -> bool) y c : existsb q (y ++ [c]) = existsb q y || q c.
Proof. rewrite existsb_app. simpl. rewrite orb_false_r. reflexivity. Qed.

Lemma calm_pointer_to y : calm y = true -> calm (pointer_to y) = true.
Proof.
  intros H. apply calm_parts in H. destruct H as (Hs & (H8 & H16 & H32 & H64) & Hr).
  unfold calm. rewrite !has_sub_pointer_to by literal_apart.
  rewrite H8, H16, H32, H64, Hr.
  unfold pointer_to.
  change (str "POINTER(" ++ y ++ str ")") with ("P" :: "O" :: "I" :: "N" :: "T" :: "E" :: "R" :: "(" :: y ++ [")"]).
  cbn [existsb]. rewrite existsb_snoc, Hs. reflexivity.
Qed.

Lemma wrapped_pointer_to y : wrapped (pointer_to y) = true.
Proof. reflexivity. Qed.

Lemma wrapped_inv x : wrapped x = true ->
  exists b c tl, x = "P" :: b :: c :: tl \/ x = "c" :: "_" :: c :: tl.
Proof.
  destruct x as [|a [|b [|c tl]]]; try discriminate. simpl. intros H.
  exists b, c, tl. apply orb_true_iff in H. destruct H as [H|H].
  - apply Ascii.eqb_eq in H. subst. auto.
  - apply andb_true_iff in H. destruct H as [H1 H2].
    apply Ascii.eqb_eq in H1, H2. subst. auto.
Qed.

Lemma wrapped_not_none y : wrapped y = true -> text_eqb y (str "None") = false.
Proof.
  intros H. apply wrapped_inv in H. destruct H as (b & c & tl & [-> | ->]); reflexivity.
Qed.

Lemma text_eqb_app_r_false (y x : text) c :
  text_eqb y x = false -> text_eqb (y ++ [c]) (x ++ [c]) = false.
Proof.
  revert x. induction y as [|a y IH]; intros [|b x]; simpl; intros H; try discriminate.
  - destruct x; simpl; rewrite ?andb_false_r; reflexivity.
  - destruct y; simpl; rewrite ?andb_false_r; reflexivity.
  - destruct (Ascii.eqb a b); simpl in *; auto.
Qed.

Lemma settled_pointer_to y :
  settled y = true -> text_eqb y (str "None") = false -> settled (pointer_to y) = true.
Proof.
  intros H Hn. pose proof (settled_parts y H) as (Hc & Hx & Hp & Ho & _).
  unfold settled. rewrite (calm_pointer_to y Hc).
  rewrite !has_sub_pointer_to by literal_apart. rewrite Hp, Ho.
  unfold pointer_to.
  change (str "POINTER(" ++ y ++ str ")") with ("P" :: "O" :: "I" :: "N" :: "T" :: "E" :: "R" :: "(" :: y ++ [")"]).
  cbn [existsb]. rewrite existsb_snoc.
  rewrite Hx.
  replace (text_eqb ("P" :: "O" :: "I" :: "N" :: "T" :: "E" :: "R" :: "(" :: y ++ [")"])
                    (str "POINTER(None)")) with false.
  2:{ symmetry. change (str "POINTER(None)") with
        ("P" :: "O" :: "I" :: "N" :: "T" :: "E" :: "R" :: "(" :: str "None" ++ [")"]).
      cbn [text_eqb Ascii.eqb Bool.eqb andb]. apply text_eqb_app_r_false, Hn. }
  destruct y; reflexivity.
Qed.

Lemma nested_pointer_good n x :
  settled x = true -> wrapped x = true ->
  settled (nested_pointer n x) = true /\ wrapped (nested_pointer n x) = true.
Proof.
  intros Hs Hw. induction n as [|n [IH1 IH2]]; simpl; auto.
  split; [|reflexivity].
  apply settled_pointer_to; auto using wrapped_not_none.
Qed.

(** ** The pointer rule on a settled spelling followed by stars *)

Lemma existsb_repeat {A} (q : A -> bool) c n : q c = false -> existsb q (repeat c n) = false.
Proof. intros H. induction n; simpl; rewrite ?H; auto. Qed.

Lemma has_sub_repeat lit u c n :
  lit <> [] -> existsb (Ascii.eqb c) lit = false ->
  has_sub lit (u ++ repeat c n) = has_sub lit u.
Proof.
  intros Hn Hc. revert u. induction n as [|n IH]; intros u; cbn [repeat].
  - rewrite app_nil_r. reflexivity.
  - rewrite (has_sub_sep lit u c _ Hn Hc).
    pose proof (IH []) as E. cbn [app] in E. rewrite E, (has_sub_nil lit Hn).
    apply orb_false_r.
Qed.

Lemma calm_stars P j : calm P = true -> calm (P ++ stars j) = true.
Proof.
  intros H. apply calm_parts in H. destruct H as (Hs & (H8 & H16 & H32 & H64) & Hr).
  unfold calm, stars. rewrite existsb_app, existsb_repeat by reflexivity.
  rewrite !has_sub_repeat by literal_apart.
  rewrite Hs, H8, H16, H32, H64, Hr. reflexivity.
Qed.

Lemma normalize_wrapped_stars P j :
  settled P = true -> wrapped P = true -> normalize (P ++ stars j) = P ++ stars j.
Proof.
  intros Hs Hw. pose proof (settled_parts P Hs) as (Hc & _).
  apply wrapped_inv in Hw. destruct Hw as (b & c & tl & Hw).
  rewrite normalize_calm.
  - unfold prepend_c. destruct Hw as [-> | ->]; reflexivity.
  - apply calm_stars, Hc.
  - destruct Hw as [-> | ->]; reflexivity.
  - destruct Hw as [-> | ->]; reflexivity.
Qed.

Lemma existsb_false_forallb {A} (q p : A -> bool) (l : list A) :
  (forall a, q a = false -> p a = true) -> existsb q l = false -> forallb p l = true.
Proof.
  intros Hqp. induction l as [|a l IH]; simpl; auto. intros H.
  apply orb_false_iff in H. destruct H as [Ha Hl]. rewrite (Hqp a Ha), (IH Hl). reflexivity.
Qed.

Lemma settled_chars P : settled P = true ->
  forallb (not_chr "*") P = true /\ forallb non_space P = true.
Proof.
  intros H. pose proof (settled_parts P H) as (Hc & Hx & _).
  apply calm_parts in Hc. destruct Hc as (Hs & _). split.
  - revert Hx. apply existsb_false_forallb. intros a. unfold one_of, not_chr. simpl.
    intros Ha. apply orb_false_iff in Ha. destruct Ha as [Ha _]. rewrite Ha. reflexivity.
  - revert Hs. apply existsb_false_forallb. intros a Ha. unfold non_space. rewrite Ha.
    reflexivity.
Qed.

Lemma rewrite_loop_settled rx rec n y :
  re_match rx y = None -> rewrite_loop rx rec n y = Some y.
Proof. intros H. destruct n; simpl; rewrite H; reflexivity. Qed.

(** What follows the pointer loop leaves a settled spelling alone. *)
Lemma after_pointer_loop rec1 rec2 n b y : settled y = true ->
  match rewrite_loop rx_ptr rec1 n y with
  | Some result => array_rule rec2 b (finish result)
  | None => None
  end = Some y.
Proof.
  intros H. rewrite (rewrite_loop_settled _ _ _ _ (settled_no_ptr y H)).
  rewrite (settled_finish y H). unfold array_rule.
  rewrite (settled_no_array y H). reflexivity.
Qed.

Lemma split_ends P : wrapped P = true ->
  exists c0 mid cl, P = c0 :: mid ++ [cl].
Proof.
  intros H. apply wrapped_inv in H. destruct H as (b & c & tl & H).
  assert (E : b :: c :: tl <> []) by discriminate.
  assert (E' : "_" :: c :: tl <> []) by discriminate.
  destruct H as [-> | ->].
  - exists "P", (removelast (b :: c :: tl)), (last (b :: c :: tl) "P").
    f_equal. apply app_removelast_last, E.
  - exists "c", (removelast ("_" :: c :: tl)), (last ("_" :: c :: tl) "P").
    f_equal. apply app_removelast_last, E'.
Qed.

Lemma pointer_match_one P : settled P = true -> wrapped P = true ->
  re_match rx_pointer (P ++ ["*"]) = Some [(2, []); (1, P)].
Proof.
  intros Hs Hw. destruct (settled_chars P Hs) as [Hn Hp].
  destruct (split_ends P Hw) as (c0 & mid & cl & ->).
  change ((c0 :: mid ++ [cl]) ++ ["*"]) with (c0 :: (mid ++ [cl]) ++ ["*"]).
  rewrite <- app_assoc. apply rx_pointer_one_star; auto.
  simpl in Hp. apply andb_true_iff in Hp. destruct Hp as [_ Hp].
  rewrite forallb_app in Hp. apply andb_true_iff in Hp. destruct Hp as [_ Hp].
  simpl in Hp. rewrite andb_true_r in Hp. exact Hp.
Qed.

Lemma pointer_match_two P j : settled P = true -> wrapped P = true ->
  re_match rx_pointer (P ++ stars (S (S j))) = Some [(2, stars j); (1, P ++ ["*"])].
Proof.
  intros Hs Hw. destruct (settled_chars P Hs) as [Hn _].
  destruct (split_ends P Hw) as (c0 & mid & cl & E).
  rewrite E in *.
  change ((c0 :: mid ++ [cl]) ++ stars (S (S j))) with (c0 :: (mid ++ [cl]) ++ "*" :: "*" :: stars j).
  change ((c0 :: mid ++ [cl]) ++ ["*"]) with (c0 :: (mid ++ [cl]) ++ ["*"]).
  apply rx_pointer_two_stars; auto.
  unfold stars. clear. induction j; simpl; auto.
Qed.

Lemma rewrite_loop_match rx rec n result m :
  re_match rx result = Some m ->
  rewrite_loop rx rec (S n) result
  = match rec (group m 1) with
    | None => None
    | Some pointee_type =>
        rewrite_loop rx rec n (str "POINTER(" ++ pointee_type ++ str ")" ++ group m 2)
    end.
Proof. intros H. simpl. rewrite H. reflexivity. Qed.

Lemma translate_type_fuel_S n type_name bracket :
  translate_type_fuel (S n) type_name bracket
  = match rewrite_loop rx_pointer (fun t => translate_type_fuel n t false) n
            (normalize type_name) with
    | None => None
    | Some result =>
        match rewrite_loop rx_ptr (fun t => translate_type_fuel n t false) n result with
        | None => None
        | Some result =>
            array_rule (fun t => translate_type_fuel n t true) bracket (finish result)
        end
    end.
Proof. reflexivity. Qed.

(** One star after a settled spelling: one more wrapper. *)
Lemma translate_type_fuel_one_star P n b :
  settled P = true -> wrapped P = true ->
  translate_type_fuel (S (S n)) (P ++ ["*"]) b = Some (pointer_to P).
Proof.
  intros Hs Hw. rewrite translate_type_fuel_S.
  pose proof (normalize_wrapped_stars P 1 Hs Hw) as E. cbn [stars repeat] in E.
  rewrite E. rewrite (rewrite_loop_match _ _ _ _ _ (pointer_match_one P Hs Hw)).
  cbn [group Nat.eqb].
  rewrite (translate_type_fuel_settled P n false Hs).
  rewrite app_nil_r. fold (pointer_to P).
  assert (Hs' : settled (pointer_to P) = true)
    by (apply settled_pointer_to; auto using wrapped_not_none).
  rewrite (rewrite_loop_settled _ _ _ _ (settled_no_pointer _ Hs')).
  apply after_pointer_loop, Hs'.
Qed.

Lemma nested_pointer_succ_r n x :
  nested_pointer n (pointer_to x) = pointer_to (nested_pointer n x).
Proof.
  unfold nested_pointer. induction n as [|n IH]; simpl; [reflexivity|].
  rewrite IH. reflexivity.
Qed.

Lemma pointer_to_app x tl : str "POINTER(" ++ x ++ str ")" ++ tl = pointer_to x ++ tl.
Proof. unfold pointer_to. rewrite <- !app_assoc. reflexivity. Qed.

(** The pointer loop on a settled spelling followed by [j] stars. *)
Lemma pointer_loop_stars fuel :
  forall j m P, j <= m -> settled P = true -> wrapped P = true ->
    rewrite_loop rx_pointer (fun t => translate_type_fuel (S (S fuel)) t false) m
                 (P ++ stars j)
    = Some (nested_pointer j P).
Proof.
  induction j as [j IH] using lt_wf_ind. intros m P Hm Hs Hw.
  assert (Hs' : settled (pointer_to P) = true)
    by (apply settled_pointer_to; auto using wrapped_not_none).
  destruct j as [|[|j]].
  - cbn [stars repeat]. rewrite app_nil_r.
    apply rewrite_loop_settled, settled_no_pointer, Hs.
  - destruct m as [|m]; [lia|]. cbn [stars repeat].
    rewrite (rewrite_loop_match _ _ _ _ _ (pointer_match_one P Hs Hw)).
    cbn [group Nat.eqb].
    rewrite (translate_type_fuel_settled P _ false Hs).
    rewrite app_nil_r. fold (pointer_to P).
    apply rewrite_loop_settled, settled_no_pointer, Hs'.
  - destruct m as [|m]; [lia|].
    rewrite (rewrite_loop_match _ _ _ _ _ (pointer_match_two P j Hs Hw)).
    cbn [group Nat.eqb].
    rewrite (translate_type_fuel_one_star P fuel false Hs Hw).
    rewrite pointer_to_app.
    rewrite (IH j ltac:(lia) m (pointer_to (pointer_to P)) ltac:(lia)).
    + rewrite !nested_pointer_succ_r. reflexivity.
    + apply settled_pointer_to; auto using wrapped_not_none, wrapped_pointer_to.
    + reflexivity.
Qed.

Ltac each_root H :=
  cbv [primitive_roots In] in H;
  repeat (destruct H as [H | H]; [subst|]); [..|contradiction].

Lemma normalize_root_stars t N :
  In t primitive_roots -> t <> "char"%string \/ N <> 1 ->
  normalize (str t ++ stars N) = str "c_" ++ str t ++ stars N.
Proof.
  intros Ht Hx. rewrite normalize_calm.
  - unfold prepend_c. each_root Ht; reflexivity.
  - apply calm_stars. each_root Ht; reflexivity.
  - each_root Ht; reflexivity.
  - each_root Ht; try reflexivity.
    destruct N as [|[|[|N]]]; try reflexivity.
    destruct Hx; congruence.
Qed.

Lemma root_translated t :
  In t primitive_roots ->
  translate_type (str t) = str "c_" ++ str t
  /\ settled (str "c_" ++ str t) = true /\ wrapped (str "c_" ++ str t) = true.
Proof. intros Ht. each_root Ht; vm_compute; auto. Qed.

(** C2, amended: for each of the ten primitive names and every number [N]
    of trailing stars, the case of [char] with a single star apart,
    [translate_type] returns [N] nested [POINTER] wrappers around the
    translation of the name. *)
Lemma pointer_fixpoint_amended t N :
  In t primitive_roots -> t <> "char"%string \/ N <> 1 ->
  translate_type (str t ++ stars N) = nested_pointer N (translate_type (str t)).
Proof.
  intros Ht Hx. destruct (root_translated t Ht) as (-> & Hs & Hw).
  apply (translate_type_fuel_sound (S (S (S N)))).
  rewrite translate_type_fuel_S, (normalize_root_stars t N Ht Hx).
  rewrite app_assoc.
  rewrite (pointer_loop_stars N N (S (S N)) _ ltac:(lia) Hs Hw).
  apply after_pointer_loop. apply nested_pointer_good; assumption.
Qed.

Local Close Scope char_scope.

(** ** Classification of parameters *)

Lemma TypeKind_eqb_eq a b : TypeKind_eqb a b = true <-> a = b.
Proof. destruct a, b; simpl; split; intros H; try reflexivity; discriminate. Qed.

Lemma TypeKind_eqb_neq a b : TypeKind_eqb a b = false <-> a <> b.
Proof.
  split; intros H.
  - intros E. apply TypeKind_eqb_eq in E. congruence.
  - destruct (TypeKind_eqb a b) eqn:E; auto. apply TypeKind_eqb_eq in E. contradiction.
Qed.

(** C8: a count parameter is neither an output nor an input, and a
    parameter is an output exactly when it is not a count, its type is a
    pointer, and its pointee is neither constant nor [void]. *)
Theorem classification_consistent (p : Param.t) :
  (Param.is_count p = true -> Param.is_output p = false /\ Param.is_input p = false)
  /\ (Param.is_output p = true <->
      Param.is_count p = false
      /\ kind (Param.type_ p) = POINTER
      /\ is_const_qualified (get_pointee (Param.type_ p)) = false
      /\ kind (get_pointee (Param.type_ p)) <> VOID).
Proof.
  unfold Param.is_output, Param.is_input. split.
  - intros ->. auto.
  - destruct (Param.is_count p); [split; [discriminate|intros (H & _); discriminate]|].
    destruct (TypeKind_eqb (kind (Param.type_ p)) POINTER) eqn:Ek; simpl.
    + apply TypeKind_eqb_eq in Ek.
      destruct (is_const_qualified (get_pointee (Param.type_ p)));
        [split; [discriminate|intros (_ & _ & H & _); discriminate]|].
      destruct (TypeKind_eqb (kind (get_pointee (Param.type_ p))) VOID) eqn:Ev.
      * apply TypeKind_eqb_eq in Ev. split; [discriminate|].
        intros (_ & _ & _ & H). contradiction.
      * apply TypeKind_eqb_neq in Ev. split; auto.
    + apply TypeKind_eqb_neq in Ek. split; [discriminate|].
      intros (_ & H & _). contradiction.
Qed.

(** C10: a parameter made with the name [type] is stored as [type_], any
    other name is stored as given, and the signature, call and return
    fragments are built from the stored name.  The parameter is new, so it
    is no count: it is an output when its type is a pointer to something
    that is neither constant nor [void]; it is in the signature, with its
    default value if it has one, when it is an array, or is named
    [pEvent], or is no output and is not one of the two size parameters;
    it is passed as [nameArg] when it is an array, by its name when it is
    an output string or no pointer, inside [byref] otherwise; and it is
    returned as the bytes of its value when it is an output string, by its
    name, with [.value] for a ctypes scalar, when it is another output,
    and not at all when it is an error output or no output. *)
Theorem parameter_name_stored (name : text) (type_ : CType)
        (default_value docstring annotation : option text) :
  let p := Param.init name type_ default_value docstring annotation in
  let n := Param.name p in
  let array := matched (Param.is_array p) in
  let pointer := TypeKind_eqb (kind type_) POINTER in
  (name = str "type" -> n = str "type_")
  /\ (name <> str "type" -> n = name)
  /\ Param.is_output p
     = pointer && negb (is_const_qualified (get_pointee type_))
       && negb (TypeKind_eqb (kind (get_pointee type_)) VOID)
  /\ Param.is_input p
     = array || text_eqb n (str "pEvent")
       || (negb (text_eqb n (str "uncbVREvent"))
           && negb (text_eqb n (str "unControllerStateSize"))
           && negb (Param.is_output p))
  /\ Param.input_param_name p
     = (if Param.is_input p
        then Some (if truthy default_value
                   then n ++ str "=" ++ text_of default_value
                   else n)
        else None)
  /\ Param.call_param_name p
     = (if array then n ++ str "Arg"
        else if Param.is_out_string p then n
        else if pointer then str "byref(" ++ n ++ str ")"
        else n)
  /\ Param.return_param_name p
     = (if Param.is_error p then None
        else if Param.is_out_string p then Some (str "bytes(" ++ n ++ str ".value)")
        else if Param.is_output p
        then Some (if startswith (translate_type (spelling (get_pointee type_))) (str "c_")
                   then n ++ str ".value"
                   else n)
        else None).
Proof.
  intros p n array pointer. split; [|split; [|split; [|split; [|split; [|split]]]]].
  - intros ->. reflexivity.
  - intros H. unfold n, p, Param.init. cbn [Param.name].
    destruct (text_eqb name (str "type")) eqn:E;
      [apply text_eqb_eq in E; contradiction | reflexivity].
  - unfold Param.is_output, pointer, p, Param.init.
    cbn [Param.is_count Param.type_].
    destruct (TypeKind_eqb (kind type_) POINTER); [|reflexivity]. cbn [negb andb].
    destruct (is_const_qualified (get_pointee type_)); [reflexivity|].
    destruct (TypeKind_eqb (kind (get_pointee type_)) VOID); reflexivity.
  - unfold Param.is_input. fold n. fold array.
    replace (Param.is_count p) with false by reflexivity.
    destruct array; [reflexivity|].
    destruct (text_eqb n (str "pEvent")); [reflexivity|].
    destruct (text_eqb n (str "uncbVREvent")); [reflexivity|].
    destruct (text_eqb n (str "unControllerStateSize")); [reflexivity|].
    destruct (Param.is_output p); reflexivity.
  - unfold Param.input_param_name. fold n.
    replace (Param.default_value p) with default_value by reflexivity.
    destruct (Param.is_input p); [|reflexivity]. cbn [negb].
    destruct (truthy default_value); reflexivity.
  - unfold Param.call_param_name. fold n. fold array.
    replace (Param.is_count p) with false by reflexivity.
    replace (Param.type_ p) with type_ by reflexivity. fold pointer.
    destruct array; [reflexivity|].
    destruct (Param.is_out_string p); [reflexivity|].
    unfold Param.is_output.
    replace (Param.is_count p) with false by reflexivity.
    replace (Param.type_ p) with type_ by reflexivity. fold pointer.
    destruct pointer; [|reflexivity]. cbn [negb].
    destruct (is_const_qualified (get_pointee type_)); [reflexivity|].
    destruct (TypeKind_eqb (kind (get_pointee type_)) VOID); reflexivity.
  - unfold Param.return_param_name. fold n.
    replace (Param.type_ p) with type_ by reflexivity.
    destruct (Param.is_error p); [reflexivity|].
    destruct (Param.is_out_string p); [reflexivity|].
    destruct (Param.is_output p); reflexivity.
Qed.

(** C10 at two parameters made with the name [type]: an integer with the
    default value 0, and a pointer to an integer. *)
Lemma parameter_name_stored_witness :
  (let p := Param.init (str "type") (mkType INT (str "int") false InvalidType)
                       (Some (str "0")) None None in
   Param.name p = str "type_"
   /\ Param.input_param_name p = Some (str "type_=0")
   /\ Param.call_param_name p = str "type_"
   /\ Param.return_param_name p = None)
  /\ (let p := Param.init (str "type")
                 (mkType POINTER (str "int *") false
                         (mkType INT (str "int") false InvalidType))
                 None None None in
      Param.name p = str "type_"
      /\ Param.input_param_name p = None
      /\ Param.call_param_name p = str "byref(type_)"
      /\ Param.return_param_name p = Some (str "type_.value")).
Proof.
  split; cbv zeta.
  - destruct (parameter_name_stored (str "type") (mkType INT (str "int") false InvalidType)
                (Some (str "0")) None None) as (H1 & _ & _ & _ & Hs & Hc & Hr).
    split; [exact (H1 eq_refl)|].
    split; [rewrite Hs; vm_compute; reflexivity|].
    split; [rewrite Hc; vm_compute; reflexivity|].
    rewrite Hr. vm_compute. reflexivity.
  - destruct (parameter_name_stored (str "type")
                (mkType POINTER (str "int *") false
                        (mkType INT (str "int") false InvalidType))
                None None None) as (H1 & _ & _ & _ & Hs & Hc & Hr).
    split; [exact (H1 eq_refl)|].
    split; [rewrite Hs; vm_compute; reflexivity|].
    split; [rewrite Hc; vm_compute; reflexivity|].
    rewrite Hr. vm_compute. reflexivity.
Defined.

(** C5, amended: [has_return] is false exactly when the return type is
    [void] or some parameter is an output string. *)
Theorem has_return_amended (m : Method.t) :
  Method.has_return m = false <->
  Method.type_ m = Some (str "void")
  \/ existsb Param.is_out_string (Method.parameters m) = true.
Proof.
  unfold Method.has_return. destruct (Method.type_ m) as [ty|].
  - destruct (text_eqb ty (str "void")) eqn:E.
    + apply text_eqb_eq in E. subst. split; auto.
    + assert (N : Some ty <> Some (str "void")).
      { intros H. inversion H. subst. rewrite (proj2 (text_eqb_eq _ _) eq_refl) in E.
        discriminate. }
      rewrite negb_false_iff. split; auto. intros [H|H]; [contradiction|auto].
  - rewrite negb_false_iff. split; auto. intros [H|H]; [discriminate|auto].
Qed.

(** ** The probing loop of [Method.ctypes_string] *)

Lemma mark_count_out_string p : Param.is_out_string (Param.mark_count p) = Param.is_out_string p.
Proof. reflexivity. Qed.

Lemma mark_count_twice p : Param.mark_count (Param.mark_count p) = Param.mark_count p.
Proof. reflexivity. Qed.

Lemma mark_count_at_app done k l :
  Method.mark_count_at (List.length done + k) (done ++ l) = done ++ Method.mark_count_at k l.
Proof. induction done as [|d done IH]; simpl; [|rewrite IH]; reflexivity. Qed.

Lemma nth_error_mid {A} (done : list A) k l :
  nth_error (done ++ l) (List.length done + k) = nth_error l k.
Proof. induction done as [|d done IH]; simpl; auto. Qed.

Lemma nth_error_here {A} (done : list A) p l :
  nth_error (done ++ p :: l) (List.length done) = Some p.
Proof. induction done as [|d done IH]; simpl; auto. Qed.

Lemma probe_loop_suffix :
  forall todo done pre,
    Method.probe_loop (seq (List.length done) (List.length todo)) (done ++ todo) pre
    = (done ++ match todo with
               | [] => []
               | p :: rest => p :: mark_successors (Param.is_out_string p) rest
               end,
       match probe_texts done false todo with
       | Some t => Some (pre ++ t)
       | None => None
       end).
Proof.
  intros todo. remember (List.length todo) as n eqn:En.
  revert todo En. induction n as [|n IH]; intros todo En done pre.
  - destruct todo; [|discriminate]. simpl. rewrite !app_nil_r. reflexivity.
  - destruct todo as [|p rest]; [discriminate|]. simpl in En. injection En as En.
    cbn [seq Method.probe_loop].
    rewrite nth_error_here. cbn [probe_texts].
    assert (Hlen : List.length (done ++ [p]) = S (List.length done))
      by (rewrite length_app; simpl; lia).
    destruct (Param.is_out_string p) eqn:Ho.
    + rewrite nth_error_mid. cbn [nth_error].
      destruct rest as [|q r].
      * simpl in En. subst n. simpl. reflexivity.
      * rewrite mark_count_at_app. cbn [Method.mark_count_at].
        assert (Hq : nth (List.length done + 1) (done ++ p :: Param.mark_count q :: r) p
                     = Param.mark_count q).
        { rewrite app_nth2 by lia.
          replace (List.length done + 1 - List.length done) with 1 by lia. reflexivity. }
        rewrite Hq.
        pose proof (IH (Param.mark_count q :: r) En (done ++ [p])) as IHq.
        rewrite Hlen, <- app_assoc in IHq. cbn [app] in IHq.
        rewrite IHq. rewrite <- !app_assoc. cbn [app mark_successors].
        rewrite mark_count_out_string. f_equal.
        change (probe_texts (done ++ [p]) false (Param.mark_count q :: r))
          with (probe_texts (done ++ [p]) true (q :: r)).
        destruct (probe_texts (done ++ [p]) true (q :: r));
          rewrite <- ?app_assoc; reflexivity.
    + pose proof (IH rest En (done ++ [p])) as IHr.
      rewrite Hlen, <- app_assoc in IHr. cbn [app] in IHr.
      rewrite IHr. rewrite <- !app_assoc. cbn [app]. f_equal.
      destruct rest; reflexivity.
Qed.

Lemma probe_loop_all ps pre :
  Method.probe_loop (seq 0 (List.length ps)) ps pre
  = (mark_successors false ps,
     match probe_texts [] false ps with
     | Some t => Some (pre ++ t)
     | None => None
     end).
Proof.
  pose proof (probe_loop_suffix ps [] pre) as H. cbn [app List.length] in H.
  rewrite H. f_equal. destruct ps; reflexivity.
Qed.

(** ** What rendering a method changes *)

Lemma mark_successors_twice b ps :
  mark_successors b (mark_successors b ps) = mark_successors b ps.
Proof.
  revert b. induction ps as [|p ps IH]; intros b; simpl; auto.
  destruct b; simpl; rewrite IH; reflexivity.
Qed.


Lemma mark_successors_out_string b ps :
  existsb Param.is_out_string (mark_successors b ps) = existsb Param.is_out_string ps.
Proof.
  revert b. induction ps as [|p ps IH]; intros b; simpl; auto.
  rewrite IH. destruct b; reflexivity.
Qed.

Lemma mark_successors_call_names b ps : successors_stable b ps ->
  map Param.call_param_name (mark_successors b ps) = map Param.call_param_name ps.
Proof.
  revert b. induction ps as [|p ps IH]; intros b H; simpl; auto.
  destruct H as [Hp Hs].
  rewrite (IH _ Hs). f_equal. destruct b; [apply Hp; reflexivity|reflexivity].
Qed.

Lemma call_params0_ext pix : forall l l' j,
  map Param.call_param_name l = map Param.call_param_name l' ->
  Method.call_params0 pix j l = Method.call_params0 pix j l'.
Proof.
  induction l as [|p l IH]; intros [|p' l'] j H; simpl in *; try discriminate; auto.
  injection H as Hp Hl. rewrite Hp, (IH l' (S j) Hl). reflexivity.
Qed.

Lemma probe_texts_marked :
  forall todo done done' b,
    map Param.call_param_name done = map Param.call_param_name done' ->
    successors_stable b todo ->
    probe_texts done' b (mark_successors b todo) = probe_texts done b todo.
Proof.
  induction todo as [|p0 rest IH]; intros done done' b Hd H; [reflexivity|].
  destruct H as [Hp Hs].
  cbn [mark_successors probe_texts].
  assert (Ep : (if b then Param.mark_count (if b then Param.mark_count p0 else p0)
                else (if b then Param.mark_count p0 else p0))
               = (if b then Param.mark_count p0 else p0)) by (destruct b; reflexivity).
  rewrite Ep.
  assert (Eo : Param.is_out_string (if b then Param.mark_count p0 else p0)
               = Param.is_out_string p0) by (destruct b; reflexivity).
  rewrite Eo.
  assert (Hd' : map Param.call_param_name (done ++ [if b then Param.mark_count p0 else p0])
                = map Param.call_param_name (done' ++ [if b then Param.mark_count p0 else p0])).
  { rewrite !map_app, Hd. reflexivity. }
  assert (Hlen : List.length done = List.length done').
  { rewrite <- (length_map Param.call_param_name done), Hd. apply length_map. }
  destruct (Param.is_out_string p0) eqn:Ho.
  - destruct rest as [|q r]; [reflexivity|].
    pose proof (IH _ _ true Hd' Hs) as IHr. cbn [mark_successors] in *.
    rewrite IHr. rewrite mark_count_twice, Hlen.
    destruct Hs as [Hq Hr].
    erewrite call_params0_ext; [reflexivity|].
    rewrite !map_app, Hd. cbn [map]. rewrite (mark_successors_call_names _ _ Hr).
    reflexivity.
  - apply IH; assumption.
Qed.

Lemma not_pointer_stable q : kind (Param.type_ q) <> POINTER -> stable q.
Proof.
  intros H. apply TypeKind_eqb_neq in H.
  unfold stable, Param.call_param_name, Param.is_output.
  change (Param.is_array (Param.mark_count q)) with (Param.is_array q).
  change (Param.type_ (Param.mark_count q)) with (Param.type_ q).
  change (Param.is_count (Param.mark_count q)) with true.
  rewrite H. simpl.
  destruct (matched (Param.is_array q)); auto.
  destruct (Param.is_count q); auto.
  destruct (Param.is_out_string q); auto.
Qed.

Lemma successors_stable_intro ps :
  (forall i p q, nth_error ps i = Some p -> Param.is_out_string p = true ->
                 nth_error ps (S i) = Some q -> kind (Param.type_ q) <> POINTER) ->
  forall b, (b = true -> match ps with q :: _ => kind (Param.type_ q) <> POINTER | [] => True end) ->
  successors_stable b ps.
Proof.
  induction ps as [|p ps IH]; intros H b Hb; simpl; auto. split.
  - intros E. apply not_pointer_stable. apply Hb, E.
  - apply IH.
    + intros i p' q Hp Ho Hq. apply (H (S i) p' q); auto.
    + intros E. destruct ps as [|q ps']; auto. apply (H 0 p q); auto.
Qed.

Lemma ctypes_string_eq (m : Method.t) :
  Method.ctypes_string m
  = (Method.with_parameters m (mark_successors false (Method.parameters m)),
     match probe_texts [] false (Method.parameters m) with
     | None => Raised IndexError
     | Some t =>
         Method.assemble
           (Method.with_parameters m (mark_successors false (Method.parameters m)))
           (if Method.has_return m then [str "result"] else []) t
     end).
Proof.
  unfold Method.ctypes_string. rewrite probe_loop_all.
  destruct (probe_texts [] false (Method.parameters m)); reflexivity.
Qed.

Lemma with_parameters_twice m a b :
  Method.with_parameters (Method.with_parameters m a) b = Method.with_parameters m b.
Proof. reflexivity. Qed.

Lemma parameters_with m a : Method.parameters (Method.with_parameters m a) = a.
Proof. reflexivity. Qed.

Lemma has_return_marked m b :
  Method.has_return (Method.with_parameters m (mark_successors b (Method.parameters m)))
  = Method.has_return m.
Proof.
  unfold Method.has_return. cbn [Method.with_parameters Method.type_ Method.parameters].
  rewrite mark_successors_out_string. reflexivity.
Qed.

(** C9, amended: rendering a method changes nothing but the [is_count]
    flag of the successor of each output string, which it sets.  A second
    rendering changes nothing more, and it returns the text of the first
    whenever no such successor is a pointer. *)
Theorem render_frame (m : Method.t) :
  let m' := fst (Method.ctypes_string m) in
  Method.name m' = Method.name m
  /\ Method.docstring m' = Method.docstring m
  /\ Method.type_ m' = Method.type_ m
  /\ Method.count_parameter_names m' = Method.count_parameter_names m
  /\ Method.parameters m' = mark_successors false (Method.parameters m)
  /\ fst (Method.ctypes_string m') = m'
  /\ ((forall i p q,
          nth_error (Method.parameters m) i = Some p ->
          Param.is_out_string p = true ->
          nth_error (Method.parameters m) (S i) = Some q ->
          kind (Param.type_ q) <> POINTER) ->
      snd (Method.ctypes_string m') = snd (Method.ctypes_string m)).
Proof.
  intros m'. unfold m'. rewrite (ctypes_string_eq m). cbn [fst snd].
  repeat split.
  - rewrite ctypes_string_eq. cbn [fst].
    rewrite parameters_with, with_parameters_twice, mark_successors_twice. reflexivity.
  - intros H. rewrite ctypes_string_eq. cbn [snd].
    rewrite parameters_with, with_parameters_twice, mark_successors_twice.
    rewrite (probe_texts_marked (Method.parameters m) [] [] false eq_refl).
    2:{ apply successors_stable_intro; [exact H|discriminate]. }
    rewrite has_return_marked. reflexivity.
Qed.

(** C9, counterexample: rendering sets the flag of the length parameter;
    and with two output strings, the second one followed by a pointer, the
    second rendering returns another text than the first. *)
Lemma render_marks_the_length_parameter :
  map Param.is_count (Method.parameters sample_string_method) = [false; false]
  /\ map Param.is_count (Method.parameters (fst (Method.ctypes_string sample_string_method)))
     = [false; true]
  /\ snd (Method.ctypes_string (fst (Method.ctypes_string sample_two_strings)))
     <> snd (Method.ctypes_string sample_two_strings).
Proof.
  split; [reflexivity|]. split; [vm_compute; reflexivity|].
  vm_compute. intros H. discriminate H.
Qed.

(** ** Lines *)

Lemma split_on_line a b :
  no_newline a = true -> split_on newline (a ++ newline :: b) = a :: split_on newline b.
Proof.
  induction a as [|c a IH]; simpl; intros H.
  - reflexivity.
  - apply andb_true_iff in H. destruct H as [Hc Ha].
    unfold any_but_newline, not_chr in Hc. apply negb_true_iff in Hc. rewrite Hc.
    rewrite (IH Ha). reflexivity.
Qed.

Lemma split_on_last a : no_newline a = true -> split_on newline a = [a].
Proof.
  induction a as [|c a IH]; simpl; intros H.
  - reflexivity.
  - apply andb_true_iff in H. destruct H as [Hc Ha].
    unfold any_but_newline, not_chr in Hc. apply negb_true_iff in Hc. rewrite Hc.
    rewrite (IH Ha). reflexivity.
Qed.

Lemma no_newline_app a b : no_newline (a ++ b) = no_newline a && no_newline b.
Proof. apply forallb_app. Qed.

Lemma leading_blanks_app a b :
  forallb is_blank a = true -> leading_blanks (a ++ b) = a ++ leading_blanks b.
Proof.
  induction a as [|c a IH]; simpl; intros H; auto.
  apply andb_true_iff in H. destruct H as [Hc Ha]. rewrite Hc, (IH Ha). reflexivity.
Qed.



Lemma dedent_margin_keep a x : dedent_margin (Some a) (a ++ x) = Some a.
Proof. unfold dedent_margin. rewrite startswith_app. reflexivity. Qed.

Lemma skipn_spaces n y : skipn n (spaces n ++ y) = y.
Proof. induction n; simpl; auto. Qed.

Lemma forallb_blank_spaces n : forallb is_blank (spaces n) = true.
Proof. induction n; simpl; auto. Qed.

Lemma leading_blanks_blanks (x : text) : forallb is_blank (leading_blanks x) = true.
Proof.
  induction x as [|c x IH]; simpl; auto.
  destruct (is_blank c) eqn:E; simpl; rewrite ?E; auto.
Qed.


(** ** The text of the probing loop *)





Lemma probe_texts_cons done b p0 rest :
  probe_texts done b (p0 :: rest)
  = if Param.is_out_string p0 then
      match rest with
      | [] => None
      | q :: r =>
          match probe_texts (done ++ [if b then Param.mark_count p0 else p0]) true rest with
          | Some t =>
              Some (Method.probe_block (if b then Param.mark_count p0 else p0)
                      (Param.mark_count q)
                      (join (str ", ")
                         (Method.call_params0 (List.length done) 0
                            (done ++ (if b then Param.mark_count p0 else p0)
                                  :: Param.mark_count q :: r)))
                    ++ t)
          | None => None
          end
      end
    else probe_texts (done ++ [if b then Param.mark_count p0 else p0]) false rest.
Proof. destruct rest; reflexivity. Qed.




(** ** The rendered method *)





Lemma mark_successors_names b ps :
  map Param.name (mark_successors b ps) = map Param.name ps.
Proof.
  revert b. induction ps as [|p ps IH]; intros b; simpl; auto.
  rewrite IH. destruct b; reflexivity.
Qed.







(** ** The rendered function *)

Lemma collect_all ps acc :
  fold_left Func.collect ps acc
  = Func.mkCollected
      (Func.params acc
       ++ map Func.signature_name (filter (fun p => negb (Param.is_error p)) ps))
      (Func.call_params acc ++ map Func.call_argument ps)
      (Func.param_types acc
       ++ map (fun p => translate_type (spelling (Param.type_ p))) ps)
      (last_error ps (Func.error_param acc)).
Proof.
  revert acc. induction ps as [|p ps IH]; intros acc.
  - destruct acc. cbn. rewrite !app_nil_r. reflexivity.
  - cbn [fold_left]. rewrite IH. unfold last_error. cbn [fold_left filter map].
    unfold Func.collect at 1 2 3 4.
    destruct (Param.is_error p); cbn [negb Func.params Func.call_params Func.param_types
                                       Func.error_param map];
      rewrite <- ?app_assoc; reflexivity.
Qed.

Lemma last_error_none ps init :
  existsb Param.is_error ps = false -> last_error ps init = init.
Proof.
  revert init. induction ps as [|p ps IH]; intros init H; [reflexivity|].
  cbn [existsb] in H. apply orb_false_iff in H. destruct H as [Hp Hps].
  unfold last_error. cbn [fold_left]. rewrite Hp. apply IH. exact Hps.
Qed.

Lemma last_error_single A e B init :
  Param.is_error e = true -> existsb Param.is_error B = false ->
  last_error (A ++ e :: B) init = Some e.
Proof.
  intros He HB. unfold last_error. rewrite fold_left_app. cbn [fold_left]. rewrite He.
  apply last_error_none. exact HB.
Qed.




(** ** The translator as a whole *)

(** A loop that ends has left its [while] condition false. *)
Lemma rewrite_loop_exit rx rec n result r :
  rewrite_loop rx rec n result = Some r -> re_match rx r = None.
Proof.
  revert result. induction n as [|n IH]; intros result; simpl.
  - destruct (re_match rx result) eqn:E; [discriminate|]. intros [= <-]. exact E.
  - destruct (re_match rx result) eqn:E.
    + destruct (rec (group c 1)); [|discriminate]. apply IH.
    + intros [= <-]. exact E.
Qed.

Lemma translate_type_fuel_extends n n' b :
  n <= n' ->
  extends (fun t => translate_type_fuel n t b) (fun t => translate_type_fuel n' t b).
Proof. intros H t r. apply translate_type_fuel_mono. exact H. Qed.

(** C1: [translate_type] returns on every spelling.  Whatever the spelling
    and the bracket flag, the pointer loop stops on a text that its pattern
    no longer matches, so does the ptr loop, and the array rule answers.
    The three results are the same for every bound on the iterations and on
    the depth of the recursion that is at least the weight of the spelling,
    and the last of them is the value of [translate_type_b]. *)
Theorem translate_type_terminates (type_name : text) (bracket : bool) :
  exists after_pointers after_ptrs result,
    translate_type_b type_name bracket = result
    /\ re_match rx_pointer after_pointers = None
    /\ re_match rx_ptr after_ptrs = None
    /\ forall fuel, weight type_name <= fuel ->
         let rec := fun t => translate_type_fuel fuel t false in
         rewrite_loop rx_pointer rec fuel (normalize type_name) = Some after_pointers
         /\ rewrite_loop rx_ptr rec fuel after_pointers = Some after_ptrs
         /\ array_rule (fun t => translate_type_fuel fuel t true) bracket
              (finish after_ptrs) = Some result
         /\ translate_type_fuel (S fuel) type_name bracket = Some result.
Proof.
  destruct (translate_type_b_spec type_name bracket) as [E _].
  rewrite translate_type_fuel_S in E.
  destruct (rewrite_loop rx_pointer _ _ (normalize type_name)) as [r1|] eqn:E1;
    [|discriminate].
  destruct (rewrite_loop rx_ptr _ _ r1) as [r2|] eqn:E2; [|discriminate].
  exists r1, r2, (translate_type_b type_name bracket).
  split; [reflexivity|].
  split; [exact (rewrite_loop_exit _ _ _ _ _ E1)|].
  split; [exact (rewrite_loop_exit _ _ _ _ _ E2)|].
  intros fuel Hf rec.
  assert (L1 : rewrite_loop rx_pointer rec fuel (normalize type_name) = Some r1).
  { apply (rewrite_loop_mono _ _ _ (translate_type_fuel_extends _ _ false Hf) _ _ _ _ Hf E1). }
  assert (L2 : rewrite_loop rx_ptr rec fuel r1 = Some r2).
  { apply (rewrite_loop_mono _ _ _ (translate_type_fuel_extends _ _ false Hf) _ _ _ _ Hf E2). }
  assert (L3 : array_rule (fun t => translate_type_fuel fuel t true) bracket (finish r2)
               = Some (translate_type_b type_name bracket)).
  { apply (array_rule_mono _ _ _ _ _ (translate_type_fuel_extends _ _ true Hf) E). }
  repeat split; try assumption.
  rewrite translate_type_fuel_S. fold rec. rewrite L1, L2. exact L3.
Qed.

(** C2 at [int] with three stars. *)
Lemma pointer_fixpoint_amended_witness :
  translate_type (str "int" ++ stars 3)
  = nested_pointer 3 (translate_type (str "int")).
Proof.
  apply (pointer_fixpoint_amended "int" 3).
  - simpl. auto.
  - right. discriminate.
Defined.

(** C2, the case left out: [char] followed by one star is rewritten to
    [c_char_p] by line 482, before the pointer loop is reached. *)
Lemma char_pointer_is_not_wrapped :
  In "char"%string primitive_roots
  /\ translate_type (str "char" ++ stars 1) = str "c_char_p"
  /\ nested_pointer 1 (translate_type (str "char")) = str "POINTER(c_char)"
  /\ translate_type (str "char" ++ stars 1)
     <> nested_pointer 1 (translate_type (str "char")).
Proof.
  split; [simpl; auto 10|].
  split; [vm_compute; reflexivity|].
  split; [vm_compute; reflexivity|].
  vm_compute. discriminate.
Qed.

(** C3: an array of three floats is [c_float * 3]; with two dimensions the
    inner array comes in parentheses, times the outer dimension, since the
    array rule peels the first dimension and calls the translator, with the
    bracket flag set, on what is left of the spelling. *)
Theorem array_composition :
  translate_type (str "float[3]") = str "c_float * 3"
  /\ translate_type (str "float[3][4]") = str "(c_float * 4) * 3"
  /\ translate_type_b (str "float[4]") true = str "(c_float * 4)"
  /\ (forall fuel,
        array_rule (fun t => translate_type_fuel fuel t true) false (str "c_float[3][4]")
        = match translate_type_fuel fuel (str "c_float[4]") true with
          | Some t => Some (t ++ str " * 3")
          | None => None
          end).
Proof.
  split; [vm_compute; reflexivity|].
  split; [vm_compute; reflexivity|].
  split; [vm_compute; reflexivity|].
  intros fuel. unfold array_rule.
  destruct (re_match rx_array (str "c_float[3][4]")) as [m|] eqn:E;
    [|vm_compute in E; discriminate].
  vm_compute in E. injection E as <-. reflexivity.
Qed.

(** C4, amended: a settled text is returned unchanged, so that translating
    it twice is translating it once.  A text is settled when it holds no
    white space, star, ampersand or opening square bracket, none of the
    literals [8_t], [16_t], [32_t], [64_t], [VR_], [ptr] and [bool] that the
    rewrites look for, and is none of the spellings that the translator
    rewrites as a whole or by their first letters. *)
Theorem settled_is_fixed (x : text) :
  settled x = true ->
  translate_type x = x /\ translate_type (translate_type x) = translate_type x.
Proof.
  intros H. pose proof (translate_type_b_settled x false H) as E.
  unfold translate_type. rewrite !E. auto.
Qed.

(** C4 at a pointer to [c_int]. *)
Lemma settled_is_fixed_witness :
  translate_type (str "POINTER(c_int)") = str "POINTER(c_int)"
  /\ translate_type (translate_type (str "POINTER(c_int)"))
     = translate_type (str "POINTER(c_int)").
Proof.
  apply (settled_is_fixed (str "POINTER(c_int)")). vm_compute. reflexivity.
Defined.

(** C4, counterexample: [vr::void] is a value of [translate_type]; it is
    translated to [void], and [void] to [None].  The array expression
    [c_float * 3] is a value as well, and is read as a pointer when it is
    translated again. *)
Lemma translated_again_differs :
  (let x := translate_type (str "vr::vr::void") in
   x = str "vr::void"
   /\ translate_type x = str "void"
   /\ translate_type (translate_type x) = str "None"
   /\ translate_type (translate_type x) <> translate_type x)
  /\ (let y := translate_type (str "float[3]") in
      y = str "c_float * 3"
      /\ translate_type y = str "POINTER(c_float) 3"
      /\ translate_type y <> y).
Proof.
  split; cbv zeta.
  - split; [vm_compute; reflexivity|].
    split; [vm_compute; reflexivity|].
    split; [vm_compute; reflexivity|].
    vm_compute. discriminate.
  - split; [vm_compute; reflexivity|].
    split; [vm_compute; reflexivity|].
    vm_compute. discriminate.
Qed.

(** C5, counterexample: a method that returns [uint32_t] and has an output
    string has no return value of its own. *)
Lemma no_return_without_void :
  Method.type_ sample_string_method = Some (str "uint32_t")
  /\ Method.type_ sample_string_method <> Some (str "void")
  /\ existsb Param.is_out_string (Method.parameters sample_string_method) = true
  /\ Method.has_return sample_string_method = false.
Proof.
  split; [reflexivity|]. split; [discriminate|].
  split; vm_compute; reflexivity.
Qed.


(** ** Building a method *)

Lemma existsb_text_eqb_In x names :
  existsb (text_eqb x) names = true <-> In x names.
Proof.
  rewrite existsb_exists. split.
  - intros (y & Hy & E). apply text_eqb_eq in E. subst. exact Hy.
  - intros H. exists x. split; [exact H|]. apply text_eqb_eq. reflexivity.
Qed.

Lemma add_parameter_parameters m p :
  exists p',
    Method.parameters (Method.add_parameter m p) = Method.parameters m ++ [p']
    /\ (p' = p \/ p' = Param.mark_count p)
    /\ (Param.is_count p' = true <->
        Param.is_count p = true
        \/ In (Param.name p) (Method.count_parameter_names m)
        \/ announced_count p = Some (Param.name p))
    /\ (forall x, In x (Method.count_parameter_names (Method.add_parameter m p)) <->
                  In x (Method.count_parameter_names m) \/ announced_count p = Some x).
Proof.
  unfold Method.add_parameter, announced_count.
  set (names := match Param.is_array p with
                | Some m0 => group m0 1 :: Method.count_parameter_names m
                | None => Method.count_parameter_names m
                end).
  assert (Hn : forall x, In x names <->
                 In x (Method.count_parameter_names m)
                 \/ match Param.is_array p with
                    | Some m0 => Some (group m0 1)
                    | None => None
                    end = Some x).
  { intros x. unfold names. destruct (Param.is_array p) as [cs|]; simpl.
    - split.
      + intros [H|H]; [right; congruence|left; exact H].
      + intros [H|H]; [right; exact H|left; congruence].
    - split; [auto|]. intros [H|H]; [exact H|discriminate]. }
  cbn [Method.parameters Method.count_parameter_names].
  destruct (existsb (text_eqb (Param.name p)) names) eqn:E.
  - exists (Param.mark_count p).
    split; [reflexivity|]. split; [auto|]. split; [|exact Hn].
    split; [|reflexivity]. intros _.
    apply existsb_text_eqb_In, Hn in E. tauto.
  - exists p.
    split; [reflexivity|]. split; [auto|]. split; [|exact Hn].
    split; [auto|]. intros [H|H]; [exact H|].
    apply Hn, existsb_text_eqb_In in H. congruence.
Qed.

Lemma add_parameter_frame m p :
  Method.name (Method.add_parameter m p) = Method.name m
  /\ Method.docstring (Method.add_parameter m p) = Method.docstring m
  /\ Method.type_ (Method.add_parameter m p) = Method.type_ m.
Proof. repeat split. Qed.

Lemma add_parameters_spec ps :
  forall m0, exists T,
    Method.parameters (fold_left Method.add_parameter ps m0) = Method.parameters m0 ++ T
    /\ Forall2 (fun p' p => p' = p \/ p' = Param.mark_count p) T ps
    /\ (forall i p p',
          nth_error ps i = Some p -> nth_error T i = Some p' ->
          (Param.is_count p' = true <->
           Param.is_count p = true
           \/ In (Param.name p) (Method.count_parameter_names m0)
           \/ exists j a, j <= i /\ nth_error ps j = Some a
                          /\ announced_count a = Some (Param.name p))).
Proof.
  induction ps as [|q ps IH]; intros m0.
  - exists []. rewrite app_nil_r. split; [reflexivity|]. split; [constructor|].
    intros [|i] p p'; discriminate.
  - cbn [fold_left].
    destruct (add_parameter_parameters m0 q) as (q' & Eq & Hq & Cq & Nq).
    destruct (IH (Method.add_parameter m0 q)) as (T & ET & FT & CT).
    exists (q' :: T). split; [|split].
    + rewrite ET, Eq, <- app_assoc. reflexivity.
    + constructor; assumption.
    + intros [|i] p p' Hp Hp'; cbn [nth_error] in Hp, Hp'.
      * injection Hp as <-. injection Hp' as <-. rewrite Cq.
        split.
        -- intros [H|[H|H]]; auto.
           right. right. exists 0, q. auto.
        -- intros [H|[H|(j & a & Hj & Ha & Hc)]]; auto.
           assert (j = 0) by lia. subst. cbn [nth_error] in Ha.
           injection Ha as <-. auto.
      * rewrite (CT i p p' Hp Hp'). split.
        -- intros [H|[H|(j & a & Hj & Ha & Hc)]]; auto.
           ++ apply Nq in H. destruct H as [H|H]; auto.
              right. right. exists 0, q. split; [lia|]. auto.
           ++ right. right. exists (S j), a. split; [lia|]. auto.
        -- intros [H|[H|(j & a & Hj & Ha & Hc)]]; auto.
           ++ right. left. apply Nq. auto.
           ++ destruct j as [|j]; cbn [nth_error] in Ha.
              ** injection Ha as <-. right. left. apply Nq. auto.
              ** right. right. exists j, a. split; [lia|]. auto.
Qed.

(** X1: a parameter added to a method is stored as it is or marked as a
    count, and it is a count in the method exactly when it was one already or
    an array parameter added no later than it, possibly itself, names it as
    its count.  An array parameter added after its count does not mark it. *)
Theorem counts_are_tagged_by_earlier_arrays
        (name : text) (type_ docstring : option text) (ps : list Param.t) :
  let m := method_of name type_ docstring ps in
  Forall2 (fun p' p => p' = p \/ p' = Param.mark_count p) (Method.parameters m) ps
  /\ (forall i p p',
        nth_error ps i = Some p -> nth_error (Method.parameters m) i = Some p' ->
        (Param.is_count p' = true <->
         Param.is_count p = true
         \/ exists j a, j <= i /\ nth_error ps j = Some a
                        /\ announced_count a = Some (Param.name p))).
Proof.
  intros m. unfold m, method_of.
  destruct (add_parameters_spec ps (Method.init name type_ docstring)) as (T & ET & FT & CT).
  cbn [Method.init Method.parameters app] in ET. rewrite ET. split; [exact FT|].
  intros i p p' Hp Hp'. rewrite (CT i p p' Hp Hp').
  cbn [Method.init Method.count_parameter_names In]. tauto.
Qed.

(** ** When rendering a method fails *)

Lemma probe_texts_none :
  forall todo done b,
    probe_texts done b todo = None <->
    exists A p, todo = A ++ [p] /\ Param.is_out_string p = true.
Proof.
  induction todo as [|p0 rest IH]; intros done b.
  - cbn [probe_texts]. split; [discriminate|].
    intros (A & p & E & _). destruct A; discriminate.
  - rewrite probe_texts_cons. destruct (Param.is_out_string p0) eqn:Ho.
    + destruct rest as [|q r].
      * split; [|reflexivity]. intros _. exists [], p0. auto.
      * destruct (probe_texts (done ++ [if b then Param.mark_count p0 else p0]) true (q :: r))
          as [t|] eqn:E.
        -- split; [discriminate|]. intros (A & p & EA & Hp).
           assert (N : probe_texts (done ++ [if b then Param.mark_count p0 else p0]) true
                                   (q :: r) = None).
           { apply IH. destruct A as [|a A]; [discriminate|].
             injection EA as <- EA. exists A, p. auto. }
           congruence.
        -- split; [|reflexivity]. intros _. apply IH in E.
           destruct E as (A & p & EA & Hp). exists (p0 :: A), p. rewrite EA. auto.
    + rewrite IH. split.
      * intros (A & p & EA & Hp). exists (p0 :: A), p. rewrite EA. auto.
      * intros (A & p & EA & Hp). destruct A as [|a A].
        -- injection EA as <- <-. congruence.
        -- injection EA as <- EA. exists A, p. auto.
Qed.

Lemma assemble_raises m out pre :
  Method.assemble m out pre = Raised IndexError <-> Method.name m = [].
Proof.
  unfold Method.assemble. destruct (Method.name m) as [|c n]; cbn [downcase_first].
  - split; reflexivity.
  - split; discriminate.
Qed.

Lemma empty_name_raises m :
  Method.name m = [] -> snd (Method.ctypes_string m) = Raised IndexError.
Proof.
  intros H. rewrite ctypes_string_eq. cbn [snd].
  destruct (probe_texts [] false (Method.parameters m)); [|reflexivity].
  apply assemble_raises. exact H.
Qed.

Lemma rendering_raises m :
  snd (Method.ctypes_string m) = Raised IndexError <->
  Method.name m = []
  \/ exists A p, Method.parameters m = A ++ [p] /\ Param.is_out_string p = true.
Proof.
  rewrite ctypes_string_eq. cbn [snd].
  destruct (probe_texts [] false (Method.parameters m)) as [t|] eqn:E.
  - rewrite assemble_raises. split; [auto|]. intros [H|H]; [exact H|].
    apply (probe_texts_none _ [] false) in H. congruence.
  - apply probe_texts_none in E. split; auto.
Qed.

(** X2: rendering a method raises, and it raises [IndexError], exactly when
    the name of the method is empty or its last parameter is an output
    string, which has no length parameter after it. *)
Theorem ctypes_string_raises (m : Method.t) :
  (exists e, snd (Method.ctypes_string m) = Raised e) <->
  Method.name m = []
  \/ exists A p, Method.parameters m = A ++ [p] /\ Param.is_out_string p = true.
Proof.
  rewrite ctypes_string_eq. cbn [snd].
  destruct (probe_texts [] false (Method.parameters m)) as [t|] eqn:E.
  - split.
    + intros ([] & H). apply assemble_raises in H. left. exact H.
    + intros [H|H].
      * exists IndexError. apply assemble_raises. exact H.
      * apply (probe_texts_none _ [] false) in H. congruence.
  - apply probe_texts_none in E. split; [auto|]. intros _. exists IndexError. reflexivity.
Qed.

(** ** The function table entry *)

Lemma mark_successors_types b ps :
  map Param.type_ (mark_successors b ps) = map Param.type_ ps.
Proof.
  revert b. induction ps as [|p ps IH]; intros b; [reflexivity|].
  cbn [mark_successors map]. rewrite IH. destruct b; reflexivity.
Qed.

Lemma map_types_spellings (f : text -> text) ps qs :
  map Param.type_ ps = map Param.type_ qs ->
  map (fun p => f (spelling (Param.type_ p))) ps
  = map (fun p => f (spelling (Param.type_ p))) qs.
Proof.
  intros H.
  change (fun p => f (spelling (Param.type_ p)))
    with (fun p => (fun t => f (spelling t)) (Param.type_ p)).
  rewrite <- !(map_map Param.type_ (fun t => f (spelling t))), H. reflexivity.
Qed.

Lemma fntable_after_rendering m :
  ctypes_fntable_string (fst (Method.ctypes_string m)) = ctypes_fntable_string m.
Proof.
  rewrite ctypes_string_eq. cbn [fst]. unfold ctypes_fntable_string.
  cbn [Method.with_parameters Method.name Method.type_ Method.parameters].
  rewrite (map_types_spellings translate_type _ (Method.parameters m)
             (mark_successors_types false (Method.parameters m))).
  reflexivity.
Qed.

(** X3: the function table entry of a method reads the name, the type and
    the types of the parameters only.  It is the same before and after the
    method is rendered; it raises [IndexError] exactly on an empty name and
    [AttributeError] exactly on a named method without a type; so for a
    method that was rendered without an exception and has a type, it is an
    entry. *)
Theorem fntable_entry_after_rendering (m : Method.t) :
  ctypes_fntable_string (fst (Method.ctypes_string m)) = ctypes_fntable_string m
  /\ (ctypes_fntable_string m = Fault Index_Error <-> Method.name m = [])
  /\ (ctypes_fntable_string m = Fault Attribute_Error <->
      Method.name m <> [] /\ Method.type_ m = None)
  /\ (forall t type_,
        snd (Method.ctypes_string m) = Returned t -> Method.type_ m = Some type_ ->
        exists entry, ctypes_fntable_string m = Answer entry).
Proof.
  split; [|split; [|split]].
  - rewrite ctypes_string_eq. cbn [fst]. unfold ctypes_fntable_string.
    cbn [Method.with_parameters Method.name Method.type_ Method.parameters].
    rewrite (map_types_spellings translate_type _ (Method.parameters m)
               (mark_successors_types false (Method.parameters m))).
    reflexivity.
  - unfold ctypes_fntable_string. destruct (Method.name m) as [|c n]; cbn [downcase_first].
    + split; reflexivity.
    + destruct (Method.type_ m); split; discriminate.
  - unfold ctypes_fntable_string. destruct (Method.name m) as [|c n]; cbn [downcase_first].
    + split; [discriminate|]. intros [H _]. contradiction.
    + destruct (Method.type_ m).
      * split; [discriminate|]. intros [_ H]. discriminate.
      * split; [|reflexivity]. intros _. split; [discriminate|reflexivity].
  - intros t type_ Ht Hty. unfold ctypes_fntable_string.
    destruct (Method.name m) as [|c n] eqn:En.
    + rewrite (empty_name_raises m En) in Ht. discriminate.
    + cbn [downcase_first]. rewrite Hty. eauto.
Qed.

(** ** Functions: the name of the wrapper *)

Lemma python_name_empty f :
  Func.python_name f = [] <-> Func.name f = [] \/ Func.name f = str "VR_".
Proof.
  unfold Func.python_name. change (str "VR_") with ["V"; "R"; "_"]%char.
  destruct (Func.name f) as [|a [|b [|c n]]]; cbn [startswith].
  - split; auto.
  - rewrite andb_false_r. split; [discriminate|]. intros [H|H]; discriminate.
  - rewrite !andb_false_r. split; [discriminate|]. intros [H|H]; discriminate.
  - destruct (Ascii.eqb "V" a) eqn:Ea; cbn [andb];
      [destruct (Ascii.eqb "R" b) eqn:Eb; cbn [andb];
       [destruct (Ascii.eqb "_" c) eqn:Ec; cbn [andb skipn]|]|].
    + apply Ascii.eqb_eq in Ea, Eb, Ec. subst.
      replace (startswith n []) with true by (destruct n; reflexivity). split.
      * intros ->. right. reflexivity.
      * intros [H|H]; [discriminate|]. injection H as ->. reflexivity.
    + split; [discriminate|]. intros [H|H]; [discriminate|].
      injection H; intros; subst. discriminate.
    + split; [discriminate|]. intros [H|H]; [discriminate|].
      injection H; intros; subst. discriminate.
    + split; [discriminate|]. intros [H|H]; [discriminate|].
      injection H; intros; subst. discriminate.
Qed.

(** X4: rendering a function raises exactly when nothing is left of its name
    once a leading [VR_] is taken off: when the name is empty or is [VR_]
    itself.  The exception is the [IndexError] of [py_name[0]]. *)
Theorem function_without_a_name (f : Func.t) :
  Func.to_str f = Raised IndexError
  <-> Func.name f = [] \/ Func.name f = str "VR_".
Proof.
  rewrite <- python_name_empty. unfold Func.to_str.
  destruct (Func.python_name f) as [|c n]; cbn [downcase_first].
  - split; reflexivity.
  - split; discriminate.
Qed.

(** ** Functions: which template, and with what *)

Lemma filter_no_error l :
  existsb Param.is_error l = false -> filter (fun p => negb (Param.is_error p)) l = l.
Proof.
  induction l as [|x l IH]; [reflexivity|]. cbn [existsb filter]. intros H.
  apply orb_false_iff in H. destruct H as [Hx Hl]. rewrite Hx. cbn [negb].
  rewrite (IH Hl). reflexivity.
Qed.

Lemma to_str_collected f py_name :
  downcase_first (Func.python_name f) = Some py_name ->
  Func.to_str f
  = Returned
      (cleandoc
         (let docstring :=
            if truthy (Func.docstring f)
            then indent (nl ++ triple_quote ++ text_of (Func.docstring f) ++ triple_quote)
                        (spaces 20)
            else [] in
          let restype := translate_type (spelling (Func.type_ f)) in
          let args :=
            join (str ", ")
                 (map Func.signature_name
                      (filter (fun p => negb (Param.is_error p)) (Func.parameters f))) in
          let call_args := join (str ", ") (map Func.call_argument (Func.parameters f)) in
          let arg_types :=
            join (str ", ")
                 (map (fun p => translate_type (spelling (Param.type_ p)))
                      (Func.parameters f)) in
          match last_error (Func.parameters f) None with
          | None =>
              Func.plain_template (Func.name f) restype arg_types py_name args docstring
                                  call_args
          | Some e =>
              Func.error_template (Func.name f) restype arg_types py_name args docstring
                (Param.name e) (translate_type (spelling (get_pointee (Param.type_ e))))
                call_args
          end)).
Proof.
  intros H. unfold Func.to_str. rewrite H, collect_all.
  cbn [Func.params Func.call_params Func.param_types Func.error_param app]. reflexivity.
Qed.

(** ** Dedenting a block whose first line opens the block *)

Lemma no_newline_spaces k : no_newline (spaces k) = true.
Proof. induction k; simpl; auto. Qed.

Lemma blank_no_newline tail : forallb is_blank tail = true -> no_newline tail = true.
Proof.
  unfold no_newline. induction tail as [|c t IH]; simpl; auto.
  intros H. apply andb_true_iff in H. destruct H as [Hc Ht]. rewrite (IH Ht), andb_true_r.
  unfold is_blank in Hc. apply orb_true_iff in Hc.
  destruct Hc as [Hc|Hc]; apply Ascii.eqb_eq in Hc; subst; reflexivity.
Qed.

Lemma split_on_lines ls tail :
  Forall (fun l => no_newline l = true) ls -> no_newline tail = true ->
  split_on newline (List.concat (map (fun l => l ++ nl) ls) ++ tail) = ls ++ [tail].
Proof.
  intros H Ht. induction H as [|l ls Hl Hls IH]; cbn [map List.concat app].
  - apply split_on_last, Ht.
  - unfold nl at 1. rewrite <- !app_assoc. cbn [app].
    rewrite (split_on_line _ _ Hl), IH. reflexivity.
Qed.

Lemma margin_kept n ys :
  fold_left dedent_margin (map (fun y => spaces n ++ leading_blanks y) ys) (Some (spaces n))
  = Some (spaces n).
Proof.
  induction ys as [|y ys IH]; [reflexivity|].
  cbn [map fold_left]. rewrite dedent_margin_keep. exact IH.
Qed.

Lemma join_lines ys : join nl (ys ++ [[]]) = List.concat (map (fun y => y ++ nl) ys).
Proof.
  induction ys as [|y ys IH]; [reflexivity|].
  cbn [app map List.concat]. rewrite <- IH.
  destruct ys; cbn [app join]; rewrite <- ?app_assoc; reflexivity.
Qed.

(** A block of lines written [n] columns to the right, the first of which
    starts with a character that is not a blank, followed by a last line of
    blanks: [dedent] moves it [n] columns to the left. *)
Lemma dedent_block n y ys tail :
  Forall (fun l => no_newline l = true) (y :: ys) ->
  Forall (fun l => forallb is_blank l = false) ys ->
  match y with c :: _ => is_blank c = false | [] => False end ->
  forallb is_blank tail = true ->
  dedent (List.concat (map (fun l => spaces n ++ l ++ nl) (y :: ys)) ++ tail)
  = List.concat (map (fun l => l ++ nl) (y :: ys)).
Proof.
  intros Hn Hb Hy Ht.
  assert (By : forallb is_blank y = false).
  { destruct y as [|c y]; [contradiction|]. simpl. rewrite Hy. reflexivity. }
  assert (Ly : leading_blanks y = []).
  { destruct y as [|c y]; [contradiction|]. simpl. rewrite Hy. reflexivity. }
  assert (Hb' : Forall (fun l => forallb is_blank l = false) (y :: ys))
    by (constructor; assumption).
  clear Hb By Hy.
  unfold dedent.
  replace (List.concat (map (fun l => spaces n ++ l ++ nl) (y :: ys)))
    with (List.concat (map (fun l => l ++ nl) (map (app (spaces n)) (y :: ys)))).
  2:{ rewrite map_map. f_equal. apply map_ext. intros l. rewrite app_assoc. reflexivity. }
  rewrite split_on_lines.
  2:{ apply Forall_map. revert Hn. apply Forall_impl. intros l Hl.
      rewrite no_newline_app, no_newline_spaces, Hl. reflexivity. }
  2:{ apply blank_no_newline, Ht. }
  set (L := map (app (spaces n)) (y :: ys)).
  match goal with
  | |- context [?t] =>
      match t with
      | map _ (L ++ [tail]) => replace t with (L ++ [@nil ascii])
      end
  end.
  2:{ rewrite map_app. cbn [map]. rewrite Ht. f_equal.
      unfold L. rewrite map_map. symmetry. apply map_ext_in. intros l Hl.
      rewrite forallb_app. rewrite Forall_forall in Hb'. rewrite (Hb' l Hl).
      rewrite andb_false_r. reflexivity. }
  assert (E2 : filter (fun l => negb (is_nil l)) (L ++ [[]]) = L).
  { rewrite filter_app. cbn [filter is_nil negb]. rewrite app_nil_r.
    apply forallb_filter_id. apply forallb_forall. intros l Hl.
    apply in_map_iff in Hl. destruct Hl as (z & <- & Hz).
    rewrite Forall_forall in Hb'. specialize (Hb' z Hz).
    destruct (spaces n ++ z) eqn:E; [|reflexivity].
    apply app_eq_nil in E. destruct E as [_ ->]. discriminate. }
  assert (E3 : map leading_blanks L
               = map (fun l => spaces n ++ leading_blanks l) (y :: ys)).
  { unfold L. rewrite map_map. apply map_ext. intros l.
    apply leading_blanks_app, forallb_blank_spaces. }
  rewrite E2, E3.
  cbn [map fold_left]. unfold dedent_margin at 2. rewrite Ly, app_nil_r.
  rewrite margin_kept.
  destruct n as [|n].
  - cbn [spaces repeat]. replace L with (y :: ys).
    2:{ unfold L. cbn [spaces repeat]. symmetry. apply map_id. }
    apply (join_lines (y :: ys)).
  - change (spaces (S n)) with (" "%char :: spaces n) at 1.
    cbv iota. change (" "%char :: spaces n) with (spaces (S n)).
    match goal with
    | |- context [?t] =>
        match t with
        | map _ (L ++ [[]]) => replace t with ((y :: ys) ++ [@nil ascii])
        end
    end.
    2:{ rewrite map_app. cbn [map startswith]. f_equal.
        unfold L. rewrite map_map.
        rewrite <- (map_id (y :: ys)) at 1. apply map_ext. intros l.
        rewrite startswith_app.
        assert (Hl : List.length (spaces (S n)) = S n) by apply repeat_length.
        rewrite Hl. symmetry. apply skipn_spaces. }
    apply (join_lines (y :: ys)).
Qed.

(** ** The statements of a parameter *)

Lemma non_space_no_newline s : forallb non_space s = true -> no_newline s = true.
Proof.
  unfold no_newline. induction s as [|c s IH]; simpl; auto. intros H.
  apply andb_true_iff in H. destruct H as [Hc Hs]. rewrite (IH Hs), andb_true_r.
  unfold any_but_newline, not_chr. destruct (Ascii.eqb c newline) eqn:E; [|reflexivity].
  apply Ascii.eqb_eq in E. subst. discriminate.
Qed.

(** The count that an array annotation names is a run of characters that
    are not white space, and is not empty. *)
Lemma array_count_shape p m :
  Param.is_array p = Some m ->
  forallb non_space (group m 1) = true /\ group m 1 <> [].
Proof.
  unfold Param.is_array. destruct (negb (truthy (Param.annotation p))); [discriminate|].
  intros H. apply re_match_sound in H. destruct H as (seg & rest & _ & M).
  cbv [rx_array_count Seq fold_right Plus Lit str list_ascii_of_string map] in M.
  inv_matches. cbn [group Nat.eqb]. split;
    [|intros E; apply (f_equal (@List.length ascii)) in E;
      rewrite ?length_app in E; simpl in E; lia].
  cbn [forallb app].
  repeat match goal with
         | H : non_space _ = true |- _ => rewrite H
         | H : forallb non_space _ = true |- _ => rewrite H
         end.
  reflexivity.
Qed.

(** [block_text n y ys k]: the goal is [dedent] of the lines [y :: ys], each
    [n] columns to the right and closed by a newline, followed by [k]
    blanks. *)
Ltac block_text n y ys k :=
  match goal with
  | |- dedent ?t = _ =>
      replace t
        with (List.concat (map (fun l => spaces n ++ l ++ nl) (y :: ys)) ++ spaces k)
        by (cbn [map List.concat]; rewrite <- ?app_assoc; reflexivity)
  end;
  rewrite dedent_block;
  [ cbn [map List.concat]; rewrite <- ?app_assoc, ?app_nil_r; reflexivity
  | repeat constructor;
    repeat (rewrite ?no_newline_app;
            match goal with
            | H : no_newline ?x = true |- context [no_newline ?x] => rewrite H
            end);
    rewrite ?no_newline_app; reflexivity
  | repeat constructor; rewrite ?forallb_app; cbn; rewrite ?andb_false_r; reflexivity
  | reflexivity
  | reflexivity ].

(** X6: the statements that an array parameter puts before the call, as
    [textwrap.dedent] leaves them.  When the caller passes [None] the count
    is set to zero and the argument to [None], or, for a count of tracked
    devices, an array of the largest size is allocated; otherwise the count
    is the length of the sequence and the argument is a reference to its
    first element. *)
Theorem array_pre_call_block (p : Param.t) (m : captures) :
  Param.is_array p = Some m ->
  no_newline (Param.name p) = true ->
  no_newline (translate_type (spelling (get_pointee (Param.type_ p)))) = true ->
  let N := Param.name p in
  let C := group m 1 in
  let T := translate_type (spelling (get_pointee (Param.type_ p))) in
  Param.pre_call_block p
  = (if matches rx_device_count C
     then str "if " ++ N ++ str " is None:" ++ nl
          ++ str "    " ++ C ++ str " = k_unMaxTrackedDeviceCount" ++ nl
          ++ str "    " ++ N ++ str " = (" ++ T ++ str " * " ++ C ++ str ")()" ++ nl
          ++ str "    " ++ N ++ str "Arg = byref(" ++ N ++ str "[0])" ++ nl
     else str "if " ++ N ++ str " is None:" ++ nl
          ++ str "    " ++ C ++ str " = 0" ++ nl
          ++ str "    " ++ N ++ str "Arg = None" ++ nl)
    ++ str "else:" ++ nl
    ++ str "    " ++ C ++ str " = len(" ++ N ++ str ")" ++ nl
    ++ str "    " ++ N ++ str "Arg = byref(" ++ N ++ str "[0])" ++ nl.
Proof.
  intros Ha HN HT N C T.
  destruct (array_count_shape p m Ha) as [HC _].
  apply non_space_no_newline in HC. fold C in HC.
  unfold Param.pre_call_block. rewrite Ha. fold N C T.
  change (no_newline N = true) in HN. change (no_newline T = true) in HT.
  assert (E2 : dedent (List.concat
                 [spaces 16; str "else:"; nl;
                  spaces 20; C; str " = len("; N; str ")"; nl;
                  spaces 20; N; str "Arg = byref("; N; str "[0])"; nl;
                  spaces 16])
               = str "else:" ++ nl
                 ++ str "    " ++ C ++ str " = len(" ++ N ++ str ")" ++ nl
                 ++ str "    " ++ N ++ str "Arg = byref(" ++ N ++ str "[0])" ++ nl).
  { block_text 16 (str "else:")
      [str "    " ++ C ++ str " = len(" ++ N ++ str ")";
       str "    " ++ N ++ str "Arg = byref(" ++ N ++ str "[0])"] 16. }
  rewrite E2. clear E2.
  destruct (matches rx_device_count C).
  - assert (E1 : dedent (List.concat
                   [spaces 20; str "if "; N; str " is None:"; nl;
                    spaces 24; C; str " = k_unMaxTrackedDeviceCount"; nl;
                    spaces 24; N; str " = ("; T; str " * "; C; str ")()"; nl;
                    spaces 24; N; str "Arg = byref("; N; str "[0])"; nl;
                    spaces 20])
                 = str "if " ++ N ++ str " is None:" ++ nl
                   ++ str "    " ++ C ++ str " = k_unMaxTrackedDeviceCount" ++ nl
                   ++ str "    " ++ N ++ str " = (" ++ T ++ str " * " ++ C ++ str ")()" ++ nl
                   ++ str "    " ++ N ++ str "Arg = byref(" ++ N ++ str "[0])" ++ nl).
    { block_text 20 (str "if " ++ N ++ str " is None:")
        [str "    " ++ C ++ str " = k_unMaxTrackedDeviceCount";
         str "    " ++ N ++ str " = (" ++ T ++ str " * " ++ C ++ str ")()";
         str "    " ++ N ++ str "Arg = byref(" ++ N ++ str "[0])"] 20. }
    rewrite E1. rewrite <- !app_assoc. reflexivity.
  - assert (E1 : dedent (List.concat
                   [spaces 16; str "if "; N; str " is None:"; nl;
                    spaces 20; C; str " = 0"; nl;
                    spaces 20; N; str "Arg = None"; nl;
                    spaces 16])
                 = str "if " ++ N ++ str " is None:" ++ nl
                   ++ str "    " ++ C ++ str " = 0" ++ nl
                   ++ str "    " ++ N ++ str "Arg = None" ++ nl).
    { block_text 16 (str "if " ++ N ++ str " is None:")
        [str "    " ++ C ++ str " = 0";
         str "    " ++ N ++ str "Arg = None"] 16. }
    rewrite E1. rewrite <- !app_assoc. reflexivity.
Qed.

(** X7: the statements that a parameter puts after the call.  An error
    output is tested, and [OpenVRError] is raised on a value that is not
    zero; no other parameter adds a statement. *)
Theorem error_post_call_block (p : Param.t) :
  no_newline (Param.name p) = true ->
  Param.post_call_block p
  = if Param.is_error p
    then str "if " ++ Param.name p ++ str ".value != 0:" ++ nl
         ++ str "    raise OpenVRError(str(" ++ Param.name p ++ str "))" ++ nl
    else [].
Proof.
  intros HN. unfold Param.post_call_block. destruct (Param.is_error p); [|reflexivity].
  set (N := Param.name p) in *.
  block_text 16 (str "if " ++ N ++ str ".value != 0:")
    [str "    raise OpenVRError(str(" ++ N ++ str "))"] 12.
Qed.

(** X8: an output string is never an array parameter.  It adds no statement
    before the call, since the probing block binds it; it is passed by its
    name; and unless it is an error output as well, which hides it, the
    bytes of its value are returned. *)
Theorem output_string_fragments (p : Param.t) :
  Param.is_out_string p = true ->
  Param.is_array p = None
  /\ Param.pre_call_block p = []
  /\ Param.call_param_name p = Param.name p
  /\ Param.return_param_name p
     = if Param.is_error p then None
       else Some (str "bytes(" ++ Param.name p ++ str ".value)").
Proof.
  intros H.
  assert (Ha : Param.is_array p = None).
  { unfold Param.is_out_string in H. unfold Param.is_array.
    destruct (negb (truthy (Param.annotation p))); [reflexivity|].
    apply text_eqb_eq in H. rewrite H. vm_compute. reflexivity. }
  split; [exact Ha|]. split; [|split].
  - unfold Param.pre_call_block. rewrite Ha, H. reflexivity.
  - unfold Param.call_param_name. rewrite Ha, H. cbn [matched].
    destruct (Param.is_count p); reflexivity.
  - unfold Param.return_param_name. rewrite H. reflexivity.
Qed.

(** ** Cleaning a template whose first line opens the block *)

Lemma expandtabs_id s : forall col, no_tab s = true -> expandtabs_from col s = s.
Proof.
  induction s as [|c s IH]; intros col H; [reflexivity|].
  cbn [no_tab forallb] in H. apply andb_true_iff in H. destruct H as [Hc Hs].
  apply negb_true_iff in Hc. cbn [expandtabs_from]. rewrite Hc.
  destruct (is_code 10 c || is_code 13 c); rewrite (IH _ Hs); reflexivity.
Qed.

Lemma no_tab_app a b : no_tab (a ++ b) = no_tab a && no_tab b.
Proof. apply forallb_app. Qed.

Lemma no_tab_spaces k : no_tab (spaces k) = true.
Proof. induction k; simpl; auto. Qed.

Lemma lstrip_spaces k z : lstrip (spaces k ++ z) = lstrip z.
Proof. induction k; simpl; auto. Qed.

Lemma lstrip_length z : List.length (lstrip z) <= List.length z.
Proof.
  induction z as [|c z IH]; simpl; [lia|]. destruct (is_space c); simpl; lia.
Qed.

Lemma indentation_indented n z :
  is_nil (lstrip z) = false ->
  exists k, indentation (spaces n ++ z) = Some (n + k).
Proof.
  intros H. unfold indentation. rewrite lstrip_spaces.
  destruct (lstrip z) as [|c l] eqn:E; [discriminate|].
  cbn [List.length Nat.eqb]. exists (List.length z - List.length (c :: l)).
  f_equal. rewrite length_app. unfold spaces. rewrite repeat_length.
  pose proof (lstrip_length z) as L. rewrite E in L. cbn [List.length] in *. lia.
Qed.

Lemma indentation_first n y :
  match y with c :: _ => is_space c = false | [] => False end ->
  indentation (spaces n ++ y) = Some n.
Proof.
  intros H. unfold indentation. rewrite lstrip_spaces.
  destruct y as [|c y]; [contradiction|]. cbn [lstrip]. rewrite H.
  cbn [List.length Nat.eqb]. f_equal. rewrite length_app. unfold spaces.
  rewrite repeat_length. cbn [List.length]. lia.
Qed.

Lemma indentation_blank t : indentation (spaces t) = None.
Proof.
  unfold indentation. rewrite <- (app_nil_r (spaces t)), lstrip_spaces. reflexivity.
Qed.

Lemma margin_of_block n ys :
  Forall (fun z => is_nil (lstrip z) = false) ys ->
  fold_left min_margin (map (app (spaces n)) ys) (Some n) = Some n.
Proof.
  induction 1 as [|z ys Hz Hys IH]; [reflexivity|].
  cbn [map fold_left]. unfold min_margin at 2.
  destruct (indentation_indented n z Hz) as (k & ->).
  replace (Nat.min n (n + k)) with n by lia. exact IH.
Qed.

Lemma drop_empty_nonempty (l : text) ls : l <> [] -> drop_empty (l :: ls) = l :: ls.
Proof. destruct l; [contradiction|reflexivity]. Qed.

Lemma skipn_all_spaces n t : t <= n -> skipn n (spaces t) = [].
Proof. intros H. apply skipn_all2. unfold spaces. rewrite repeat_length. exact H. Qed.

(** A template that opens with a newline and goes on with lines written
    [n] columns to the right, the first of which starts with a character
    that is not white space, followed by at most [n] blanks: [cleandoc]
    moves the lines [n] columns to the left and drops the empty first and
    last lines. *)
Lemma cleandoc_block n y ys t :
  forallb plain_line (y :: ys) = true ->
  match y with c :: _ => is_space c = false | [] => False end ->
  t <= n ->
  cleandoc (nl ++ List.concat (map (fun l => spaces n ++ l ++ nl) (y :: ys)) ++ spaces t)
  = join nl (y :: ys).
Proof.
  intros Hp Hy Ht.
  assert (Hn : Forall (fun l => no_newline l = true) (y :: ys)).
  { apply Forall_forall. intros l Hl. rewrite forallb_forall in Hp.
    specialize (Hp l Hl). unfold plain_line in Hp.
    apply andb_true_iff in Hp. destruct Hp as [Hp _].
    apply andb_true_iff in Hp. apply Hp. }
  assert (Htab : Forall (fun l => no_tab l = true) (y :: ys)).
  { apply Forall_forall. intros l Hl. rewrite forallb_forall in Hp.
    specialize (Hp l Hl). unfold plain_line in Hp.
    apply andb_true_iff in Hp. destruct Hp as [Hp _].
    apply andb_true_iff in Hp. apply Hp. }
  assert (Hs : Forall (fun l => is_nil (lstrip l) = false) (y :: ys)).
  { apply Forall_forall. intros l Hl. rewrite forallb_forall in Hp.
    specialize (Hp l Hl). unfold plain_line in Hp.
    apply andb_true_iff in Hp. destruct Hp as [_ Hp]. apply negb_true_iff. exact Hp. }
  set (Y := y :: ys) in *.
  set (L := map (app (spaces n)) Y).
  assert (EL : List.concat (map (fun l => spaces n ++ l ++ nl) Y)
               = List.concat (map (fun l => l ++ nl) L)).
  { unfold L. rewrite map_map. f_equal. apply map_ext. intros l.
    rewrite app_assoc. reflexivity. }
  rewrite EL. unfold cleandoc.
  rewrite expandtabs_id.
  2:{ rewrite !no_tab_app, no_tab_spaces, andb_true_r. cbn [nl no_tab forallb andb].
      change (negb (is_code 9 newline)) with true. cbn [andb].
      unfold L. clear -Htab. induction Htab as [|l ls Hl Hls IH]; [reflexivity|].
      cbn [map List.concat]. rewrite !no_tab_app, no_tab_spaces, Hl, IH. reflexivity. }
  unfold nl at 1. cbn [app split_on]. rewrite Ascii.eqb_refl.
  rewrite split_on_lines.
  2:{ unfold L. apply Forall_map. revert Hn. apply Forall_impl. intros l Hl.
      rewrite no_newline_app, no_newline_spaces, Hl. reflexivity. }
  2:{ apply no_newline_spaces. }
  assert (EM : fold_left min_margin (L ++ [spaces t]) None = Some n).
  { rewrite fold_left_app. unfold L, Y. cbn [map fold_left]. unfold min_margin at 3.
    rewrite (indentation_first n y Hy).
    rewrite margin_of_block by (inversion Hs; assumption).
    unfold min_margin. rewrite indentation_blank. reflexivity. }
  match goal with
  | |- context [?u] =>
      match u with
      | fold_left min_margin _ None => replace u with (Some n) by (symmetry; exact EM)
      end
  end.
  assert (ES : map (skipn n) (L ++ [spaces t]) = Y ++ [[]]).
  { rewrite map_app. cbn [map]. rewrite (skipn_all_spaces n t Ht). f_equal.
    unfold L. rewrite map_map. rewrite <- (map_id Y) at 2. apply map_ext.
    intros l. apply skipn_spaces. }
  match goal with
  | |- context [?u] =>
      match u with
      | map (skipn n) _ => replace u with (Y ++ [@nil ascii]) by (symmetry; exact ES)
      end
  end.
  cbn [lstrip].
  assert (Hne : forall l, In l Y -> l <> []).
  { intros l Hl. rewrite Forall_forall in Hs. specialize (Hs l Hl).
    intros ->. discriminate. }
  change (rev ([] :: Y ++ [[]])) with (rev (Y ++ [[]]) ++ [[]]).
  rewrite rev_app_distr. cbn [rev app drop_empty].
  assert (ER : exists z zs, rev Y = z :: zs /\ z <> []).
  { destruct (rev Y) as [|z zs] eqn:E.
    - apply (f_equal (@List.length text)) in E. rewrite length_rev in E. discriminate.
    - exists z, zs. split; [reflexivity|]. apply Hne. apply in_rev. rewrite E. left.
      reflexivity. }
  destruct ER as (z & zs & ER & Hz). rewrite ER.
  change ((z :: zs) ++ [[]]) with (z :: zs ++ [[]]).
  rewrite (drop_empty_nonempty z _ Hz).
  change (z :: zs ++ [[]]) with ((z :: zs) ++ [[]]). rewrite <- ER.
  rewrite rev_app_distr, rev_involutive. cbn [rev app drop_empty].
  unfold Y. rewrite drop_empty_nonempty; [reflexivity|].
  apply Hne. left. reflexivity.
Qed.

(** ** The final texts *)

Lemma lstrip_content s : existsb non_space s = true -> is_nil (lstrip s) = false.
Proof.
  induction s as [|c s IH]; [discriminate|]. cbn [existsb lstrip]. unfold non_space at 1.
  destruct (is_space c); cbn [negb orb]; [exact IH|reflexivity].
Qed.

Lemma plain_line_intro s :
  no_newline s = true -> no_tab s = true -> existsb non_space s = true ->
  plain_line s = true.
Proof.
  intros H1 H2 H3. unfold plain_line. rewrite H1, H2, (lstrip_content s H3). reflexivity.
Qed.

Lemma one_line_parts s : one_line s = true -> no_newline s = true /\ no_tab s = true.
Proof. unfold one_line. intros H. apply andb_true_iff in H. exact H. Qed.

(** Splits the hypotheses [one_line x = true], then proves that the lines of
    the goal are plain: each is made of literals and of such texts, and holds
    a literal that is not white space. *)
Ltac use_one_line :=
  repeat match goal with
         | H : one_line _ = true |- _ =>
             apply one_line_parts in H; destruct H as [? ?]
         end.

Ltac rewrite_lines :=
  repeat match goal with
         | H : no_newline ?x = true |- context [no_newline ?x] => rewrite H
         | H : no_tab ?x = true |- context [no_tab ?x] => rewrite H
         end.

Ltac plain_lines :=
  cbn [forallb]; rewrite ?andb_true_r;
  repeat match goal with
         | |- (_ && _) = true => apply andb_true_intro; split
         end;
  (apply plain_line_intro;
   [ rewrite ?no_newline_app; rewrite_lines; reflexivity
   | rewrite ?no_tab_app; rewrite_lines; reflexivity
   | rewrite ?existsb_app; cbn; rewrite ?orb_true_r; reflexivity ]).

(** X9: a forward declaration of a structure is rendered on two lines, an
    empty class of the name derived from [Structure]. *)
Theorem forward_declaration_text (name : text) :
  one_line name = true ->
  StructureForwardDeclaration.to_str name
  = str "class " ++ name ++ str "(Structure):" ++ nl ++ str "    pass".
Proof.
  intros H. use_one_line. unfold StructureForwardDeclaration.to_str.
  pose proof (cleandoc_block 12 (str "class " ++ name ++ str "(Structure):")
                [str "    pass"] 8) as D.
  cbn [map List.concat join] in D. rewrite <- !app_assoc in D.
  cbn [List.concat]. rewrite <- ?app_assoc, ?app_nil_r in *.
  change (spaces 16) with (spaces 12 ++ str "    ").
  rewrite <- ?app_assoc. apply D; [plain_lines|reflexivity|lia].
Qed.

(** *** Structures *)

Lemma fold_left_app_acc {A} (g : A -> text) (l : list A) (acc : text) :
  fold_left (fun r a => r ++ g a) l acc = acc ++ List.concat (map g l).
Proof.
  revert acc. induction l as [|a l IH]; intros acc; cbn [fold_left map List.concat].
  - rewrite app_nil_r. reflexivity.
  - rewrite IH, <- app_assoc. reflexivity.
Qed.

Lemma field_lines_concat fs :
  Struct.field_lines fs
  = List.concat (map (fun f => nl ++ spaces 20 ++ StructField.to_str f) fs).
Proof.
  unfold Struct.field_lines.
  rewrite (fold_left_app_acc (fun f => nl ++ spaces 20 ++ StructField.to_str f)).
  reflexivity.
Qed.

Lemma shift_newlines {A} (g : A -> text) (l : list A) :
  List.concat (map (fun a => nl ++ g a) l) ++ nl
  = nl ++ List.concat (map (fun a => g a ++ nl) l).
Proof.
  induction l as [|a l IH]; [reflexivity|].
  cbn [map List.concat]. rewrite <- !app_assoc, IH. reflexivity.
Qed.

Lemma plain_field_line f :
  one_line (StructField.to_str f) = true ->
  plain_line (str "        " ++ StructField.to_str f) = true.
Proof.
  intros H. use_one_line. apply plain_line_intro.
  - rewrite no_newline_app. rewrite_lines. reflexivity.
  - rewrite no_tab_app. rewrite_lines. reflexivity.
  - unfold StructField.to_str. rewrite ?existsb_app. cbn. rewrite ?orb_true_r.
    reflexivity.
Qed.

(** X10: a structure without a docstring is rendered as a class of the
    translated name and of its bases, with the list [_fields_] that holds
    one line for each field, in the order in which the fields were added. *)
Theorem struct_text (s : Struct.t) :
  truthy (Struct.docstring s) = false ->
  one_line (translate_type (Struct.name s)) = true ->
  one_line (Struct.bases s) = true ->
  Forall (fun f => one_line (StructField.to_str f) = true) (Struct.fields s) ->
  Struct.to_str s
  = join nl
      ((str "class " ++ translate_type (Struct.name s) ++ str "("
        ++ Struct.bases s ++ str "):")
       :: str "    _fields_ = ["
       :: map (fun f => str "        " ++ StructField.to_str f) (Struct.fields s)
       ++ [str "    ]"]).
Proof.
  intros Hd HN HB HF. use_one_line. unfold Struct.to_str. rewrite Hd.
  set (N := translate_type (Struct.name s)) in *.
  set (B := Struct.bases s) in *.
  set (fs := Struct.fields s) in *.
  rewrite <- (cleandoc_block 12 _ _ 8).
  - f_equal. unfold Struct.template. cbn [List.concat map]. rewrite ?app_nil_r.
    rewrite <- !app_assoc. rewrite app_nil_l. do 8 f_equal.
    rewrite map_app, concat_app. cbn [map List.concat]. rewrite ?app_nil_r.
    rewrite <- !app_assoc.
    change (spaces 16) with (spaces 12 ++ str "    ").
    rewrite <- !app_assoc. f_equal.
    change (str "    _fields_ = [") with (str "    " ++ str "_fields_ = [").
    rewrite <- !app_assoc. do 2 f_equal.
    rewrite field_lines_concat.
    rewrite (app_assoc _ nl), (shift_newlines (fun f => spaces 20 ++ StructField.to_str f)).
    rewrite <- !app_assoc. f_equal. f_equal.
    rewrite map_map. reflexivity.
  - cbn [forallb]. rewrite forallb_app. cbn [forallb].
    repeat match goal with
           | |- (_ && _) = true => apply andb_true_intro; split
           end; try reflexivity.
    + apply plain_line_intro;
        [ rewrite ?no_newline_app; rewrite_lines; reflexivity
        | rewrite ?no_tab_app; rewrite_lines; reflexivity
        | rewrite ?existsb_app; cbn; rewrite ?orb_true_r; reflexivity ].
    + apply forallb_forall. intros l Hl. apply in_map_iff in Hl.
      destruct Hl as (f & <- & Hf). apply plain_field_line.
      rewrite Forall_forall in HF. apply HF, Hf.
  - reflexivity.
  - lia.
Qed.

(** *** Functions *)

Lemma one_line_app a b : one_line (a ++ b) = one_line a && one_line b.
Proof.
  unfold one_line. rewrite no_newline_app, no_tab_app.
  destruct (no_newline a), (no_newline b), (no_tab a), (no_tab b); reflexivity.
Qed.

Lemma one_line_join sep l :
  one_line sep = true -> Forall (fun x => one_line x = true) l ->
  one_line (join sep l) = true.
Proof.
  intros Hs. induction 1 as [|x l Hx Hl IH]; [reflexivity|].
  destruct l as [|y l]; [exact Hx|].
  cbn [join] in *. rewrite !one_line_app, Hx, Hs, IH. reflexivity.
Qed.

Lemma one_line_lower c : one_line [lower c] = one_line [c].
Proof.
  ascii_fact (fun c => Bool.eqb (one_line [lower c]) (one_line [c])) c.
  apply eqb_prop in E. exact E.
Qed.

Lemma one_line_skipn k s : one_line s = true -> one_line (skipn k s) = true.
Proof.
  revert s. induction k as [|k IH]; intros s H; [exact H|].
  destruct s as [|c s]; [reflexivity|]. cbn [skipn]. apply IH.
  change (c :: s) with ([c] ++ s) in H. rewrite one_line_app in H.
  apply andb_true_iff in H. apply H.
Qed.

Lemma one_line_python_name f py_name :
  one_line (Func.name f) = true ->
  downcase_first (Func.python_name f) = Some py_name ->
  one_line py_name = true.
Proof.
  intros H E.
  assert (Hp : one_line (Func.python_name f) = true).
  { unfold Func.python_name. destruct (startswith _ _); [apply one_line_skipn|]; exact H. }
  destruct (Func.python_name f) as [|c n]; [discriminate|].
  cbn [downcase_first] in E. injection E as <-.
  change (c :: n) with ([c] ++ n) in Hp. change (lower c :: n) with ([lower c] ++ n).
  rewrite one_line_app in *. rewrite one_line_lower. exact Hp.
Qed.

Lemma tidy_parts p :
  tidy_parameter p = true ->
  one_line (Param.name p) = true
  /\ one_line (text_of (Param.default_value p)) = true
  /\ one_line (translate_type (spelling (Param.type_ p))) = true
  /\ one_line (translate_type (spelling (get_pointee (Param.type_ p)))) = true.
Proof.
  unfold tidy_parameter. intros H.
  apply andb_true_iff in H. destruct H as [H H4].
  apply andb_true_iff in H. destruct H as [H H3].
  apply andb_true_iff in H. destruct H as [H1 H2]. auto.
Qed.

Lemma tidy_signature_name p : tidy_parameter p = true -> one_line (Func.signature_name p) = true.
Proof.
  intros H. apply tidy_parts in H. destruct H as (Hn & Hd & _).
  unfold Func.signature_name. destruct (truthy (Param.default_value p)); [|exact Hn].
  rewrite !one_line_app, Hn, Hd. reflexivity.
Qed.

Lemma tidy_call_argument p : tidy_parameter p = true -> one_line (Func.call_argument p) = true.
Proof.
  intros H. apply tidy_parts in H. destruct H as (Hn & _).
  unfold Func.call_argument.
  destruct (TypeKind_eqb _ _); [destruct (is_const_qualified _)|]; try exact Hn.
  rewrite !one_line_app, Hn. reflexivity.
Qed.

Lemma Forall_tidy ps (g : Param.t -> text) :
  (forall p, tidy_parameter p = true -> one_line (g p) = true) ->
  forallb tidy_parameter ps = true ->
  Forall (fun x => one_line x = true) (map g ps).
Proof.
  intros Hg H. apply Forall_map. apply Forall_forall. intros p Hp.
  rewrite forallb_forall in H. apply Hg, H, Hp.
Qed.

Lemma last_error_in ps init e :
  last_error ps init = Some e -> init = Some e \/ In e ps.
Proof.
  revert init. induction ps as [|p ps IH]; intros init H; [left; exact H|].
  unfold last_error in H. cbn [fold_left] in H.
  apply IH in H. destruct H as [H|H]; [|right; right; exact H].
  destruct (Param.is_error p); [injection H as ->; right; left; reflexivity|left; exact H].
Qed.

(** X11: the wrapper of a function without a docstring, as [inspect.cleandoc]
    leaves it, when the names and the translated types are each on one
    line.  Two assignments set the result and argument types of the native
    function; the wrapper takes the parameters that are not error outputs,
    calls the native function with every parameter and returns the result;
    around the call, the last error output, if there is one, is allocated
    and then handed to [_checkInitError]. *)
Theorem function_wrapper_text (f : Func.t) (py_name : text) :
  truthy (Func.docstring f) = false ->
  downcase_first (Func.python_name f) = Some py_name ->
  one_line (Func.name f) = true ->
  one_line (translate_type (spelling (Func.type_ f))) = true ->
  forallb tidy_parameter (Func.parameters f) = true ->
  let ps := Func.parameters f in
  let args :=
    join (str ", ")
         (map Func.signature_name (filter (fun p => negb (Param.is_error p)) ps)) in
  let call :=
    str "    result =     _openvr." ++ Func.name f ++ str "("
    ++ join (str ", ") (map Func.call_argument ps) ++ str ")" in
  Func.to_str f
  = Returned
      (join nl
         ([str "_openvr." ++ Func.name f ++ str ".restype = "
           ++ translate_type (spelling (Func.type_ f));
           str "_openvr." ++ Func.name f ++ str ".argtypes = ["
           ++ join (str ", ") (map (fun p => translate_type (spelling (Param.type_ p))) ps)
           ++ str "]";
           str "def " ++ py_name ++ str "(" ++ args ++ str "):"]
          ++ match last_error ps None with
             | None => [call; str "    return result"]
             | Some e =>
                 [str "    " ++ Param.name e ++ str " = "
                  ++ translate_type (spelling (get_pointee (Param.type_ e))) ++ str "()";
                  call;
                  str "    _checkInitError(" ++ Param.name e ++ str ".value)";
                  str "    return result"]
             end)).
Proof.
  intros Hd Hn HN HR HP ps args call.
  rewrite (to_str_collected f py_name Hn). cbv zeta. rewrite Hd. fold ps. fold args.
  pose proof (one_line_python_name f py_name HN Hn) as Hpy.
  assert (Hargs : one_line args = true).
  { apply one_line_join; [reflexivity|]. apply Forall_map, Forall_forall.
    intros p Hp. apply filter_In in Hp. destruct Hp as [Hp _].
    apply tidy_signature_name. rewrite forallb_forall in HP. apply HP, Hp. }
  set (call_args := join (str ", ") (map Func.call_argument ps)) in *.
  assert (Hcall : one_line call_args = true).
  { apply one_line_join; [reflexivity|]. apply Forall_tidy; [|exact HP].
    apply tidy_call_argument. }
  set (arg_types := join (str ", ")
                      (map (fun p => translate_type (spelling (Param.type_ p))) ps)) in *.
  assert (Htys : one_line arg_types = true).
  { apply one_line_join; [reflexivity|]. apply Forall_tidy; [|exact HP].
    intros p Hp. apply tidy_parts in Hp. apply Hp. }
  set (restype := translate_type (spelling (Func.type_ f))) in *.
  set (name := Func.name f) in *.
  destruct (last_error ps None) as [e|] eqn:Ee.
  - assert (He : In e ps).
    { apply last_error_in in Ee. destruct Ee as [Ee|Ee]; [discriminate|exact Ee]. }
    rewrite forallb_forall in HP. apply HP, tidy_parts in He.
    destruct He as (Hen & _ & _ & Het).
    set (etype := translate_type (spelling (get_pointee (Param.type_ e)))) in *.
    set (ename := Param.name e) in *.
    use_one_line. f_equal. cbn [app].
    rewrite <- (cleandoc_block 16 _ _ 12).
    + f_equal. unfold Func.error_template, call. cbn [List.concat map].
      rewrite <- ?app_assoc, ?app_nil_r. reflexivity.
    + unfold call. plain_lines.
    + reflexivity.
    + lia.
  - use_one_line. f_equal. cbn [app].
    rewrite <- (cleandoc_block 16 _ _ 12).
    + f_equal. unfold Func.plain_template, call. cbn [List.concat map].
      rewrite <- ?app_assoc, ?app_nil_r. reflexivity.
    + unfold call. plain_lines.
    + reflexivity.
    + lia.
Qed.

(** ** The translator reads its argument through [normalize] *)

Lemma translate_type_of_normalize s s' b :
  normalize s = normalize s' -> translate_type_b s b = translate_type_b s' b.
Proof.
  intros E.
  pose proof (translate_type_fuel_enough (S (S (weight s + weight s'))) s b ltac:(lia)) as H.
  pose proof (translate_type_fuel_enough (S (S (weight s + weight s'))) s' b ltac:(lia)) as H'.
  rewrite translate_type_fuel_S in H, H'. rewrite E in H. congruence.
Qed.

(** ** White space around a spelling *)

Lemma lstrip_blank b : forallb is_space b = true -> lstrip b = [].
Proof.
  induction b as [|c b IH]; [reflexivity|]. cbn [forallb lstrip]. intros H.
  apply andb_true_iff in H. destruct H as [Hc Hb]. rewrite Hc. apply IH, Hb.
Qed.

Lemma lstrip_app_blank a y : forallb is_space a = true -> lstrip (a ++ y) = lstrip y.
Proof.
  induction a as [|c a IH]; [reflexivity|]. cbn [forallb app lstrip]. intros H.
  apply andb_true_iff in H. destruct H as [Hc Ha]. rewrite Hc. apply IH, Ha.
Qed.

Lemma forallb_rev {A} (q : A -> bool) (l : list A) : forallb q (rev l) = forallb q l.
Proof.
  induction l as [|a l IH]; [reflexivity|]. cbn [rev forallb].
  rewrite forallb_app, IH. cbn [forallb]. rewrite andb_true_r. apply andb_comm.
Qed.

Lemma rstrip_app_blank y b : forallb is_space b = true -> rstrip (y ++ b) = rstrip y.
Proof.
  intros H. unfold rstrip. rewrite rev_app_distr, lstrip_app_blank; [reflexivity|].
  rewrite forallb_rev. exact H.
Qed.

Lemma strip_padded a x b :
  forallb is_space a = true -> forallb is_space b = true ->
  strip (a ++ x ++ b) = strip x.
Proof.
  intros Ha Hb. unfold strip. rewrite (lstrip_app_blank a _ Ha).
  induction x as [|c x IH].
  - cbn [app lstrip]. rewrite (lstrip_blank b Hb). reflexivity.
  - cbn [app lstrip]. destruct (is_space c); [exact IH|].
    change (c :: x ++ b) with ((c :: x) ++ b). apply rstrip_app_blank, Hb.
Qed.

Lemma lstrip_twice s : lstrip (lstrip s) = lstrip s.
Proof.
  induction s as [|c s IH]; [reflexivity|]. cbn [lstrip].
  destruct (is_space c) eqn:E; [exact IH|]. cbn [lstrip]. rewrite E. reflexivity.
Qed.

Lemma lstrip_rstrip_head s :
  match s with c :: _ => is_space c = false | [] => True end ->
  lstrip (rstrip s) = rstrip s.
Proof.
  intros H. destruct s as [|c s]; [reflexivity|].
  unfold rstrip. cbn [rev].
  assert (G : forall l, lstrip (rev (lstrip (l ++ [c]))) = rev (lstrip (l ++ [c]))).
  { induction l as [|d l IHl]; cbn [app lstrip].
    - rewrite H. cbn [rev app lstrip]. rewrite H. reflexivity.
    - destruct (is_space d); [exact IHl|].
      change (d :: l ++ [c]) with ((d :: l) ++ [c]). rewrite rev_app_distr.
      cbn [rev app lstrip]. rewrite H. reflexivity. }
  apply G.
Qed.

Lemma strip_twice s : strip (strip s) = strip s.
Proof.
  unfold strip. rewrite lstrip_rstrip_head.
  - unfold rstrip. rewrite rev_involutive, lstrip_twice. reflexivity.
  - induction s as [|c s IH]; [exact I|]. cbn [lstrip].
    destruct (is_space c) eqn:E; [exact IH|exact E].
Qed.

Lemma normalize_strip s : normalize (strip s) = normalize s.
Proof. unfold normalize, strip_noise. rewrite strip_twice. reflexivity. Qed.

(** X12: white space around a spelling is not read.  The translation of a
    spelling is that of the spelling without its leading and trailing white
    space, so that padding a spelling with white space changes nothing. *)
Theorem translate_type_padded (a x b : text) (bracket : bool) :
  forallb is_space a = true -> forallb is_space b = true ->
  translate_type_b (a ++ x ++ b) bracket = translate_type_b x bracket
  /\ translate_type_b (strip x) bracket = translate_type_b x bracket.
Proof.
  intros Ha Hb. split; apply translate_type_of_normalize.
  - rewrite <- (normalize_strip (a ++ x ++ b)), (strip_padded a x b Ha Hb).
    apply normalize_strip.
  - apply normalize_strip.
Qed.

(** ** Qualifiers *)

Lemma sub_scan_skip r repl :
  forall l pre rest,
    sub_scan r repl pre (l ++ rest) (List.length l) = sub_scan r repl (rev l ++ pre) rest 0.
Proof.
  induction l as [|c l IH]; intros pre rest; [reflexivity|].
  cbn [app List.length sub_scan rev]. rewrite IH, <- app_assoc. reflexivity.
Qed.

Lemma sub_scan_still (phi : text -> bool) (r : regex) repl :
  inherited phi ->
  (forall pre s rest cs cs', Matches r pre s rest cs cs' -> phi s = true) ->
  forall rest pre, phi rest = false -> sub_scan r repl pre rest 0 = rest.
Proof.
  intros Hphi Hr.
  assert (N : forall pre rest, phi rest = false -> match_at r pre rest = None).
  { intros pre rest H. destruct (match_at r pre rest) as [[rest' cs]|] eqn:E; auto.
    apply match_at_sound in E. destruct E as (s & -> & M). apply Hr in M.
    pose proof (Hphi [] s rest' M) as P. cbn [app] in P. congruence. }
  induction rest as [|c rest IH]; intros pre H; cbn [sub_scan].
  - rewrite N; auto.
  - rewrite N by exact H. f_equal. apply IH.
    destruct (phi rest) eqn:E; [|reflexivity].
    pose proof (Hphi [c] rest [] E) as P. rewrite app_nil_r in P. cbn [app] in P. congruence.
Qed.

Lemma re_sub_lead r (c0 : ascii) (lead x : text) cs :
  match_at r [] (c0 :: lead ++ x) = Some (x, cs) ->
  (forall pre, sub_scan r [] pre x 0 = x) ->
  re_sub r EmptyString (c0 :: lead ++ x) = x.
Proof.
  intros M Q. unfold re_sub. change (str EmptyString) with (@nil ascii).
  cbn [sub_scan]. rewrite M.
  replace (List.length (c0 :: lead ++ x) - List.length x) with (S (List.length lead))
    by (cbn [List.length]; rewrite length_app; lia).
  cbn [app]. rewrite sub_scan_skip. apply Q.
Qed.

Lemma bare_parts x : bare x = true ->
  (exists c x', x = c :: x' /\ is_space c = false)
  /\ existsb is_space x = false
  /\ has_sub (str "const") x = false /\ has_sub (str "struct") x = false
  /\ has_sub (str "enum") x = false.
Proof.
  unfold bare. intros H.
  repeat (apply andb_true_iff in H; destruct H as [H ?]).
  repeat match goal with H : negb _ = true |- _ => apply negb_true_iff in H end.
  split; [|auto].
  destruct x as [|c x']; [discriminate|]. exists c, x'. split; [reflexivity|].
  match goal with H : existsb is_space _ = false |- _ =>
    cbn [existsb] in H; apply orb_false_iff in H; apply H end.
Qed.

Ltac run_literal :=
  cbn [Seq fold_right Lit Plus str list_ascii_of_string map run app
       at_wordb head_is_word xorb is_word is_digit is_chr star_run
       not_chr Ascii.eqb Bool.eqb negb non_space is_space in_range is_code code
       N_of_ascii N_of_digits N.leb N.eqb N.compare Pos.compare Pos.compare_cont
       Pos.eqb N.add N.mul Pos.add Pos.mul Pos.succ andb orb existsb one_of].

Lemma const_lead_match c x :
  is_space c = false ->
  match_at rx_const_lead [] (str "const " ++ c :: x) = Some (c :: x, []).
Proof.
  intros H. unfold match_at, rx_const_lead. run_literal. rewrite H. reflexivity.
Qed.

Lemma struct_lead_match c x :
  is_space c = false ->
  match_at rx_struct [] (str "struct " ++ c :: x) = Some (c :: x, []).
Proof.
  intros H. unfold match_at, rx_struct. run_literal. rewrite H. reflexivity.
Qed.

Lemma enum_lead_match c x :
  is_space c = false ->
  match_at rx_enum [] (str "enum " ++ c :: x) = Some (c :: x, []).
Proof.
  intros H. unfold match_at, rx_enum. run_literal. rewrite H. reflexivity.
Qed.

Lemma union_lead_match c x :
  is_space c = false ->
  match_at rx_union [] (str "union " ++ c :: x) = Some (c :: x, []).
Proof.
  intros H. unfold match_at, rx_union. run_literal. rewrite H. reflexivity.
Qed.

(** What the qualifier patterns need, as literals. *)
Ltac needs_word r :=
  intros pre s rest cs cs' M;
  cbv [r Seq fold_right Plus Lit Opt str list_ascii_of_string map] in M;
  inv_matches; literal_chars;
  repeat first [ reflexivity | apply has_sub_app_l | apply has_sub_app_r ].

Lemma rx_const_lead_word :
  forall pre s rest cs cs', Matches rx_const_lead pre s rest cs cs' ->
    has_sub (str "const") s = true.
Proof. needs_word rx_const_lead. Qed.

Lemma rx_const_trail_word :
  forall pre s rest cs cs', Matches rx_const_trail pre s rest cs cs' ->
    has_sub (str "const") s = true.
Proof.
  intros pre s rest cs cs' M.
  cbv [rx_const_trail Seq fold_right Plus Lit Opt str list_ascii_of_string map] in M.
  inv_matches; literal_chars. apply has_sub_app_r. reflexivity.
Qed.

Lemma rx_struct_word :
  forall pre s rest cs cs', Matches rx_struct pre s rest cs cs' ->
    has_sub (str "struct") s = true.
Proof. needs_word rx_struct. Qed.

Lemma rx_enum_word :
  forall pre s rest cs cs', Matches rx_enum pre s rest cs cs' ->
    has_sub (str "enum") s = true.
Proof. needs_word rx_enum. Qed.

Lemma strip_ends c0 m x :
  is_space c0 = false -> bare x = true -> strip (c0 :: m ++ x) = c0 :: m ++ x.
Proof.
  intros H0 Hx. destruct (bare_parts x Hx) as ((c & x' & Ex & Hc) & Hs & _).
  unfold strip. cbn [lstrip]. rewrite H0. unfold rstrip.
  assert (R : exists d l, rev (c0 :: m ++ x) = d :: l /\ is_space d = false).
  { cbn [rev]. rewrite rev_app_distr.
    destruct (rev x) as [|d l] eqn:E.
    - apply (f_equal (@List.length ascii)) in E. rewrite length_rev, Ex in E. discriminate.
    - exists d, ((l ++ rev m) ++ [c0]). split; [reflexivity|].
      assert (Hr : existsb is_space (rev x) = false) by (rewrite existsb_rev; exact Hs).
      rewrite E in Hr. cbn [existsb] in Hr. apply orb_false_iff in Hr. apply Hr. }
  destruct R as (d & l & R & Hd). rewrite R. cbn [lstrip]. rewrite Hd, <- R.
  apply rev_involutive.
Qed.

Lemma strip_noise_bare x : bare x = true -> strip_noise x = x.
Proof.
  intros Hx. destruct (bare_parts x Hx) as (_ & Hs & _).
  unfold strip_noise. rewrite (strip_id x Hs).
  rewrite (re_sub_quiet _ (existsb_inherited _) _ rx_const_lead_needs) by exact Hs.
  rewrite (re_sub_quiet _ (existsb_inherited _) _ rx_const_trail_needs) by exact Hs.
  rewrite (re_sub_quiet _ (existsb_inherited _) _ rx_struct_needs) by exact Hs.
  rewrite (re_sub_quiet _ (existsb_inherited _) _ rx_enum_needs) by exact Hs.
  rewrite (re_sub_quiet _ (existsb_inherited _) _ rx_union_needs) by exact Hs.
  reflexivity.
Qed.

(** A word without a blank is not found across the blank after a
    qualifier. *)
Lemma word_after_qualifier lit q x :
  lit <> [] -> existsb (Ascii.eqb " ") lit = false ->
  has_sub lit q = false -> has_sub lit x = false ->
  has_sub lit (q ++ " "%char :: x) = false.
Proof.
  intros Hn Hb Hq Hx. rewrite (has_sub_sep lit q " " x Hn Hb), Hq, Hx. reflexivity.
Qed.

Ltac still_by_word needs :=
  rewrite (re_sub_quiet _ (has_sub_inherited _) _ needs)
    by (apply word_after_qualifier; [discriminate|reflexivity|reflexivity|assumption]).

Ltac still_by_space needs :=
  rewrite (re_sub_quiet _ (existsb_inherited _) _ needs) by assumption.

Lemma strip_noise_qualified x :
  bare x = true ->
  strip_noise (str "const " ++ x) = x
  /\ strip_noise (str "struct " ++ x) = x
  /\ strip_noise (str "enum " ++ x) = x
  /\ strip_noise (str "union " ++ x) = x.
Proof.
  intros Hx. pose proof (bare_parts x Hx) as ((c & x' & Ex & Hc) & Hs & Hco & Hst & Hen).
  assert (Q : forall r, (forall pre s rest cs cs', Matches r pre s rest cs cs' ->
                                           existsb is_space s = true) ->
                        forall pre, sub_scan r [] pre x 0 = x).
  { intros r Hr pre. apply (sub_scan_still (existsb is_space)); auto.
    apply existsb_inherited. }
  unfold strip_noise. repeat split.
  - change (str "const " ++ x) with ("c"%char :: str "onst " ++ x).
    rewrite (strip_ends "c"%char (str "onst ") x eq_refl Hx).
    rewrite (re_sub_lead rx_const_lead _ _ x []).
    + still_by_space rx_const_trail_needs. still_by_space rx_struct_needs.
      still_by_space rx_enum_needs. still_by_space rx_union_needs. reflexivity.
    + rewrite Ex. apply (const_lead_match c x' Hc).
    + apply Q, rx_const_lead_needs.
  - change (str "struct " ++ x) with ("s"%char :: str "truct " ++ x).
    rewrite (strip_ends "s"%char (str "truct ") x eq_refl Hx).
    change ("s"%char :: str "truct " ++ x) with (str "struct" ++ " "%char :: x).
    still_by_word rx_const_lead_word. still_by_word rx_const_trail_word.
    change (str "struct" ++ " "%char :: x) with ("s"%char :: str "truct " ++ x).
    rewrite (re_sub_lead rx_struct _ _ x []).
    + still_by_space rx_enum_needs. still_by_space rx_union_needs. reflexivity.
    + rewrite Ex. apply (struct_lead_match c x' Hc).
    + apply Q, rx_struct_needs.
  - change (str "enum " ++ x) with ("e"%char :: str "num " ++ x).
    rewrite (strip_ends "e"%char (str "num ") x eq_refl Hx).
    change ("e"%char :: str "num " ++ x) with (str "enum" ++ " "%char :: x).
    still_by_word rx_const_lead_word. still_by_word rx_const_trail_word.
    still_by_word rx_struct_word.
    change (str "enum" ++ " "%char :: x) with ("e"%char :: str "num " ++ x).
    rewrite (re_sub_lead rx_enum _ _ x []).
    + still_by_space rx_union_needs. reflexivity.
    + rewrite Ex. apply (enum_lead_match c x' Hc).
    + apply Q, rx_enum_needs.
  - change (str "union " ++ x) with ("u"%char :: str "nion " ++ x).
    rewrite (strip_ends "u"%char (str "nion ") x eq_refl Hx).
    change ("u"%char :: str "nion " ++ x) with (str "union" ++ " "%char :: x).
    still_by_word rx_const_lead_word. still_by_word rx_const_trail_word.
    still_by_word rx_struct_word. still_by_word rx_enum_word.
    change (str "union" ++ " "%char :: x) with ("u"%char :: str "nion " ++ x).
    rewrite (re_sub_lead rx_union _ _ x []).
    + reflexivity.
    + rewrite Ex. apply (union_lead_match c x' Hc).
    + apply Q, rx_union_needs.
Qed.

(** X13: a qualifier before a bare spelling is not read: with [const],
    [struct], [enum] or [union] and a blank before it, a spelling is
    translated as it is without them. *)
Theorem qualifier_is_dropped (x : text) (bracket : bool) :
  bare x = true ->
  translate_type_b (str "const " ++ x) bracket = translate_type_b x bracket
  /\ translate_type_b (str "struct " ++ x) bracket = translate_type_b x bracket
  /\ translate_type_b (str "enum " ++ x) bracket = translate_type_b x bracket
  /\ translate_type_b (str "union " ++ x) bracket = translate_type_b x bracket.
Proof.
  intros Hx. destruct (strip_noise_qualified x Hx) as (E1 & E2 & E3 & E4).
  pose proof (strip_noise_bare x Hx) as E0.
  repeat split; apply translate_type_of_normalize; unfold normalize;
    rewrite ?E1, ?E2, ?E3, ?E4, E0; reflexivity.
Qed.

Local Open Scope char_scope.

(** ** Pointers to named types *)

Lemma named_inv y : named y = true ->
  exists a b tl, y = a :: b :: tl
    /\ one_of ["f"; "i"; "u"; "d"; "c"; "s"; "l"] a = false
    /\ text_eqb y (str "None") = false.
Proof.
  destruct y as [|a [|b tl]]; try discriminate. cbn [named]. intros H.
  apply andb_true_iff in H. destruct H as [H1 H2].
  apply negb_true_iff in H1, H2. exists a, b, tl. auto.
Qed.

(** The first character of a text that a pattern matches from its start. *)
Lemma primitive_opens s m :
  re_match rx_primitive s = Some m ->
  exists a tl, s = a :: tl /\ one_of ["f"; "i"; "u"; "d"; "c"; "s"; "l"] a = true.
Proof.
  intros H. apply re_match_sound in H. destruct H as (seg & rest & -> & M).
  cbv [rx_primitive Seq Alts fold_right Plus Lit Opt str list_ascii_of_string map] in M.
  inv_matches; literal_chars; cbn [app]; eexists; eexists; split; reflexivity.
Qed.

Lemma char_p_opens s m :
  re_match rx_char_p s = Some m ->
  exists a tl, s = a :: tl /\ (is_space a = true \/ a = "c").
Proof.
  intros H. apply re_match_sound in H. destruct H as (seg & rest & -> & M).
  cbv [rx_char_p Seq fold_right Plus Lit Opt str list_ascii_of_string map] in M.
  inv_matches; literal_chars;
    match goal with
    | H : forallb is_space ?w = true |- _ =>
        destruct w as [|a w];
        [ cbn [app]; eexists; eexists; split; [reflexivity|right; reflexivity]
        | cbn [forallb] in H; apply andb_true_iff in H; destruct H as [H _];
          cbn [app]; eexists; eexists; split; [reflexivity|left; exact H] ]
    end.
Qed.

Lemma named_not_primitive y tl :
  named y = true -> matches rx_primitive (y ++ tl) = false.
Proof.
  intros H. apply named_inv in H. destruct H as (a & b & t & -> & Ha & _).
  unfold matches. destruct (re_match rx_primitive ((a :: b :: t) ++ tl)) as [m|] eqn:E;
    [|reflexivity].
  apply primitive_opens in E. destruct E as (a' & tl' & E & Ha').
  injection E as <- _. congruence.
Qed.

Lemma named_not_char_p y tl :
  named y = true -> existsb is_space y = false -> matches rx_char_p (y ++ tl) = false.
Proof.
  intros H Hs. apply named_inv in H. destruct H as (a & b & t & -> & Ha & _).
  unfold matches. destruct (re_match rx_char_p ((a :: b :: t) ++ tl)) as [m|] eqn:E;
    [|reflexivity].
  apply char_p_opens in E. destruct E as (a' & tl' & E & Ha').
  injection E as <- _. cbn [existsb] in Hs. apply orb_false_iff in Hs.
  destruct Hs as [Hs _]. destruct Ha' as [Ha'| ->]; [congruence|discriminate].
Qed.

Lemma named_not_unsigned y tl :
  named y = true -> text_eqb (y ++ tl) (str "unsigned") = false.
Proof.
  intros H. apply named_inv in H. destruct H as (a & b & t & -> & Ha & _).
  destruct (text_eqb ((a :: b :: t) ++ tl) (str "unsigned")) eqn:E; [|reflexivity].
  apply text_eqb_eq in E. injection E as -> _. discriminate.
Qed.

Lemma normalize_named_stars y j :
  settled y = true -> named y = true -> normalize (y ++ stars j) = y ++ stars j.
Proof.
  intros Hs Hn. pose proof (settled_parts y Hs) as (Hc & _).
  pose proof (calm_parts y Hc) as (Hsp & _).
  rewrite normalize_calm.
  - unfold prepend_c. rewrite (named_not_primitive y _ Hn). reflexivity.
  - apply calm_stars, Hc.
  - apply named_not_unsigned, Hn.
  - apply named_not_char_p; assumption.
Qed.

Lemma named_ends y : named y = true -> exists c0 mid cl, y = c0 :: mid ++ [cl].
Proof.
  intros H. apply named_inv in H. destruct H as (a & b & t & -> & _).
  exists a, (removelast (b :: t)), (last (b :: t) a). f_equal.
  apply app_removelast_last. discriminate.
Qed.

Lemma named_match_one y : settled y = true -> named y = true ->
  re_match rx_pointer (y ++ ["*"]) = Some [(2, []); (1, y)].
Proof.
  intros Hs Hn. destruct (settled_chars y Hs) as [Hx Hp].
  destruct (named_ends y Hn) as (c0 & mid & cl & ->).
  change ((c0 :: mid ++ [cl]) ++ ["*"]) with (c0 :: (mid ++ [cl]) ++ ["*"]).
  rewrite <- app_assoc. apply rx_pointer_one_star; auto.
  simpl in Hp. apply andb_true_iff in Hp. destruct Hp as [_ Hp].
  rewrite forallb_app in Hp. apply andb_true_iff in Hp. destruct Hp as [_ Hp].
  simpl in Hp. rewrite andb_true_r in Hp. exact Hp.
Qed.

Lemma named_match_two y j : settled y = true -> named y = true ->
  re_match rx_pointer (y ++ stars (S (S j))) = Some [(2, stars j); (1, y ++ ["*"])].
Proof.
  intros Hs Hn. destruct (settled_chars y Hs) as [Hx _].
  destruct (named_ends y Hn) as (c0 & mid & cl & E).
  rewrite E in *.
  change ((c0 :: mid ++ [cl]) ++ stars (S (S j)))
    with (c0 :: (mid ++ [cl]) ++ "*" :: "*" :: stars j).
  change ((c0 :: mid ++ [cl]) ++ ["*"]) with (c0 :: (mid ++ [cl]) ++ ["*"]).
  apply rx_pointer_two_stars; auto.
  unfold stars. clear. induction j; simpl; auto.
Qed.

Lemma named_pointer_settled y :
  settled y = true -> named y = true -> settled (pointer_to y) = true.
Proof.
  intros Hs Hn. apply settled_pointer_to; [exact Hs|].
  apply named_inv in Hn. destruct Hn as (_ & _ & _ & _ & _ & H). exact H.
Qed.

Lemma named_one_star y n b :
  settled y = true -> named y = true ->
  translate_type_fuel (S (S n)) (y ++ ["*"]) b = Some (pointer_to y).
Proof.
  intros Hs Hn. rewrite translate_type_fuel_S.
  pose proof (normalize_named_stars y 1 Hs Hn) as E. cbn [stars repeat] in E.
  rewrite E. rewrite (rewrite_loop_match _ _ _ _ _ (named_match_one y Hs Hn)).
  cbn [group Nat.eqb].
  rewrite (translate_type_fuel_settled y n false Hs).
  rewrite app_nil_r. fold (pointer_to y).
  pose proof (named_pointer_settled y Hs Hn) as Hs'.
  rewrite (rewrite_loop_settled _ _ _ _ (settled_no_pointer _ Hs')).
  apply after_pointer_loop, Hs'.
Qed.

Lemma named_loop_stars fuel j m y :
  j <= m -> settled y = true -> named y = true ->
  rewrite_loop rx_pointer (fun t => translate_type_fuel (S (S fuel)) t false) m
               (y ++ stars j)
  = Some (nested_pointer j y).
Proof.
  intros Hm Hs Hn. pose proof (named_pointer_settled y Hs Hn) as Hs'.
  destruct j as [|[|j]].
  - cbn [stars repeat]. rewrite app_nil_r.
    apply rewrite_loop_settled, settled_no_pointer, Hs.
  - destruct m as [|m]; [lia|]. cbn [stars repeat].
    rewrite (rewrite_loop_match _ _ _ _ _ (named_match_one y Hs Hn)).
    cbn [group Nat.eqb].
    rewrite (translate_type_fuel_settled y _ false Hs).
    rewrite app_nil_r. fold (pointer_to y).
    apply rewrite_loop_settled, settled_no_pointer, Hs'.
  - destruct m as [|m]; [lia|].
    rewrite (rewrite_loop_match _ _ _ _ _ (named_match_two y j Hs Hn)).
    cbn [group Nat.eqb].
    rewrite (named_one_star y fuel false Hs Hn).
    rewrite pointer_to_app.
    rewrite (pointer_loop_stars fuel j m (pointer_to (pointer_to y)) ltac:(lia)).
    + rewrite !nested_pointer_succ_r. reflexivity.
    + apply settled_pointer_to; auto using wrapped_not_none, wrapped_pointer_to.
    + reflexivity.
Qed.

(** X14: a pointer to a named type.  For a settled name that opens with no
    letter of a primitive, such as the name of a structure, an enumeration
    or an interface, [N] trailing stars give [N] nested [POINTER]
    wrappers around the name itself. *)
Theorem pointer_to_named_type (y : text) (N : nat) :
  settled y = true -> named y = true ->
  translate_type (y ++ stars N) = nested_pointer N y.
Proof.
  intros Hs Hn.
  apply (translate_type_fuel_sound (S (S (S N)))).
  rewrite translate_type_fuel_S, (normalize_named_stars y N Hs Hn).
  rewrite (named_loop_stars N N (S (S N)) y ltac:(lia) Hs Hn).
  apply after_pointer_loop.
  destruct N as [|N]; [exact Hs|].
  change (nested_pointer (S N) y) with (pointer_to (nested_pointer N y)).
  rewrite <- nested_pointer_succ_r.
  apply nested_pointer_good; [apply named_pointer_settled; assumption|reflexivity].
Qed.

(** ** Pointers as the parser spells them *)

Lemma star_run_blanks {A} (kont : text -> text -> option A) k :
  (forall pre, kont pre ["*"] = None) ->
  (forall pre r, kont pre (" " :: r) = None) ->
  forall pre, star_run (not_chr "*") kont pre (repeat " " k ++ ["*"]) = None.
Proof.
  intros H1 H2. induction k as [|k IH]; intros pre; cbn [repeat app star_run].
  - run_classes. apply H1.
  - run_classes. rewrite IH. apply H2.
Qed.

Lemma rx_pointer_blank_star c0 mid cl k :
  forallb (not_chr "*") (c0 :: mid ++ [cl]) = true ->
  non_space cl = true ->
  re_match rx_pointer (c0 :: mid ++ cl :: repeat " " k ++ ["*"])
  = Some [(2, []); (1, c0 :: mid ++ [cl])].
Proof.
  intros H Hcl. simpl in H. apply andb_true_iff in H. destruct H as [H0 Hm].
  rewrite forallb_app in Hm. apply andb_true_iff in Hm. destruct Hm as [Hm Hl].
  simpl in Hl. rewrite andb_true_r in Hl.
  unfold re_match, match_at, rx_pointer. cbn [Seq fold_right Plus run].
  rewrite H0.
  erewrite star_run_back; [|exact Hm|exact Hl| |].
  2:{ apply star_run_blanks.
      - intros pre. run_classes. reflexivity.
      - intros pre r. run_classes. reflexivity. }
  2:{ rewrite Hcl. apply star_run_first.
      - clear. induction k; simpl; auto.
      - run_classes. reflexivity. }
  cbv beta iota.
  rewrite (consumed_eq [] [] []) by reflexivity.
  rewrite (consumed_eq (c0 :: mid ++ cl :: repeat " " k ++ ["*"]) (c0 :: mid ++ [cl])
             (repeat " " k ++ ["*"]))
    by (simpl; rewrite <- app_assoc; reflexivity).
  reflexivity.
Qed.

Lemma rx_unsigned_word :
  forall pre s rest cs cs', Matches rx_unsigned pre s rest cs cs' ->
    has_sub (str "unsigned") s = true.
Proof. needs_word rx_unsigned. Qed.

Lemma rx_union_word :
  forall pre s rest cs cs', Matches rx_union pre s rest cs cs' ->
    has_sub (str "union") s = true.
Proof. needs_word rx_union. Qed.

Lemma rx_long_long_word :
  forall pre s rest cs cs', Matches rx_long_long pre s rest cs cs' ->
    has_sub (str "long") s = true.
Proof. needs_word rx_long_long. Qed.

Lemma wordless_parts s : wordless s = true ->
  has_sub (str "const") s = false /\ has_sub (str "struct") s = false
  /\ has_sub (str "enum") s = false /\ has_sub (str "union") s = false
  /\ has_sub (str "unsigned") s = false /\ has_sub (str "long") s = false.
Proof.
  unfold wordless. cbn [forallb]. intros H.
  repeat (apply andb_true_iff in H; destruct H as [? H]).
  repeat match goal with H : negb _ = true |- _ => apply negb_true_iff in H end.
  repeat split; assumption.
Qed.

(** None of the rewrites before the loops touches a text that is its own
    [strip], holds none of their words, and is not matched by the two tests
    made from the start. *)
Lemma normalize_untouched s :
  strip s = s -> wordless s = true ->
  has_sub (str "8_t") s = false -> has_sub (str "16_t") s = false ->
  has_sub (str "32_t") s = false -> has_sub (str "64_t") s = false ->
  has_sub (str "VR_") s = false ->
  matches rx_char_p s = false -> matches rx_primitive s = false ->
  normalize s = s.
Proof.
  intros Hst Hw H8 H16 H32 H64 Hvr Hcp Hpr.
  destruct (wordless_parts s Hw) as (Hco & Hsu & Hen & Hun & Hus & Hlo).
  unfold normalize, strip_noise. rewrite Hst.
  rewrite (re_sub_quiet _ (has_sub_inherited _) _ rx_const_lead_word _ _ Hco).
  rewrite (re_sub_quiet _ (has_sub_inherited _) _ rx_const_trail_word _ _ Hco).
  rewrite (re_sub_quiet _ (has_sub_inherited _) _ rx_struct_word _ _ Hsu).
  rewrite (re_sub_quiet _ (has_sub_inherited _) _ rx_enum_word _ _ Hen).
  rewrite (re_sub_quiet _ (has_sub_inherited _) _ rx_union_word _ _ Hun).
  assert (Hu : text_eqb s (str "unsigned") = false).
  { destruct (text_eqb s (str "unsigned")) eqn:E; [|reflexivity].
    apply text_eqb_eq in E. subst. discriminate. }
  unfold no_implicit_int. rewrite Hu. unfold abbreviate.
  rewrite (re_sub_quiet _ (has_sub_inherited _) _ rx_width_8_needs _ _ H8).
  rewrite (re_sub_quiet _ (has_sub_inherited _) _ rx_width_16_needs _ _ H16).
  rewrite (re_sub_quiet _ (has_sub_inherited _) _ rx_width_32_needs _ _ H32).
  rewrite (re_sub_quiet _ (has_sub_inherited _) _ rx_width_64_needs _ _ H64).
  rewrite (re_sub_quiet _ (has_sub_inherited _) _ rx_unsigned_word _ _ Hus).
  unfold char_pointer. rewrite Hcp.
  rewrite (re_sub_quiet _ (has_sub_inherited _) _ rx_long_long_word _ _ Hlo).
  unfold prepend_c. rewrite Hpr.
  apply (re_sub_quiet _ (has_sub_inherited _) _ rx_vr_prefix_needs _ _ Hvr).
Qed.

Lemma strip_tight u c0 cl :
  is_space c0 = false -> is_space cl = false ->
  strip (c0 :: u ++ [cl]) = c0 :: u ++ [cl].
Proof.
  intros H0 Hl. unfold strip. cbn [lstrip]. rewrite H0. unfold rstrip.
  change (c0 :: u ++ [cl]) with ((c0 :: u) ++ [cl]).
  rewrite rev_app_distr. cbn [rev app lstrip]. rewrite Hl.
  change (cl :: rev u ++ [c0]) with ([cl] ++ rev (c0 :: u)).
  rewrite rev_app_distr, rev_involutive. reflexivity.
Qed.

Lemma opens_not_primitive a t :
  one_of ["f"; "i"; "u"; "d"; "c"; "s"; "l"] a = false ->
  matches rx_primitive (a :: t) = false.
Proof.
  intros Ha. unfold matches.
  destruct (re_match rx_primitive (a :: t)) as [m|] eqn:E; [|reflexivity].
  apply primitive_opens in E. destruct E as (a' & tl' & E & Ha').
  injection E as <- _. congruence.
Qed.

Lemma opens_not_char_p a t :
  is_space a = false -> a <> "c" -> matches rx_char_p (a :: t) = false.
Proof.
  intros Ha Hc. unfold matches.
  destruct (re_match rx_char_p (a :: t)) as [m|] eqn:E; [|reflexivity].
  apply char_p_opens in E. destruct E as (a' & tl' & E & Ha').
  injection E as <- _. destruct Ha' as [Ha'|Ha']; congruence.
Qed.

Lemma type_name_parts y : type_name y = true ->
  settled y = true /\ named y = true /\ wordless y = true.
Proof.
  unfold type_name. intros H.
  apply andb_true_iff in H. destruct H as [H Hw].
  apply andb_true_iff in H. destruct H as [Hs Hn]. auto.
Qed.

(** A literal without blank, star or colon is found in a dressed name only
    inside the name. *)
Lemma dressed_sub lit p y k j :
  p = [] \/ p = str "vr::" ->
  lit <> [] -> existsb (Ascii.eqb " ") lit = false ->
  existsb (Ascii.eqb "*") lit = false -> existsb (Ascii.eqb ":") lit = false ->
  has_sub lit (str "vr:") = false ->
  has_sub lit (p ++ y ++ repeat " " k ++ stars j) = has_sub lit y.
Proof.
  intros Hp Hn Hb Hs Hc Hv. unfold stars.
  rewrite !app_assoc. rewrite (has_sub_repeat lit _ "*" j Hn Hs).
  rewrite (has_sub_repeat lit _ " " k Hn Hb).
  destruct Hp as [-> | ->]; [reflexivity|].
  change (str "vr::" ++ y) with (str "vr:" ++ ":" :: y).
  rewrite (has_sub_sep lit _ ":" y Hn Hc), Hv. reflexivity.
Qed.

Lemma dressed_opens p y tl :
  p = [] \/ p = str "vr::" -> named y = true -> existsb is_space y = false ->
  exists a t, p ++ y ++ tl = a :: t
    /\ one_of ["f"; "i"; "u"; "d"; "c"; "s"; "l"] a = false
    /\ is_space a = false /\ a <> "c".
Proof.
  intros Hp Hn Hs. destruct Hp as [-> | ->].
  - apply named_inv in Hn. destruct Hn as (a & b & t & -> & Ha & _).
    exists a, ((b :: t) ++ tl). repeat split; auto.
    + cbn [existsb] in Hs. apply orb_false_iff in Hs. apply Hs.
    + intros ->. discriminate.
  - exists "v", (str "r::" ++ y ++ tl). repeat split. discriminate.
Qed.

Lemma normalize_dressed p y k j :
  p = [] \/ p = str "vr::" -> type_name y = true ->
  strip (p ++ y ++ repeat " " k ++ stars j) = p ++ y ++ repeat " " k ++ stars j ->
  normalize (p ++ y ++ repeat " " k ++ stars j) = p ++ y ++ repeat " " k ++ stars j.
Proof.
  intros Hp Hy Hst. destruct (type_name_parts y Hy) as (Hs & Hn & Hw).
  pose proof (settled_parts y Hs) as (Hc & _).
  pose proof (calm_parts y Hc) as (Hsp & (H8 & H16 & H32 & H64) & Hvr).
  destruct (wordless_parts y Hw) as (Hco & Hsu & Hen & Hun & Hus & Hlo).
  destruct (dressed_opens p y (repeat " " k ++ stars j) Hp Hn Hsp)
    as (a & t & E & Ha & Hb & Hcc).
  apply normalize_untouched; try exact Hst;
    try (rewrite (dressed_sub _ p y k j Hp) by (discriminate || reflexivity);
         assumption).
  - unfold wordless. cbn [forallb].
    rewrite !(dressed_sub _ p y k j Hp) by (discriminate || reflexivity).
    rewrite Hco, Hsu, Hen, Hun, Hus, Hlo. reflexivity.
  - rewrite E. apply opens_not_char_p; assumption.
  - rewrite E. apply opens_not_primitive; assumption.
Qed.

Lemma dressed_ends p y :
  p = [] \/ p = str "vr::" -> settled y = true -> named y = true ->
  exists c0 mid cl, p ++ y = c0 :: mid ++ [cl]
    /\ forallb (not_chr "*") (c0 :: mid ++ [cl]) = true
    /\ is_space c0 = false /\ non_space cl = true.
Proof.
  intros Hp Hs Hn. destruct (settled_chars y Hs) as [Hx Hq].
  destruct (named_ends y Hn) as (c0 & mid & cl & ->).
  assert (Hcl : non_space cl = true).
  { simpl in Hq. apply andb_true_iff in Hq. destruct Hq as [_ Hq].
    rewrite forallb_app in Hq. apply andb_true_iff in Hq. destruct Hq as [_ Hq].
    simpl in Hq. rewrite andb_true_r in Hq. exact Hq. }
  destruct Hp as [-> | ->].
  - exists c0, mid, cl. repeat split; auto.
    simpl in Hq. apply andb_true_iff in Hq. destruct Hq as [Hq _].
    apply negb_true_iff in Hq. exact Hq.
  - exists "v", (str "r::" ++ c0 :: mid), cl. repeat split; auto.
Qed.

Lemma strip_dressed_name p y :
  p = [] \/ p = str "vr::" -> settled y = true -> named y = true ->
  strip (p ++ y) = p ++ y.
Proof.
  intros Hp Hs Hn.
  destruct (dressed_ends p y Hp Hs Hn) as (c0 & mid & cl & -> & _ & H0 & Hl).
  apply strip_tight; [exact H0|]. apply negb_true_iff, Hl.
Qed.

Lemma strip_dressed_stars p y k j :
  p = [] \/ p = str "vr::" -> settled y = true -> named y = true ->
  strip (p ++ y ++ repeat " " k ++ stars (S j))
  = p ++ y ++ repeat " " k ++ stars (S j).
Proof.
  intros Hp Hs Hn.
  destruct (dressed_ends p y Hp Hs Hn) as (c0 & mid & cl & E & _ & H0 & _).
  unfold stars. cbn [repeat]. rewrite repeat_cons. rewrite !app_assoc. rewrite E.
  rewrite <- !app_assoc. cbn [app].
  rewrite !app_assoc. apply strip_tight; [exact H0|reflexivity].
Qed.

(** A declared name, with or without the namespace, is translated to the
    bare name. *)
Lemma dressed_name_fuel p y n b :
  p = [] \/ p = str "vr::" -> type_name y = true ->
  translate_type_fuel (S n) (p ++ y) b = Some y.
Proof.
  intros Hp Hy. destruct (type_name_parts y Hy) as (Hs & Hn & Hw).
  destruct Hp as [-> | ->]; [apply translate_type_fuel_settled, Hs|].
  pose proof (settled_parts y Hs) as (Hc & Hx & Hptr & Hbool & _).
  rewrite translate_type_fuel_S.
  pose proof (normalize_dressed (str "vr::") y 0 0 (or_intror eq_refl) Hy) as E.
  cbn [repeat stars] in E. rewrite !app_nil_r in E.
  rewrite E by (apply strip_dressed_name; auto).
  rewrite rewrite_loop_settled.
  2:{ apply (re_match_quiet _ (existsb_inherited _) _ rx_pointer_needs).
      rewrite existsb_app. replace (existsb star_or_amp (str "vr::")) with false
        by reflexivity.
      revert Hx. apply existsb_weaken. intros a.
      unfold star_or_amp, one_of. simpl. intros Ha.
      repeat (apply orb_true_iff in Ha; destruct Ha as [Ha|Ha]);
        rewrite ?Ha, ?orb_true_r; auto; discriminate. }
  pose proof (dressed_sub (str "ptr") (str "vr::") y 0 0 (or_intror eq_refl)) as Ep.
  cbn [repeat stars] in Ep. rewrite !app_nil_r in Ep.
  pose proof (dressed_sub (str "bool") (str "vr::") y 0 0 (or_intror eq_refl)) as Eb.
  cbn [repeat stars] in Eb. rewrite !app_nil_r in Eb.
  rewrite rewrite_loop_settled.
  2:{ apply (re_match_quiet _ (has_sub_inherited _) _ rx_ptr_needs).
      rewrite Ep by (discriminate || reflexivity). exact Hptr. }
  unfold finish.
  replace (text_eqb (str "vr::" ++ y) (str "void")) with false by reflexivity.
  replace (text_eqb (str "vr::" ++ y) (str "POINTER(None)")) with false by reflexivity.
  rewrite (re_sub_quiet _ (has_sub_inherited _) _ rx_bool_needs)
    by (rewrite Eb by (discriminate || reflexivity); exact Hbool).
  rewrite startswith_app. change (skipn 4 (str "vr::" ++ y)) with y.
  unfold array_rule. rewrite (settled_no_array y Hs). reflexivity.
Qed.

Lemma dressed_match_one p y k :
  p = [] \/ p = str "vr::" -> settled y = true -> named y = true ->
  re_match rx_pointer (p ++ y ++ repeat " " k ++ ["*"]) = Some [(2, []); (1, p ++ y)].
Proof.
  intros Hp Hs Hn.
  destruct (dressed_ends p y Hp Hs Hn) as (c0 & mid & cl & E & Hx & _ & Hl).
  rewrite app_assoc, E. cbn [app]. rewrite <- app_assoc. cbn [app].
  apply rx_pointer_blank_star; assumption.
Qed.

Lemma dressed_match_two p y k j :
  p = [] \/ p = str "vr::" -> settled y = true -> named y = true ->
  re_match rx_pointer (p ++ y ++ repeat " " k ++ stars (S (S j)))
  = Some [(2, stars j); (1, p ++ y ++ repeat " " k ++ ["*"])].
Proof.
  intros Hp Hs Hn.
  destruct (dressed_ends p y Hp Hs Hn) as (c0 & mid & cl & E & Hx & _ & _).
  rewrite !(app_assoc p y), E. cbn [app stars repeat]. rewrite <- !app_assoc.
  rewrite !(app_assoc mid). rewrite !(app_assoc (mid ++ [cl])).
  apply (rx_pointer_two_stars c0 ((mid ++ [cl]) ++ repeat " " k) (repeat "*" j)).
  - change (c0 :: (mid ++ [cl]) ++ repeat " " k) with ((c0 :: mid ++ [cl]) ++ repeat " " k).
    rewrite forallb_app, Hx.
    clear. induction k; simpl; auto.
  - clear. induction j; simpl; auto.
Qed.

Lemma dressed_one_star p y k n b :
  p = [] \/ p = str "vr::" -> type_name y = true ->
  translate_type_fuel (S (S n)) (p ++ y ++ repeat " " k ++ ["*"]) b
  = Some (pointer_to y).
Proof.
  intros Hp Hy. destruct (type_name_parts y Hy) as (Hs & Hn & Hw).
  rewrite translate_type_fuel_S.
  pose proof (normalize_dressed p y k 1 Hp Hy (strip_dressed_stars p y k 0 Hp Hs Hn)) as E.
  cbn [stars repeat] in E. rewrite E.
  rewrite (rewrite_loop_match _ _ _ _ _ (dressed_match_one p y k Hp Hs Hn)).
  cbn [group Nat.eqb].
  rewrite (dressed_name_fuel p y n false Hp Hy).
  rewrite app_nil_r. fold (pointer_to y).
  pose proof (named_pointer_settled y Hs Hn) as Hs'.
  rewrite (rewrite_loop_settled _ _ _ _ (settled_no_pointer _ Hs')).
  apply after_pointer_loop, Hs'.
Qed.

Lemma dressed_loop_stars fuel p y k j m :
  p = [] \/ p = str "vr::" -> type_name y = true -> j < m ->
  rewrite_loop rx_pointer (fun t => translate_type_fuel (S (S fuel)) t false) m
               (p ++ y ++ repeat " " k ++ stars (S j))
  = Some (nested_pointer (S j) y).
Proof.
  intros Hp Hy Hm. destruct (type_name_parts y Hy) as (Hs & Hn & Hw).
  pose proof (named_pointer_settled y Hs Hn) as Hs'.
  destruct m as [|m]; [lia|]. destruct j as [|j].
  - cbn [stars repeat].
    rewrite (rewrite_loop_match _ _ _ _ _ (dressed_match_one p y k Hp Hs Hn)).
    cbn [group Nat.eqb].
    rewrite (dressed_name_fuel p y _ false Hp Hy).
    rewrite app_nil_r. fold (pointer_to y).
    apply rewrite_loop_settled, settled_no_pointer, Hs'.
  - rewrite (rewrite_loop_match _ _ _ _ _ (dressed_match_two p y k j Hp Hs Hn)).
    cbn [group Nat.eqb].
    rewrite (dressed_one_star p y k fuel false Hp Hy).
    rewrite pointer_to_app.
    rewrite (pointer_loop_stars fuel j m (pointer_to (pointer_to y)) ltac:(lia)).
    + rewrite !nested_pointer_succ_r. reflexivity.
    + apply settled_pointer_to; auto using wrapped_not_none, wrapped_pointer_to.
    + reflexivity.
Qed.

Lemma dressed_pointer p y k N :
  p = [] \/ p = str "vr::" -> type_name y = true ->
  translate_type (p ++ y ++ repeat " " k ++ stars (S N)) = nested_pointer (S N) y.
Proof.
  intros Hp Hy. destruct (type_name_parts y Hy) as (Hs & Hn & Hw).
  apply (translate_type_fuel_sound (S (S (S (S N))))).
  rewrite translate_type_fuel_S.
  rewrite (normalize_dressed p y k (S N) Hp Hy (strip_dressed_stars p y k N Hp Hs Hn)).
  rewrite (dressed_loop_stars (S N) p y k N (S (S (S N))) Hp Hy ltac:(lia)).
  apply after_pointer_loop.
  change (nested_pointer (S N) y) with (pointer_to (nested_pointer N y)).
  rewrite <- nested_pointer_succ_r.
  apply nested_pointer_good; [apply named_pointer_settled; assumption|reflexivity].
Qed.

(** X15: declared types as the parser spells them.  For the name of a
    declared type (settled, opening with no letter of a primitive, holding
    none of the words the first rewrites look for), the namespace [vr::] is
    dropped, and one or more stars after the name, with any number of
    blanks in between and with or without the namespace, give as many
    nested [POINTER] wrappers around the bare name. *)
Theorem declared_type_spellings (y : text) (k N : nat) :
  type_name y = true ->
  translate_type (str "vr::" ++ y) = y
  /\ translate_type (y ++ repeat " " k ++ stars (S N)) = nested_pointer (S N) y
  /\ translate_type (str "vr::" ++ y ++ repeat " " k ++ stars (S N))
     = nested_pointer (S N) y.
Proof.
  intros Hy. split; [|split].
  - apply (translate_type_fuel_sound 1).
    apply (dressed_name_fuel (str "vr::") y 0 false (or_intror eq_refl) Hy).
  - apply (dressed_pointer [] y k N (or_introl eq_refl) Hy).
  - apply (dressed_pointer (str "vr::") y k N (or_intror eq_refl) Hy).
Qed.

Local Close Scope char_scope.

Local Open Scope char_scope.

(** ** Arrays of declared types *)

Lemma startswith_snoc l a u c :
  Ascii.eqb a c = false ->
  startswith (u ++ [c]) (l ++ [a]) = startswith u (l ++ [a]).
Proof.
  intros H. revert u. induction l as [|x l IH]; intros [|y u]; cbn [app startswith].
  - rewrite H. reflexivity.
  - destruct u; reflexivity.
  - destruct l; cbn [app startswith]; rewrite andb_false_r; reflexivity.
  - rewrite IH. reflexivity.
Qed.

(** A literal is not completed by a character other than its last one. *)
Lemma has_sub_snoc l a u c :
  Ascii.eqb a c = false -> has_sub (l ++ [a]) (u ++ [c]) = has_sub (l ++ [a]) u.
Proof.
  intros H. induction u as [|y u IH].
  - cbn [app]. rewrite (has_sub_unfold _ [c]).
    pose proof (startswith_snoc l a [] c H) as E. cbn [app] in E. rewrite E.
    destruct l; reflexivity.
  - cbn [app]. rewrite (has_sub_unfold _ (y :: u ++ [c])), (has_sub_unfold _ (y :: u)).
    rewrite IH. pose proof (startswith_snoc l a (y :: u) c H) as E. cbn [app] in E.
    rewrite E. reflexivity.
Qed.

Lemma has_sub_tail l a u tl :
  existsb (Ascii.eqb a) tl = false -> has_sub (l ++ [a]) (u ++ tl) = has_sub (l ++ [a]) u.
Proof.
  revert u. induction tl as [|c tl IH] using rev_ind; intros u H.
  - rewrite app_nil_r. reflexivity.
  - rewrite existsb_app in H. apply orb_false_iff in H. destruct H as [Ht Hc].
    cbn [existsb] in Hc. rewrite orb_false_r in Hc.
    rewrite app_assoc, (has_sub_snoc l a _ c Hc). apply IH, Ht.
Qed.

Lemma digit_class c : is_digit c = true ->
  is_space c = false /\ is_chr "[" c = false /\ is_chr "]" c = false
  /\ any_but_newline c = true.
Proof.
  intros H.
  ascii_fact (fun c => implb (is_digit c)
                (negb (is_space c) && negb (is_chr "[" c) && negb (is_chr "]" c)
                 && any_but_newline c)) c.
  rewrite H in E. cbn [implb] in E.
  repeat (apply andb_true_iff in E; destruct E as [E ?]).
  repeat split; first [assumption | apply negb_true_iff; assumption].
Qed.

Lemma rx_array_first_dimension c0 mid cl d0 d rest :
  forallb (not_chr "[") (c0 :: mid ++ [cl]) = true ->
  non_space cl = true ->
  forallb is_digit (d0 :: d) = true ->
  forallb any_but_newline rest = true ->
  re_match rx_array (c0 :: mid ++ cl :: "[" :: d0 :: d ++ "]" :: rest)
  = Some [(3, rest); (2, d0 :: d); (1, c0 :: mid ++ [cl])].
Proof.
  intros H Hcl Hd Hr. simpl in H. apply andb_true_iff in H. destruct H as [H0 Hm].
  rewrite forallb_app in Hm. apply andb_true_iff in Hm. destruct Hm as [Hm Hl].
  simpl in Hl. rewrite andb_true_r in Hl.
  cbn [forallb] in Hd. apply andb_true_iff in Hd. destruct Hd as [Hd0 Hd].
  destruct (digit_class d0 Hd0) as (Ds & Do & Dc & _).
  unfold re_match, match_at, rx_array. cbn [Seq fold_right Plus run].
  rewrite H0.
  erewrite star_run_back; [|exact Hm|exact Hl| |].
  2:{ run_classes. rewrite Ds, Do. reflexivity. }
  2:{ rewrite Hcl. run_classes. rewrite Hd0.
      apply star_run_first; [exact Hd|]. run_classes.
      apply star_run_all; [exact Hr|]. reflexivity. }
  cbv beta iota.
  rewrite (consumed_eq rest rest []) by (rewrite app_nil_r; reflexivity).
  rewrite (consumed_eq (d0 :: d ++ "]" :: rest) (d0 :: d) ("]" :: rest)) by reflexivity.
  rewrite (consumed_eq (c0 :: mid ++ cl :: "[" :: d0 :: d ++ "]" :: rest)
             (c0 :: mid ++ [cl]) ("[" :: d0 :: d ++ "]" :: rest))
    by (simpl; rewrite <- app_assoc; reflexivity).
  reflexivity.
Qed.

Lemma dimensions_cons d ds :
  dimensions (d :: ds) = "[" :: d ++ "]" :: dimensions ds.
Proof.
  unfold dimensions. cbn [map List.concat]. cbn [str list_ascii_of_string app].
  rewrite <- app_assoc. reflexivity.
Qed.

Lemma digits_parts d : digits d = true ->
  exists d0 d', d = d0 :: d' /\ forallb is_digit (d0 :: d') = true.
Proof.
  unfold digits. destruct d as [|d0 d']; [discriminate|]. cbn [is_nil negb andb].
  intros H. exists d0, d'. auto.
Qed.

Lemma dimensions_chars ds :
  Forall (fun d => digits d = true) ds -> forallb index_char (dimensions ds) = true.
Proof.
  induction 1 as [|d ds Hd _ IH]; [reflexivity|].
  rewrite dimensions_cons. destruct (digits_parts d Hd) as (d0 & d' & -> & Hdd).
  change ("[" :: (d0 :: d') ++ "]" :: dimensions ds)
    with (["["] ++ (d0 :: d') ++ ["]"] ++ dimensions ds).
  assert (G : forall l, forallb is_digit l = true -> forallb index_char l = true).
  { induction l as [|c l IHl]; [reflexivity|]. cbn [forallb]. intros H.
    apply andb_true_iff in H. destruct H as [Hc Hl]. unfold index_char at 1.
    rewrite Hc, orb_true_r, (IHl Hl). reflexivity. }
  rewrite !forallb_app, IH, (G _ Hdd). reflexivity.
Qed.

Lemma index_chars_apart a tl :
  forallb index_char tl = true -> index_char a = false ->
  existsb (Ascii.eqb a) tl = false.
Proof.
  intros H Ha. induction tl as [|c tl IH]; [reflexivity|].
  cbn [forallb] in H. apply andb_true_iff in H. destruct H as [Hc Ht].
  cbn [existsb]. rewrite (IH Ht), orb_false_r.
  destruct (Ascii.eqb a c) eqn:E; [|reflexivity].
  apply Ascii.eqb_eq in E. subst. congruence.
Qed.

Lemma index_chars_lack (q : ascii -> bool) tl :
  forallb index_char tl = true ->
  forallb (fun c => implb (index_char c) (negb (q c))) all_ascii = true ->
  existsb q tl = false.
Proof.
  intros H Hq. induction tl as [|c tl IH]; [reflexivity|].
  cbn [forallb] in H. apply andb_true_iff in H. destruct H as [Hc Ht].
  cbn [existsb]. rewrite (IH Ht), orb_false_r.
  apply ascii_forall with (c := c) in Hq. cbv beta in Hq. rewrite Hc in Hq.
  apply negb_true_iff in Hq. exact Hq.
Qed.

Lemma index_chars_any tl :
  forallb index_char tl = true -> forallb any_but_newline tl = true.
Proof.
  intros H. induction tl as [|c tl IH]; [reflexivity|].
  cbn [forallb] in *. apply andb_true_iff in H. destruct H as [Hc Ht].
  rewrite (IH Ht), andb_true_r.
  ascii_fact (fun c => implb (index_char c) (any_but_newline c)) c.
  rewrite Hc in E. exact E.
Qed.

Lemma dimensions_last d ds : exists w, dimensions (d :: ds) = w ++ ["]"].
Proof.
  destruct (exists_last (l := d :: ds)) as (ds' & d' & E); [discriminate|].
  rewrite E. unfold dimensions. rewrite map_app, concat_app. cbn [map List.concat].
  rewrite app_nil_r. exists (List.concat (map (fun d => str "[" ++ d ++ str "]") ds')
                             ++ str "[" ++ d').
  rewrite <- !app_assoc. reflexivity.
Qed.

(** A literal whose last character is no index character is found in a
    declared name with its dimensions only inside the name. *)
Lemma arrayed_sub lit l a p y tl :
  lit = l ++ [a] ->
  p = [] \/ p = str "vr::" -> forallb index_char tl = true ->
  index_char a = false ->
  existsb (Ascii.eqb ":") lit = false -> has_sub lit (str "vr:") = false ->
  has_sub lit (p ++ y ++ tl) = has_sub lit y.
Proof.
  intros -> Hp Ht Ha Hc Hv.
  rewrite app_assoc, (has_sub_tail l a _ tl (index_chars_apart a tl Ht Ha)).
  destruct Hp as [-> | ->]; [reflexivity|].
  change (str "vr::" ++ y) with (str "vr:" ++ ":" :: y).
  rewrite (has_sub_sep _ _ ":" y) by (try exact Hc; destruct l; discriminate).
  rewrite Hv. reflexivity.
Qed.

Ltac by_last_char :=
  match goal with
  | |- has_sub ?lit _ = _ =>
      let l := eval cbv in (removelast lit) in
      let a := eval cbv in (last lit " ") in
      apply (arrayed_sub lit l a); [reflexivity|assumption|assumption|reflexivity ..]
  end.

Lemma arrayed_subs p y tl :
  p = [] \/ p = str "vr::" -> forallb index_char tl = true ->
  forall lit, In lit (map str ["const"; "struct"; "enum"; "union"; "unsigned"; "long";
                               "8_t"; "16_t"; "32_t"; "64_t"; "VR_"; "ptr"; "bool"]%string) ->
    has_sub lit (p ++ y ++ tl) = has_sub lit y.
Proof.
  intros Hp Ht lit H. cbn [map In] in H.
  repeat (destruct H as [<- | H]); try contradiction; by_last_char.
Qed.

Ltac listed := cbn [map In]; tauto.

Lemma strip_arrayed p y ds :
  p = [] \/ p = str "vr::" -> settled y = true -> named y = true ->
  strip (p ++ y ++ dimensions ds) = p ++ y ++ dimensions ds.
Proof.
  intros Hp Hs Hn. destruct ds as [|d ds].
  - cbn [dimensions map List.concat]. rewrite app_nil_r.
    apply strip_dressed_name; assumption.
  - destruct (dimensions_last d ds) as (w & ->).
    destruct (dressed_ends p y Hp Hs Hn) as (c0 & mid & cl & E & _ & H0 & _).
    rewrite app_assoc, E. cbn [app]. rewrite !app_assoc.
    apply strip_tight; [exact H0|reflexivity].
Qed.

Lemma normalize_arrayed p y ds :
  p = [] \/ p = str "vr::" -> type_name y = true ->
  Forall (fun d => digits d = true) ds ->
  normalize (p ++ y ++ dimensions ds) = p ++ y ++ dimensions ds.
Proof.
  intros Hp Hy Hd. destruct (type_name_parts y Hy) as (Hs & Hn & Hw).
  pose proof (settled_parts y Hs) as (Hc & _).
  pose proof (calm_parts y Hc) as (Hsp & (H8 & H16 & H32 & H64) & Hvr).
  destruct (wordless_parts y Hw) as (Hco & Hsu & Hen & Hun & Hus & Hlo).
  pose proof (arrayed_subs p y _ Hp (dimensions_chars ds Hd)) as S.
  destruct (dressed_opens p y (dimensions ds) Hp Hn Hsp) as (a & t & E & Ha & Hb & Hcc).
  apply normalize_untouched;
    try (rewrite S by listed; assumption).
  - apply strip_arrayed; assumption.
  - unfold wordless. cbn [forallb].
    rewrite !S by listed.
    rewrite Hco, Hsu, Hen, Hun, Hus, Hlo. reflexivity.
  - rewrite E. apply opens_not_char_p; assumption.
  - rewrite E. apply opens_not_primitive; assumption.
Qed.

Lemma arrayed_no_pointer p y ds :
  p = [] \/ p = str "vr::" -> settled y = true ->
  Forall (fun d => digits d = true) ds ->
  re_match rx_pointer (p ++ y ++ dimensions ds) = None.
Proof.
  intros Hp Hs Hd. pose proof (settled_parts y Hs) as (_ & Hx & _).
  apply (re_match_quiet _ (existsb_inherited _) _ rx_pointer_needs).
  rewrite !existsb_app.
  rewrite (index_chars_lack star_or_amp _ (dimensions_chars ds Hd))
    by (vm_compute; reflexivity).
  replace (existsb star_or_amp p) with false by (destruct Hp as [-> | ->]; reflexivity).
  rewrite orb_false_r. cbn [orb].
  revert Hx. apply existsb_weaken. intros a.
  unfold star_or_amp, one_of. simpl. intros Ha.
  repeat (apply orb_true_iff in Ha; destruct Ha as [Ha|Ha]);
    rewrite ?Ha, ?orb_true_r; auto; discriminate.
Qed.

Lemma text_eqb_apart (q : ascii -> bool) s w :
  existsb q s = true -> existsb q w = false -> text_eqb s w = false.
Proof.
  intros Hs Hw. destruct (text_eqb s w) eqn:E; [|reflexivity].
  apply text_eqb_eq in E. subst. congruence.
Qed.

Lemma arrayed_is_not p y ds w :
  p = [] \/ p = str "vr::" -> text_eqb y w = false ->
  existsb (is_chr "[") w = false -> existsb (is_chr ":") w = false ->
  text_eqb (p ++ y ++ dimensions ds) w = false.
Proof.
  intros Hp Hy Hw Hc. destruct Hp as [-> | ->].
  - destruct ds as [|d ds].
    + cbn [dimensions map List.concat app]. rewrite app_nil_r. exact Hy.
    + apply (text_eqb_apart (is_chr "[")); [|exact Hw].
      rewrite dimensions_cons. cbn [app]. rewrite existsb_app. cbn [existsb].
      replace (is_chr "[" "[") with true by reflexivity.
      rewrite orb_true_r. reflexivity.
  - apply (text_eqb_apart (is_chr ":")); [reflexivity|exact Hc].
Qed.

Lemma finish_arrayed p y ds :
  p = [] \/ p = str "vr::" -> settled y = true ->
  Forall (fun d => digits d = true) ds ->
  finish (p ++ y ++ dimensions ds) = y ++ dimensions ds.
Proof.
  intros Hp Hs Hd.
  pose proof (settled_parts y Hs) as (_ & _ & _ & Hbool & _ & _ & Hv & Hpn & Hvr).
  pose proof (arrayed_subs p y _ Hp (dimensions_chars ds Hd)) as S.
  unfold finish.
  rewrite (arrayed_is_not p y ds (str "void") Hp Hv) by reflexivity.
  rewrite (arrayed_is_not p y ds (str "POINTER(None)") Hp Hpn) by reflexivity.
  rewrite (re_sub_quiet _ (has_sub_inherited _) _ rx_bool_needs)
    by (rewrite S by listed; exact Hbool).
  destruct Hp as [-> | ->].
  - cbn [app]. destruct ds as [|d ds].
    + cbn [dimensions map List.concat]. rewrite app_nil_r, Hvr. reflexivity.
    + rewrite dimensions_cons, startswith_sep by reflexivity. rewrite Hvr. reflexivity.
  - rewrite startswith_app. reflexivity.
Qed.

Lemma arrayed_no_ptr y ds :
  settled y = true -> Forall (fun d => digits d = true) ds ->
  forall p, p = [] \/ p = str "vr::" ->
  re_match rx_ptr (p ++ y ++ dimensions ds) = None.
Proof.
  intros Hs Hd p Hp. pose proof (settled_parts y Hs) as (_ & _ & Hptr & _).
  apply (re_match_quiet _ (has_sub_inherited _) _ rx_ptr_needs).
  rewrite (arrayed_subs p y _ Hp (dimensions_chars ds Hd)) by listed. exact Hptr.
Qed.

Lemma arrayed_match y d ds :
  settled y = true -> named y = true ->
  Forall (fun d => digits d = true) (d :: ds) ->
  re_match rx_array (y ++ dimensions (d :: ds))
  = Some [(3, dimensions ds); (2, d); (1, y)].
Proof.
  intros Hs Hn Hd. inversion Hd as [|? ? Hd0 Hds]; subst.
  destruct (digits_parts d Hd0) as (d0 & d' & -> & Hdd).
  pose proof (settled_parts y Hs) as (_ & Hx & _).
  destruct (dressed_ends [] y (or_introl eq_refl) Hs Hn)
    as (c0 & mid & cl & E & _ & _ & Hl).
  cbn [app] in E. rewrite E in *. rewrite dimensions_cons.
  change ((c0 :: mid ++ [cl]) ++ "[" :: (d0 :: d') ++ "]" :: dimensions ds)
    with (c0 :: (mid ++ [cl]) ++ "[" :: d0 :: d' ++ "]" :: dimensions ds).
  rewrite <- app_assoc. cbn [app].
  apply rx_array_first_dimension; auto.
  - revert Hx. apply existsb_false_forallb. intros a. unfold one_of, not_chr. simpl.
    intros Ha. apply orb_false_iff in Ha. destruct Ha as [_ Ha].
    apply orb_false_iff in Ha. destruct Ha as [_ Ha].
    rewrite orb_false_r in Ha. rewrite Ha. reflexivity.
  - apply index_chars_any, dimensions_chars, Hds.
Qed.

(** A declared name with dimensions, with or without the namespace: the
    array rule peels the first dimension and translates the rest, in
    brackets. *)
Lemma arrayed_fuel y :
  type_name y = true ->
  forall ds n p b,
    List.length ds <= n -> p = [] \/ p = str "vr::" ->
    Forall (fun d => digits d = true) ds ->
    translate_type_fuel (S n) (p ++ y ++ dimensions ds) b = Some (array_of y ds b).
Proof.
  intros Hy. destruct (type_name_parts y Hy) as (Hs & Hn & Hw).
  induction ds as [|d ds IH]; intros n p b Hl Hp Hd.
  - cbn [dimensions map List.concat array_of]. rewrite app_nil_r.
    apply dressed_name_fuel; assumption.
  - rewrite translate_type_fuel_S, (normalize_arrayed p y _ Hp Hy Hd).
    rewrite (rewrite_loop_settled _ _ _ _ (arrayed_no_pointer p y _ Hp Hs Hd)).
    rewrite (rewrite_loop_settled _ _ _ _ (arrayed_no_ptr y _ Hs Hd p Hp)).
    rewrite (finish_arrayed p y _ Hp Hs Hd).
    unfold array_rule. rewrite (arrayed_match y d ds Hs Hn Hd).
    cbn [group Nat.eqb].
    destruct n as [|n]; [cbn [List.length] in Hl; lia|].
    inversion Hd as [|? ? _ Hds]; subst.
    pose proof (IH n [] true ltac:(cbn [List.length] in Hl; lia)
                  (or_introl eq_refl) Hds) as R.
    cbn [app] in R. rewrite R. reflexivity.
Qed.

(** X16: arrays of declared types.  A declared name followed by dimensions,
    each a run of digits in brackets, with or without the namespace
    [vr::], is translated to the product that ctypes reads as that array:
    the first dimension is the outermost factor, and every array inside
    another one is put in parentheses, as is the whole when the bracket
    flag is set. *)
Theorem array_of_declared_type (y : text) (ds : list text) (bracket : bool) :
  type_name y = true -> Forall (fun d => digits d = true) ds ->
  translate_type_b (y ++ dimensions ds) bracket = array_of y ds bracket
  /\ translate_type_b (str "vr::" ++ y ++ dimensions ds) bracket = array_of y ds bracket.
Proof.
  intros Hy Hd. split.
  - apply (translate_type_fuel_sound (S (List.length ds))).
    apply (arrayed_fuel y Hy ds _ [] bracket (le_n _) (or_introl eq_refl) Hd).
  - apply (translate_type_fuel_sound (S (List.length ds))).
    apply (arrayed_fuel y Hy ds _ (str "vr::") bracket (le_n _) (or_intror eq_refl) Hd).
Qed.

Local Close Scope char_scope.

(** ** Lines under [textwrap.indent] *)

Lemma splitlines_line l : forall cur rest,
  no_break l = true ->
  splitlines_from cur (l ++ nl ++ rest) = (rev cur ++ l ++ nl) :: splitlines_from [] rest.
Proof.
  induction l as [|c l IH]; intros cur rest H.
  - cbn [app nl splitlines_from]. change (is_linebreak newline) with true. cbv iota.
    change (is_code 13 newline) with false. cbn [andb].
    destruct rest as [|d rest]; cbn [rev]; [|reflexivity].
    cbn [splitlines_from is_nil]. reflexivity.
  - cbn [no_break forallb] in H. apply andb_true_iff in H. destruct H as [Hc Hl].
    apply negb_true_iff in Hc. cbn [app splitlines_from]. rewrite Hc.
    rewrite (IH (c :: cur) rest Hl). cbn [rev]. rewrite <- !app_assoc. reflexivity.
Qed.

Lemma splitlines_lines ls :
  Forall (fun l => no_break l = true) ls ->
  splitlines_from [] (List.concat (map (fun l => l ++ nl) ls)) = map (fun l => l ++ nl) ls.
Proof.
  induction 1 as [|l ls Hl _ IH]; [reflexivity|].
  cbn [map List.concat]. rewrite <- app_assoc, (splitlines_line l [] _ Hl), IH.
  reflexivity.
Qed.

Lemma strip_nil_iff s : is_nil (strip s) = is_nil (lstrip s).
Proof.
  unfold strip, rstrip.
  destruct (lstrip s) as [|c u] eqn:E; [reflexivity|].
  assert (Hc : is_space c = false).
  { clear -E. induction s as [|x s IH]; [discriminate|]. cbn [lstrip] in E.
    destruct (is_space x) eqn:Ex; [auto|]. injection E as -> _. exact Ex. }
  cbn [is_nil]. destruct (rev (lstrip (rev (c :: u)))) as [|? ?] eqn:R; [|reflexivity].
  exfalso. apply (f_equal (@rev ascii)) in R. rewrite rev_involutive in R. cbn [rev] in R.
  assert (G : forall v, lstrip (v ++ [c]) <> []).
  { induction v as [|x v IH]; cbn [app lstrip].
    - rewrite Hc. discriminate.
    - destruct (is_space x); [exact IH|discriminate]. }
  cbn [rev] in R. exact (G _ R).
Qed.

Lemma lstrip_line l : is_nil (lstrip (l ++ nl)) = is_nil (lstrip l).
Proof.
  induction l as [|c l IH]; [reflexivity|]. cbn [app lstrip].
  destruct (is_space c); [exact IH|reflexivity].
Qed.

(** [textwrap.indent] on lines of code and empty lines: the prefix goes
    before every line of code. *)
Lemma indent_lines k ls :
  forallb code_or_empty ls = true ->
  indent (List.concat (map (fun l => l ++ nl) ls)) (spaces k)
  = List.concat (map (fun l => shifted k l ++ nl) ls).
Proof.
  intros H. unfold indent. rewrite splitlines_lines.
  2:{ apply Forall_forall. intros l Hl. rewrite forallb_forall in H.
      specialize (H l Hl). unfold code_or_empty in H.
      destruct l as [|c l]; [reflexivity|]. cbn [is_nil orb] in H.
      unfold code_line in H. apply andb_true_iff in H. apply H. }
  rewrite map_map. f_equal. apply map_ext_in. intros l Hl.
  rewrite forallb_forall in H. specialize (H l Hl).
  rewrite strip_nil_iff, lstrip_line. unfold shifted.
  destruct l as [|c l]; [reflexivity|]. cbn [is_nil orb] in H.
  unfold code_line, plain_line in H.
  apply andb_true_iff in H. destruct H as [H _].
  apply andb_true_iff in H. destruct H as [_ H]. apply negb_true_iff in H.
  rewrite H. cbn [is_nil]. rewrite app_assoc. reflexivity.
Qed.

(** ** Cleaning a template with blank lines *)

Lemma plain_line_parts l : plain_line l = true ->
  no_newline l = true /\ no_tab l = true /\ is_nil (lstrip l) = false.
Proof.
  unfold plain_line. intros H. apply andb_true_iff in H. destruct H as [H H3].
  apply andb_true_iff in H. destruct H as [H1 H2]. apply negb_true_iff in H3. auto.
Qed.

Lemma margin_of_rows n rows :
  forallb (row_fits n) rows = true ->
  fold_left min_margin (map (written n) rows) (Some n) = Some n.
Proof.
  induction rows as [|r rows IH]; [reflexivity|]. cbn [forallb map fold_left].
  intros H. apply andb_true_iff in H. destruct H as [Hr Hrows].
  destruct r as [l|t]; cbn [written row_fits] in *; unfold min_margin at 2.
  - destruct (plain_line_parts l Hr) as (_ & _ & Hl).
    destruct (indentation_indented n l Hl) as (k & ->).
    replace (Nat.min n (n + k)) with n by lia. exact (IH Hrows).
  - rewrite indentation_blank. exact (IH Hrows).
Qed.

Lemma written_cleaned n rows :
  forallb (row_fits n) rows = true ->
  map (skipn n) (map (written n) rows) = map cleaned rows.
Proof.
  intros H. rewrite map_map. apply map_ext_in. intros r Hr.
  rewrite forallb_forall in H. specialize (H r Hr).
  destruct r as [l|t]; cbn [written cleaned row_fits] in *.
  - apply skipn_spaces.
  - apply skipn_all_spaces, Nat.leb_le, H.
Qed.

Lemma written_one_line n rows :
  forallb (row_fits n) rows = true ->
  Forall (fun l => no_newline l = true) (map (written n) rows)
  /\ no_tab (List.concat (map (fun l => l ++ nl) (map (written n) rows))) = true.
Proof.
  induction rows as [|r rows IH]; [split; [constructor|reflexivity]|].
  cbn [forallb map List.concat]. intros H.
  apply andb_true_iff in H. destruct H as [Hr Hrows].
  destruct (IH Hrows) as [IH1 IH2]. split.
  - constructor; [|exact IH1]. destruct r as [l|t]; cbn [written row_fits] in *.
    + destruct (plain_line_parts l Hr) as (Hl & _).
      rewrite no_newline_app, no_newline_spaces, Hl. reflexivity.
    + apply no_newline_spaces.
  - rewrite !no_tab_app, IH2, andb_true_r.
    replace (no_tab nl) with true by reflexivity. rewrite andb_true_r.
    destruct r as [l|t]; cbn [written row_fits] in *.
    + destruct (plain_line_parts l Hr) as (_ & Hl & _).
      rewrite no_tab_app, no_tab_spaces, Hl. reflexivity.
    + apply no_tab_spaces.
Qed.

Lemma drop_empty_empties (E : list text) l ls :
  Forall (fun e => e = []) E -> l <> [] -> drop_empty (E ++ l :: ls) = l :: ls.
Proof.
  induction 1 as [|e E -> _ IH]; intros Hl; cbn [app drop_empty].
  - apply drop_empty_nonempty, Hl.
  - apply IH, Hl.
Qed.

Lemma trim_lines (y : text) C Y z E :
  y :: C = Y ++ z :: E -> y <> [] -> z <> [] -> Forall (fun e => e = []) E ->
  drop_empty (rev (drop_empty (rev ([] :: (y :: C) ++ [[]])))) = Y ++ [z].
Proof.
  intros EY Hy Hz HE. rewrite EY.
  change ([] :: (Y ++ z :: E) ++ [[]]) with ([[]] ++ (Y ++ (z :: E)) ++ [[]]).
  rewrite !rev_app_distr. cbn [rev app]. rewrite <- !app_assoc. cbn [app].
  change ([] :: rev E ++ z :: rev Y ++ [[]])
    with (([] :: rev E) ++ z :: rev Y ++ [[]]).
  rewrite drop_empty_empties; [|constructor; [reflexivity|]|exact Hz].
  2:{ apply Forall_rev, HE. }
  change (z :: rev Y ++ [[]]) with (([z] ++ rev Y) ++ [[]]).
  rewrite !rev_app_distr. cbn [rev app]. rewrite rev_involutive.
  change (drop_empty ([] :: Y ++ [z])) with (drop_empty (Y ++ [z])).
  destruct Y as [|y' Y]; cbn [app].
  - apply drop_empty_nonempty, Hz.
  - injection EY as <- _. apply drop_empty_nonempty, Hy.
Qed.

(** A template that opens with a newline and goes on with rows, lines
    written [n] columns to the right or blanks, the first of which is a
    line that starts with no white space: [cleandoc] moves the lines [n]
    columns to the left, empties the blank rows, and drops the empty
    first line and the blank rows at the end. *)
Lemma cleandoc_rows n y rows t Y z E :
  plain_line y = true ->
  match y with c :: _ => is_space c = false | [] => False end ->
  forallb (row_fits n) rows = true -> t <= n ->
  map cleaned (Line y :: rows) = Y ++ z :: E ->
  z <> [] -> Forall (fun e => e = []) E ->
  cleandoc (nl ++ List.concat (map (fun r => written n r ++ nl) (Line y :: rows))
               ++ spaces t)
  = join nl (Y ++ [z]).
Proof.
  intros Hy Hc Hrows Ht EY Hz HE.
  set (R := Line y :: rows) in *.
  assert (HR : forallb (row_fits n) R = true).
  { unfold R. cbn [forallb row_fits]. rewrite Hy, Hrows. reflexivity. }
  set (L := map (written n) R).
  assert (EL : List.concat (map (fun r => written n r ++ nl) R)
               = List.concat (map (fun l => l ++ nl) L)).
  { unfold L. rewrite map_map. reflexivity. }
  rewrite EL. destruct (written_one_line n R HR) as [Hnl Htab]. fold L in Hnl, Htab.
  unfold cleandoc. rewrite expandtabs_id.
  2:{ rewrite !no_tab_app, Htab, no_tab_spaces. reflexivity. }
  unfold nl at 1. cbn [app split_on]. rewrite Ascii.eqb_refl.
  rewrite (split_on_lines L (spaces t) Hnl (no_newline_spaces t)).
  assert (EM : fold_left min_margin (L ++ [spaces t]) None = Some n).
  { rewrite fold_left_app. unfold L, R. cbn [map fold_left written].
    unfold min_margin at 3. rewrite (indentation_first n y Hc).
    rewrite (margin_of_rows n rows Hrows).
    unfold min_margin. rewrite indentation_blank. reflexivity. }
  match goal with
  | |- context [?u] =>
      match u with
      | fold_left min_margin _ None => replace u with (Some n) by (symmetry; exact EM)
      end
  end.
  assert (ES : map (skipn n) (L ++ [spaces t]) = (y :: map cleaned rows) ++ [[]]).
  { rewrite map_app. change (map (skipn n) [spaces t]) with [skipn n (spaces t)].
    rewrite (skipn_all_spaces n t Ht). f_equal.
    unfold L. etransitivity; [exact (written_cleaned n R HR)|]. reflexivity. }
  match goal with
  | |- context [?u] =>
      match u with
      | map (skipn n) _ =>
          replace u with ((y :: map cleaned rows) ++ [@nil ascii])
            by (symmetry; exact ES)
      end
  end.
  f_equal. apply (trim_lines y (map cleaned rows) Y z E); auto.
  destruct y; [contradiction|discriminate].
Qed.

(** ** The methods of a class *)

Lemma tidy_method_parts m : tidy_method m = true ->
  snd (Method.ctypes_string m)
  = Returned (List.concat (map (fun l => l ++ nl) (method_lines m)))
  /\ ctypes_fntable_string m = Answer (table_entry m)
  /\ forallb code_or_empty (method_lines m) = true
  /\ last (method_lines m) [] <> []
  /\ one_line (table_entry m) = true.
Proof.
  unfold tidy_method. intros H.
  apply andb_true_iff in H. destruct H as [H H5].
  apply andb_true_iff in H. destruct H as [H H4].
  apply andb_true_iff in H. destruct H as [H H3].
  apply andb_true_iff in H. destruct H as [H1 H2].
  apply text_eqb_eq in H2. apply negb_true_iff in H4.
  unfold renders in H1. unfold method_text in H2. unfold table_entry at 1.
  destruct (snd (Method.ctypes_string m)) as [s|e]; [|discriminate].
  destruct (ctypes_fntable_string m) as [e|e]; [|discriminate].
  repeat split; auto.
  - rewrite H2. reflexivity.
  - intros E. rewrite E in H4. discriminate.
Qed.

Lemma collect_tidy ms :
  forallb tidy_method ms = true ->
  forall methods fn_table_methods,
    Class.collect ms methods fn_table_methods
    = (map (fun m => fst (Method.ctypes_string m)) ms,
       Class.Collected
         (methods ++ List.concat
            (map (fun m => List.concat (map (fun l => shifted 16 l ++ nl) (method_lines m))
                           ++ nl) ms))
         (fn_table_methods
          ++ List.concat (map (fun m => nl ++ spaces 20 ++ table_entry m) ms))).
Proof.
  induction ms as [|m ms IH]; intros H methods fn.
  - cbn [Class.collect map List.concat]. rewrite !app_nil_r. reflexivity.
  - cbn [forallb] in H. apply andb_true_iff in H. destruct H as [Hm Hms].
    destruct (tidy_method_parts m Hm) as (Hs & He & Hl & _).
    cbn [Class.collect]. pose proof (fntable_after_rendering m) as F.
    destruct (Method.ctypes_string m) as [m' out] eqn:EC. cbn [fst snd] in *. subst out.
    rewrite F, He. rewrite (IH Hms). cbn [map List.concat]. rewrite EC. cbn [fst].
    rewrite (indent_lines 16 _ Hl). rewrite <- !app_assoc. reflexivity.
Qed.

Lemma written_row_of l : written 12 (row_of 4 l) = shifted 16 l.
Proof.
  unfold row_of, shifted. destruct l as [|c l]; [reflexivity|].
  cbn [is_nil written]. rewrite app_assoc. reflexivity.
Qed.

Lemma cleaned_row_of l : cleaned (row_of 4 l) = shifted 4 l.
Proof. unfold row_of, shifted. destruct l; reflexivity. Qed.

Lemma method_rows_text ms :
  List.concat (map (fun r => written 12 r ++ nl)
                   (List.concat (map (fun m => map (row_of 4) (method_lines m)
                                               ++ [Blanks 0]) ms)))
  = List.concat
      (map (fun m => List.concat (map (fun l => shifted 16 l ++ nl) (method_lines m))
                     ++ nl) ms).
Proof.
  induction ms as [|m ms IH]; [reflexivity|].
  cbn [map List.concat]. rewrite map_app, concat_app, IH. f_equal.
  rewrite map_app, concat_app, map_map. cbn [map List.concat written spaces repeat app].
  rewrite app_nil_r. f_equal. f_equal. apply map_ext. intros l.
  rewrite written_row_of. reflexivity.
Qed.

Lemma entry_rows_text ms rest :
  List.concat (map (fun m => nl ++ spaces 20 ++ table_entry m) ms) ++ nl ++ rest
  = nl ++ List.concat (map (fun r => written 12 r ++ nl)
                           (map (fun m => Line (spaces 8 ++ table_entry m)) ms))
       ++ rest.
Proof.
  rewrite app_assoc, (shift_newlines (fun m => spaces 20 ++ table_entry m)).
  rewrite <- app_assoc. f_equal. f_equal. rewrite map_map. reflexivity.
Qed.

Lemma method_blocks_rows ms :
  ms <> [] ->
  List.concat (map (fun m => map cleaned (map (row_of 4) (method_lines m) ++ [Blanks 0])) ms)
  = method_blocks (map method_lines ms) ++ [[]].
Proof.
  induction ms as [|m ms IH]; [contradiction|]. intros _.
  cbn [map List.concat]. rewrite map_app, map_map. cbn [map cleaned].
  rewrite (map_ext _ _ cleaned_row_of).
  destruct ms as [|m' ms].
  - cbn [map List.concat method_blocks]. rewrite app_nil_r. reflexivity.
  - rewrite IH by discriminate. cbn [map method_blocks].
    rewrite <- !app_assoc. reflexivity.
Qed.

Lemma shifted_nonempty k l : l <> [] -> shifted k l <> [].
Proof.
  unfold shifted. destruct l as [|c l]; [contradiction|]. intros _. cbn [is_nil].
  destruct k; discriminate.
Qed.

Lemma method_blocks_last ms :
  ms <> [] ->
  Forall (fun m => last (method_lines m) [] <> []) ms ->
  exists Y z, method_blocks (map method_lines ms) = Y ++ [z] /\ z <> [].
Proof.
  induction ms as [|m ms IH]; [contradiction|]. intros _ H.
  inversion H as [|? ? Hm Hms]; subst.
  destruct ms as [|m' ms].
  - cbn [map method_blocks].
    destruct (method_lines m) as [|l ls] eqn:E; [contradiction|].
    assert (N : l :: ls <> []) by discriminate.
    rewrite (app_removelast_last [] N), map_app. cbn [map].
    eexists. eexists. split; [reflexivity|]. apply shifted_nonempty, Hm.
  - destruct (IH ltac:(discriminate) Hms) as (Y & z & EY & Hz).
    cbn [map method_blocks] in *. rewrite EY.
    exists (map (shifted 4) (method_lines m) ++ [] :: Y), z. split; [|exact Hz].
    rewrite <- app_assoc. reflexivity.
Qed.

Ltac flatten_text :=
  cbv [str list_ascii_of_string spaces repeat nl];
  repeat (progress (rewrite <- ?app_assoc; cbn [app])).

Lemma no_break_no_newline s : no_break s = true -> no_newline s = true.
Proof.
  unfold no_break, no_newline. induction s as [|c s IH]; [reflexivity|]. cbn [forallb].
  intros H. apply andb_true_iff in H. destruct H as [Hc Hs]. rewrite (IH Hs), andb_true_r.
  ascii_fact (fun c => implb (negb (is_linebreak c)) (negb (Ascii.eqb c newline))) c.
  rewrite Hc in E. exact E.
Qed.

Lemma short_doc_line doc :
  short_doc doc = true -> truthy doc = true ->
  code_line (triple_quote ++ text_of doc ++ triple_quote) = true.
Proof.
  destruct doc as [d|]; [|discriminate]. cbn [short_doc text_of]. intros H _.
  apply andb_true_iff in H. destruct H as [Hb Ht].
  unfold code_line, plain_line.
  rewrite !no_newline_app, !no_tab_app, (no_break_no_newline d Hb), Ht.
  unfold no_break in *. rewrite !forallb_app, Hb. reflexivity.
Qed.

Lemma docstring_rows doc :
  short_doc doc = true -> truthy doc = true ->
  indent (nl ++ triple_quote ++ text_of doc ++ triple_quote ++ nl) (spaces 16)
  = nl ++ spaces 16 ++ triple_quote ++ text_of doc ++ triple_quote ++ nl.
Proof.
  intros H Ht. pose proof (short_doc_line doc H Ht) as Hc.
  assert (Hl : forallb code_or_empty [[]; triple_quote ++ text_of doc ++ triple_quote]
               = true).
  { cbn [forallb]. unfold code_or_empty at 2. rewrite Hc, orb_true_r. reflexivity. }
  pose proof (indent_lines 16 _ Hl) as I.
  cbn [map List.concat] in I.
  rewrite app_nil_r in I. cbn [app] in I. rewrite <- !app_assoc in I.
  cbn [app]. rewrite I. unfold shifted.
  replace (is_nil (triple_quote ++ text_of doc ++ triple_quote)) with false by reflexivity.
  cbn [is_nil app]. rewrite <- !app_assoc, app_nil_r. reflexivity.
Qed.

Lemma row_of_fits l : code_or_empty l = true -> row_fits 12 (row_of 4 l) = true.
Proof.
  unfold code_or_empty, row_of. destruct l as [|c l]; [reflexivity|].
  cbn [is_nil orb row_fits]. unfold code_line. intros H.
  apply andb_true_iff in H. destruct H as [H _].
  destruct (plain_line_parts _ H) as (H1 & H2 & H3).
  unfold plain_line. rewrite no_newline_app, no_tab_app, H1, H2, no_newline_spaces,
    no_tab_spaces, lstrip_spaces, H3. reflexivity.
Qed.

Lemma table_entry_line m :
  ctypes_fntable_string m = Answer (table_entry m) -> one_line (table_entry m) = true ->
  plain_line (spaces 8 ++ table_entry m) = true.
Proof.
  intros H Hl. destruct (one_line_parts _ Hl) as [H1 H2].
  unfold plain_line. rewrite no_newline_app, no_tab_app, H1, H2, no_newline_spaces,
    no_tab_spaces, lstrip_spaces. cbn [andb].
  unfold table_entry in *. unfold ctypes_fntable_string in *.
  destruct (downcase_first (Method.name m)); [|discriminate].
  destruct (Method.type_ m); [|discriminate]. reflexivity.
Qed.

Lemma method_rows_fit ms :
  Forall (fun m => forallb code_or_empty (method_lines m) = true) ms ->
  forallb (row_fits 12)
          (List.concat (map (fun m => map (row_of 4) (method_lines m) ++ [Blanks 0]) ms))
  = true.
Proof.
  induction 1 as [|m ms Hm _ IH]; [reflexivity|].
  cbn [map List.concat]. rewrite !forallb_app, IH. cbn [forallb row_fits Nat.leb].
  rewrite !andb_true_r. clear -Hm. induction (method_lines m) as [|l ls IHl]; [reflexivity|].
  cbn [forallb map] in *. apply andb_true_iff in Hm. destruct Hm as [Hl Hls].
  rewrite (row_of_fits l Hl), (IHl Hls). reflexivity.
Qed.

(** X17: the text of a class with methods.  When every method is rendered
    as lines of code and the names are one line each, the text of the class
    is: the function table with one entry for each method, in the order of
    the methods; two empty lines; the class with its docstring, if it has
    one, and its constructor; an empty line; and the text of every method,
    one level to the right, with an empty line between two methods. *)
Theorem class_text (c : Class.t) :
  let N := translate_type (Class.name c) in
  let ms := Class.methods c in
  ms <> [] ->
  forallb tidy_method ms = true ->
  one_line N = true -> one_line (Class.base c) = true ->
  short_doc (Class.docstring c) = true ->
  snd (Class.to_str c)
  = Answer (join nl
      ([str "class " ++ N ++ str "_FnTable(Structure):";
        str "    _fields_ = ["]
       ++ map (fun m => str "        " ++ table_entry m) ms
       ++ [str "    ]"; []; [];
           str "class " ++ N ++ str "(" ++ Class.base c ++ str "):"]
       ++ (if truthy (Class.docstring c)
           then [str "    " ++ triple_quote ++ text_of (Class.docstring c) ++ triple_quote;
                 []]
           else [])
       ++ [str "    def __init__(self):";
           str "        version_key = " ++ N ++ str "_Version";
           str "        if not isInterfaceVersionValid(version_key):";
           str "            _checkInitError(VRInitError_Init_InterfaceNotFound)";
           str "        fn_key = b" ++ [dquote] ++ str "FnTable:" ++ [dquote]
             ++ str " + version_key";
           str "        fn_type = " ++ N ++ str "_FnTable";
           str "        fn_table_ptr = cast(getGenericInterface(fn_key), POINTER(fn_type))";
           str "        if fn_table_ptr is None:";
           str "            raise OpenVRError(" ++ [dquote]
             ++ str "Error retrieving VR API for " ++ N ++ [dquote] ++ str ")";
           str "        self.function_table = fn_table_ptr.contents";
           []]
       ++ method_blocks (map method_lines ms))).
Proof.
  intros N ms Hne Hms HN HB Hdoc.
  unfold Class.to_str. fold N. fold ms.
  destruct ms as [|m0 ms0] eqn:Ems; [contradiction|]. rewrite <- Ems in *.
  rewrite (collect_tidy ms Hms). cbn [snd]. f_equal.
  set (doc := Class.docstring c) in *.
  set (B := Class.base c) in *.
  set (rows :=
         [Line (str "    _fields_ = [")]
         ++ map (fun m => Line (spaces 8 ++ table_entry m)) ms
         ++ [Line (str "    ]"); Blanks 8; Blanks 0;
             Line (str "class " ++ N ++ str "(" ++ B ++ str "):")]
         ++ (if truthy doc
             then [Line (str "    " ++ triple_quote ++ text_of doc ++ triple_quote);
                   Blanks 0]
             else [])
         ++ [Line (str "    def __init__(self):");
             Line (str "        version_key = " ++ N ++ str "_Version");
             Line (str "        if not isInterfaceVersionValid(version_key):");
             Line (str "            _checkInitError(VRInitError_Init_InterfaceNotFound)");
             Line (str "        fn_key = b" ++ [dquote] ++ str "FnTable:" ++ [dquote]
                   ++ str " + version_key");
             Line (str "        fn_type = " ++ N ++ str "_FnTable");
             Line (str "        fn_table_ptr = cast(getGenericInterface(fn_key), POINTER(fn_type))");
             Line (str "        if fn_table_ptr is None:");
             Line (str "            raise OpenVRError(" ++ [dquote]
                   ++ str "Error retrieving VR API for " ++ N ++ [dquote] ++ str ")");
             Line (str "        self.function_table = fn_table_ptr.contents");
             Blanks 0]
         ++ List.concat (map (fun m => map (row_of 4) (method_lines m) ++ [Blanks 0]) ms)
         ++ [Blanks 0]).
  assert (ET : forall docstring,
             docstring = (if truthy doc
                          then nl ++ spaces 16 ++ triple_quote ++ text_of doc
                               ++ triple_quote ++ nl
                          else []) ->
             Class.template N B docstring
               ([] ++ List.concat (map (fun m => nl ++ spaces 20 ++ table_entry m) ms))
               (nl ++ List.concat
                        (map (fun m => List.concat (map (fun l => shifted 16 l ++ nl)
                                                        (method_lines m)) ++ nl) ms))
             = nl ++ List.concat
                       (map (fun r => written 12 r ++ nl)
                            (Line (str "class " ++ N ++ str "_FnTable(Structure):") :: rows))
                  ++ spaces 8).
  { intros docstring ->. unfold Class.template, rows.
    cbn [List.concat]. rewrite app_nil_l, app_nil_r.
    match goal with
    | |- context [map ?f (?y :: ?r)] => change (map f (y :: r)) with (map f ([y] ++ r))
    end.
    rewrite !map_app, !concat_app. rewrite method_rows_text.
    rewrite <- !app_assoc.
    rewrite (entry_rows_text ms).
    destruct (truthy doc); cbn [map List.concat written];
      flatten_text; reflexivity. }
  assert (Hparts : Forall (fun m => forallb code_or_empty (method_lines m) = true
                                    /\ last (method_lines m) [] <> []
                                    /\ one_line (table_entry m) = true) ms).
  { apply Forall_forall. intros m Hm. rewrite forallb_forall in Hms.
    destruct (tidy_method_parts m (Hms m Hm)) as (_ & _ & H1 & H2 & H3). auto. }
  destruct (method_blocks_last ms Hne) as (Yb & zb & EY & Hz).
  { revert Hparts. apply Forall_impl. intros m H. apply H. }
  assert (ED : (if truthy doc
                then indent (nl ++ triple_quote ++ text_of doc ++ triple_quote ++ nl)
                            (spaces 16)
                else [])
               = (if truthy doc
                  then nl ++ spaces 16 ++ triple_quote ++ text_of doc ++ triple_quote ++ nl
                  else [])).
  { destruct (truthy doc) eqn:Et; [apply docstring_rows; assumption|reflexivity]. }
  rewrite ED. etransitivity; [apply f_equal; exact (ET _ eq_refl)|].
  rewrite (cleandoc_rows 12 _ rows 8
             ([str "class " ++ N ++ str "_FnTable(Structure):";
               str "    _fields_ = ["]
              ++ map (fun m => str "        " ++ table_entry m) ms
              ++ [str "    ]"; []; [];
                  str "class " ++ N ++ str "(" ++ B ++ str "):"]
              ++ (if truthy doc
                  then [str "    " ++ triple_quote ++ text_of doc ++ triple_quote; []]
                  else [])
              ++ [str "    def __init__(self):";
                  str "        version_key = " ++ N ++ str "_Version";
                  str "        if not isInterfaceVersionValid(version_key):";
                  str "            _checkInitError(VRInitError_Init_InterfaceNotFound)";
                  str "        fn_key = b" ++ [dquote] ++ str "FnTable:" ++ [dquote]
                    ++ str " + version_key";
                  str "        fn_type = " ++ N ++ str "_FnTable";
                  str "        fn_table_ptr = cast(getGenericInterface(fn_key), POINTER(fn_type))";
                  str "        if fn_table_ptr is None:";
                  str "            raise OpenVRError(" ++ [dquote]
                    ++ str "Error retrieving VR API for " ++ N ++ [dquote] ++ str ")";
                  str "        self.function_table = fn_table_ptr.contents";
                  []]
              ++ Yb) zb [[]; []]).
  - rewrite EY. rewrite <- !app_assoc. reflexivity.
  - use_one_line. plain_lines.
  - reflexivity.
  - unfold rows. rewrite !forallb_app.
    repeat match goal with
           | |- (_ && _) = true => apply andb_true_intro; split
           end.
    + reflexivity.
    + apply forallb_forall. intros r Hr. apply in_map_iff in Hr.
      destruct Hr as (m & <- & Hm). rewrite forallb_forall in Hms.
      destruct (tidy_method_parts m (Hms m Hm)) as (_ & He & _ & _ & Hl).
      apply (table_entry_line m He Hl).
    + cbn [forallb row_fits Nat.leb]. rewrite !andb_true_r. use_one_line.
      apply plain_line_intro;
        [ rewrite ?no_newline_app; rewrite_lines; reflexivity
        | rewrite ?no_tab_app; rewrite_lines; reflexivity
        | rewrite ?existsb_app; cbn; rewrite ?orb_true_r; reflexivity ].
    + destruct (truthy doc) eqn:Et; [|reflexivity].
      cbn [forallb row_fits Nat.leb]. rewrite !andb_true_r.
      pose proof (short_doc_line doc Hdoc Et) as Hc. unfold code_line in Hc.
      apply andb_true_iff in Hc. destruct Hc as [Hc _].
      destruct (plain_line_parts _ Hc) as (H1 & H2 & H3).
      unfold plain_line. change (str "    ") with (spaces 4).
      rewrite no_newline_app, no_tab_app, H1, H2, no_newline_spaces, no_tab_spaces,
        lstrip_spaces, H3. reflexivity.
    + use_one_line. cbn [row_fits]. plain_lines.
    + apply method_rows_fit. revert Hparts. apply Forall_impl. intros m H. apply H.
    + reflexivity.
  - lia.
  - unfold rows.
    match goal with
    | |- map cleaned (?y :: ?r) = _ => change (map cleaned (y :: r)) with (map cleaned ([y] ++ r))
    end.
    rewrite !map_app, concat_map, !map_map, (method_blocks_rows ms Hne), EY.
    destruct (truthy doc); cbn [map cleaned];
      rewrite <- !app_assoc; reflexivity.
  - exact Hz.
  - repeat constructor.
Qed.

(** ** A class without methods *)

Lemma split_on_nonempty sep s : split_on sep s <> [].
Proof.
  destruct s as [|c s]; cbn [split_on]; [discriminate|].
  destruct (Ascii.eqb c sep); [discriminate|].
  destruct (split_on sep s); discriminate.
Qed.

Lemma split_on_app X Y :
  split_on newline (X ++ nl ++ Y) = split_on newline X ++ split_on newline Y.
Proof.
  induction X as [|c X IH].
  - cbn [app split_on nl]. rewrite Ascii.eqb_refl. reflexivity.
  - cbn [app split_on]. rewrite IH. destruct (Ascii.eqb c newline); [reflexivity|].
    destruct (split_on newline X) as [|l ls] eqn:E; [|reflexivity].
    exfalso. exact (split_on_nonempty _ _ E).
Qed.

Lemma join_split s : join nl (split_on newline s) = s.
Proof.
  induction s as [|c s IH]; [reflexivity|]. cbn [split_on].
  destruct (Ascii.eqb c newline) eqn:Ec.
  - apply Ascii.eqb_eq in Ec. subst c.
    destruct (split_on newline s) as [|l ls] eqn:E;
      [exfalso; exact (split_on_nonempty _ _ E)|].
    change (join nl ([] :: l :: ls)) with (nl ++ join nl (l :: ls)).
    rewrite IH. reflexivity.
  - destruct (split_on newline s) as [|l ls] eqn:E;
      [exfalso; exact (split_on_nonempty _ _ E)|].
    rewrite <- IH. destruct ls; reflexivity.
Qed.

Lemma margin_zero ls : fold_left min_margin ls (Some 0) = Some 0.
Proof.
  induction ls as [|l ls IH]; [reflexivity|]. cbn [fold_left]. unfold min_margin at 2.
  destruct (indentation l); exact IH.
Qed.

Lemma keep_lines (h : text) ls l0 (t : text) :
  h <> [] -> t <> [] ->
  drop_empty (rev (drop_empty (rev ([] :: (h :: ls) ++ [l0; t])))) = (h :: ls) ++ [l0; t].
Proof.
  intros Hh Ht.
  assert (E : [] :: (h :: ls) ++ [l0; t] = ([] :: h :: ls ++ [l0]) ++ [t]).
  { cbn [app]. rewrite <- app_assoc. reflexivity. }
  rewrite E, rev_unit, (drop_empty_nonempty t _ Ht).
  change (t :: rev ([] :: h :: ls ++ [l0])) with (rev (([] :: h :: ls ++ [l0]) ++ [t]))
    || (rewrite <- rev_unit).
  rewrite rev_involutive. cbn [app].
  change (drop_empty ([] :: h :: (ls ++ [l0]) ++ [t]))
    with (drop_empty (h :: (ls ++ [l0]) ++ [t])).
  rewrite (drop_empty_nonempty h _ Hh), <- app_assoc. reflexivity.
Qed.

Lemma join_snoc ys (t : text) :
  join nl (ys ++ [t]) = List.concat (map (fun y => y ++ nl) ys) ++ t.
Proof.
  induction ys as [|y ys IH]; [reflexivity|].
  cbn [app map List.concat]. rewrite <- app_assoc, <- IH.
  destruct ys; cbn [app join]; rewrite <- ?app_assoc; reflexivity.
Qed.

Lemma split_join ys (t : text) :
  Forall (fun l => one_line l = true) (ys ++ [t]) ->
  split_on newline (join nl (ys ++ [t])) = ys ++ [t]
  /\ no_tab (join nl (ys ++ [t])) = true.
Proof.
  intros H. apply Forall_app in H. destruct H as [Hys Ht].
  inversion Ht as [|? ? Ht' _]; subst. destruct (one_line_parts t Ht') as [Hn Hb].
  rewrite join_snoc. split.
  - apply split_on_lines; [|exact Hn]. revert Hys. apply Forall_impl.
    intros l Hl. apply one_line_parts in Hl. apply Hl.
  - rewrite no_tab_app, Hb, andb_true_r. clear -Hys.
    induction Hys as [|l ls Hl _ IH]; [reflexivity|].
    cbn [map List.concat]. destruct (one_line_parts l Hl) as [_ Hb].
    rewrite !no_tab_app, Hb, IH. reflexivity.
Qed.

Lemma margin_reaches_zero A l0 B init :
  indentation l0 = Some 0 -> fold_left min_margin (A ++ l0 :: B) init = Some 0.
Proof.
  intros H. rewrite fold_left_app. cbn [fold_left].
  generalize (fold_left min_margin A init). intros m.
  replace (min_margin m l0) with (Some 0); [apply margin_zero|].
  unfold min_margin. rewrite H. destruct m; [rewrite Nat.min_0_r|]; reflexivity.
Qed.

(** A template that opens with a newline and holds a line of code that
    starts in the first column: [cleandoc] drops the newline and nothing
    else, when the first and the last line are not empty. *)
Lemma cleandoc_flush (h : text) Ls l0 (t : text) :
  Forall (fun l => one_line l = true) ((h :: Ls ++ [l0]) ++ [t]) ->
  h <> [] -> t <> [] ->
  match l0 with c :: _ => is_space c = false | [] => False end ->
  cleandoc (nl ++ join nl ((h :: Ls ++ [l0]) ++ [t])) = join nl ((h :: Ls ++ [l0]) ++ [t]).
Proof.
  intros H Hh Ht Hl0. destruct (split_join _ _ H) as [ES ETab].
  unfold cleandoc.
  rewrite expandtabs_id by (unfold nl at 1; cbn [app no_tab forallb]; exact ETab).
  unfold nl at 1. cbn [app split_on]. rewrite Ascii.eqb_refl.
  match goal with
  | |- context [?u] =>
      match u with
      | split_on newline _ =>
          replace u with ((h :: Ls ++ [l0]) ++ [t]) by (symmetry; exact ES)
      end
  end.
  assert (EM : fold_left min_margin ((h :: Ls ++ [l0]) ++ [t]) None = Some 0).
  { change ((h :: Ls ++ [l0]) ++ [t]) with (((h :: Ls) ++ [l0]) ++ [t]).
    rewrite <- app_assoc. apply margin_reaches_zero.
    exact (indentation_first 0 l0 Hl0). }
  rewrite EM.
  assert (EK : map (skipn 0) ((h :: Ls ++ [l0]) ++ [t]) = (h :: Ls ++ [l0]) ++ [t]).
  { rewrite <- (map_id ((h :: Ls ++ [l0]) ++ [t])) at 2. apply map_ext. reflexivity. }
  rewrite EK. cbn [lstrip]. f_equal.
  pose proof (keep_lines h Ls l0 t Hh Ht) as K.
  cbn [app] in *. rewrite <- app_assoc. cbn [app]. exact K.
Qed.

Lemma short_doc_one_line doc :
  short_doc doc = true -> truthy doc = true -> one_line (text_of doc) = true.
Proof.
  destruct doc as [d|]; [|discriminate]. cbn [short_doc text_of]. intros H _.
  apply andb_true_iff in H. destruct H as [Hb Ht].
  unfold one_line. rewrite (no_break_no_newline d Hb), Ht. reflexivity.
Qed.

Lemma one_line_cons c s : one_line (c :: s) = one_line [c] && one_line s.
Proof. apply (one_line_app [c] s). Qed.

Ltac one_lines :=
  repeat match goal with
         | |- Forall _ (_ :: _) => constructor
         | |- Forall _ [] => constructor
         | |- Forall _ (_ ++ _) => apply Forall_app; split
         end;
  repeat (progress (rewrite ?one_line_app, ?(one_line_cons dquote (_ ++ _)),
                      ?(one_line_cons dquote (str _))));
  repeat match goal with
         | H : one_line ?x = true |- context [one_line ?x] => rewrite H
         end;
  reflexivity.

(** X18: a class without methods.  The placeholder [pass] is put in the
    first column of the template, so that [inspect.cleandoc] finds no
    margin to remove: the text of the class keeps the indentation of the
    template, twelve columns and more, ends with the line [pass] in the
    first column and a line of eight blanks, and only the newline at the
    start of the template is dropped. *)
Theorem class_without_methods (c : Class.t) :
  let N := translate_type (Class.name c) in
  let doc := Class.docstring c in
  Class.methods c = [] ->
  one_line N = true -> one_line (Class.base c) = true -> short_doc doc = true ->
  snd (Class.to_str c)
  = Answer (join nl
      ([spaces 12 ++ str "class " ++ N ++ str "_FnTable(Structure):";
        spaces 16 ++ str "_fields_ = [";
        spaces 16 ++ str "]";
        spaces 8;
        [];
        spaces 12 ++ str "class " ++ N ++ str "(" ++ Class.base c ++ str "):"]
       ++ (if truthy doc
           then [spaces 16 ++ triple_quote ++ text_of doc ++ triple_quote; []]
           else [])
       ++ [spaces 16 ++ str "def __init__(self):";
           spaces 20 ++ str "version_key = " ++ N ++ str "_Version";
           spaces 20 ++ str "if not isInterfaceVersionValid(version_key):";
           spaces 24 ++ str "_checkInitError(VRInitError_Init_InterfaceNotFound)";
           spaces 20 ++ str "fn_key = b" ++ [dquote] ++ str "FnTable:" ++ [dquote]
             ++ str " + version_key";
           spaces 20 ++ str "fn_type = " ++ N ++ str "_FnTable";
           spaces 20
             ++ str "fn_table_ptr = cast(getGenericInterface(fn_key), POINTER(fn_type))";
           spaces 20 ++ str "if fn_table_ptr is None:";
           spaces 24 ++ str "raise OpenVRError(" ++ [dquote]
             ++ str "Error retrieving VR API for " ++ N ++ [dquote] ++ str ")";
           spaces 20 ++ str "self.function_table = fn_table_ptr.contents";
           str "pass";
           spaces 8])).
Proof.
  intros N doc Hm HN HB Hdoc. unfold Class.to_str. fold N. fold doc. rewrite Hm.
  cbn [snd]. f_equal. set (B := Class.base c) in *.
  assert (ED : (if truthy doc
                then indent (nl ++ triple_quote ++ text_of doc ++ triple_quote ++ nl)
                            (spaces 16)
                else [])
               = (if truthy doc
                  then nl ++ spaces 16 ++ triple_quote ++ text_of doc ++ triple_quote ++ nl
                  else [])).
  { destruct (truthy doc) eqn:Et; [apply docstring_rows; assumption|reflexivity]. }
  rewrite ED. clear ED.
  assert (HD : truthy doc = true -> one_line (text_of doc) = true)
    by (apply short_doc_one_line; exact Hdoc).
  set (D := text_of doc) in *.
  destruct (truthy doc); [specialize (HD eq_refl)|clear HD];
    match goal with
    | |- cleandoc _ = join nl ?ls =>
        let ls' := eval cbn [app] in ls in
        match ls' with
        | ?h :: ?rest =>
            let Ls := eval cbv beta iota zeta delta [removelast] in
                        (removelast (removelast rest)) in
            transitivity (cleandoc (nl ++ join nl ((h :: Ls ++ [str "pass"])
                                                   ++ [spaces 8])));
            [ f_equal; unfold Class.template; cbn [List.concat join app];
              flatten_text; reflexivity
            | etransitivity;
              [ apply cleandoc_flush;
                [ one_lines | discriminate | discriminate | reflexivity ]
              | reflexivity ] ]
        end
    end.
Qed.

(** ** A class with a method that cannot be rendered *)

Lemma ends_with_out_string_iff m :
  ends_with_out_string m = true <->
  exists A p, Method.parameters m = A ++ [p] /\ Param.is_out_string p = true.
Proof.
  unfold ends_with_out_string. split.
  - destruct (rev (Method.parameters m)) as [|p r] eqn:E; [discriminate|].
    intros H. exists (rev r), p. split; [|exact H].
    rewrite <- (rev_involutive (Method.parameters m)), E. reflexivity.
  - intros (A & p & -> & H). rewrite rev_unit. exact H.
Qed.

Lemma failure_index m :
  failure m = Some Index_Error <->
  Method.name m = [] \/ ends_with_out_string m = true.
Proof.
  rewrite ends_with_out_string_iff, <- rendering_raises. unfold failure.
  destruct (snd (Method.ctypes_string m)) as [s|[]] eqn:E.
  - split; [|discriminate]. unfold ctypes_fntable_string.
    destruct (Method.name m) as [|c n] eqn:En.
    + rewrite (empty_name_raises m En) in E. discriminate.
    + cbn [downcase_first]. destruct (Method.type_ m); discriminate.
  - split; reflexivity.
Qed.

Lemma failure_attribute m :
  failure m = Some Attribute_Error <->
  Method.name m <> [] /\ ends_with_out_string m = false /\ Method.type_ m = None.
Proof.
  pose proof (failure_index m) as I. unfold failure in *.
  destruct (snd (Method.ctypes_string m)) as [s|[]] eqn:E.
  - unfold ctypes_fntable_string in *.
    destruct (Method.name m) as [|c n] eqn:En.
    + rewrite (empty_name_raises m En) in E. discriminate.
    + cbn [downcase_first] in *.
      assert (Ho : ends_with_out_string m = false).
      { destruct (ends_with_out_string m) eqn:Eo; [|reflexivity].
        destruct (Method.type_ m); (destruct I as [_ I]; specialize (I (or_intror eq_refl));
          discriminate). }
      destruct (Method.type_ m).
      * split; [discriminate|]. intros (_ & _ & H). discriminate.
      * split; [|reflexivity]. intros _. repeat split; [discriminate|exact Ho].
  - split; [discriminate|]. intros (Hn & Ho & _).
    destruct I as [I _]. destruct (I eq_refl) as [H|H]; [contradiction|congruence].
Qed.

Lemma collect_step m ms methods fn_table_methods :
  snd (Class.collect (m :: ms) methods fn_table_methods)
  = match failure m with
    | Some e => Class.Stopped e
    | None =>
        snd (Class.collect ms
               (methods ++ indent (method_text m) (spaces 16) ++ nl)
               (fn_table_methods ++ nl ++ spaces 20 ++ table_entry m))
    end.
Proof.
  cbn [Class.collect]. pose proof (fntable_after_rendering m) as F.
  unfold failure, method_text, table_entry.
  destruct (Method.ctypes_string m) as [m' out]. cbn [fst snd] in *.
  destruct out as [s|[]]; [|reflexivity]. rewrite F.
  destruct (ctypes_fntable_string m) as [entry|e]; [|reflexivity].
  destruct (Class.collect ms _ _). reflexivity.
Qed.

Lemma collect_stops ms : forall methods fn_table_methods e,
  snd (Class.collect ms methods fn_table_methods) = Class.Stopped e <->
  exists A m B, ms = A ++ m :: B /\ Forall (fun a => failure a = None) A
                /\ failure m = Some e.
Proof.
  induction ms as [|m ms IH]; intros methods fn e.
  - cbn [Class.collect snd]. split; [discriminate|].
    intros (A & m & B & E & _). destruct A; discriminate.
  - rewrite collect_step. destruct (failure m) as [e'|] eqn:Ef.
    + split.
      * intros H. injection H as ->. exists [], m, ms. auto.
      * intros (A & m' & B & E & HA & Hm). destruct A as [|a A].
        -- injection E as <- _. congruence.
        -- injection E as <- _. inversion HA; subst. congruence.
    + rewrite IH. split.
      * intros (A & m' & B & -> & HA & Hm). exists (m :: A), m', B. auto.
      * intros (A & m' & B & E & HA & Hm). destruct A as [|a A].
        -- injection E as <- _. congruence.
        -- injection E as <- ->. inversion HA; subst. exists A, m', B. auto.
Qed.

(** X19: when the text of a class cannot be made.  [Class.__str__] raises
    exactly when one of the methods cannot be rendered, and the exception
    is that of the first such method: [IndexError] for a method without a
    name or with an output string as its last parameter, [AttributeError]
    for a method that has a name and a length for every output string but
    no type. *)
Theorem class_raises (c : Class.t) (e : fault) :
  (snd (Class.to_str c) = Fault e <->
   exists A m B, Class.methods c = A ++ m :: B
                 /\ Forall (fun a => failure a = None) A /\ failure m = Some e)
  /\ (forall m,
        (failure m = Some Index_Error <->
         Method.name m = [] \/ ends_with_out_string m = true)
        /\ (failure m = Some Attribute_Error <->
            Method.name m <> [] /\ ends_with_out_string m = false
            /\ Method.type_ m = None)).
Proof.
  split; [|intros m; split; [apply failure_index|apply failure_attribute]].
  unfold Class.to_str. destruct (Class.methods c) as [|m ms] eqn:Em.
  - cbn [snd]. split; [discriminate|].
    intros (A & m & B & E & _). destruct A; discriminate.
  - rewrite <- (collect_stops (m :: ms) nl [] e).
    destruct (Class.collect (m :: ms) nl []) as [ms' [t1 t2|e']]; cbn [snd].
    + split; discriminate.
    + split; intros H; injection H as ->; reflexivity.
Qed.

(** ** Enumerations *)

Lemma enum_text_concat e :
  EnumDecl.to_str e
  = (EnumDecl.name e ++ str " = ENUM_TYPE")
    ++ List.concat (map (fun c => nl ++ EnumConstant.to_str c) (EnumDecl.constants e)).
Proof.
  unfold EnumDecl.to_str.
  apply (fold_left_app_acc (fun c => nl ++ EnumConstant.to_str c)).
Qed.

Lemma join_cons_lines (h : text) ls :
  join nl (h :: ls) = h ++ List.concat (map (fun l => nl ++ l) ls).
Proof.
  revert h. induction ls as [|l ls IH]; intros h.
  - cbn [join map List.concat]. rewrite app_nil_r. reflexivity.
  - change (join nl (h :: l :: ls)) with (h ++ nl ++ join nl (l :: ls)).
    rewrite IH. cbn [map List.concat]. rewrite <- !app_assoc. reflexivity.
Qed.

Lemma split_on_join (h : text) ls :
  Forall (fun l => no_newline l = true) (h :: ls) ->
  split_on newline (join nl (h :: ls)) = h :: ls.
Proof.
  intros Hall. destruct (exists_last (l := h :: ls)) as (ys & t & E); [discriminate|].
  rewrite E in *. apply Forall_app in Hall. destruct Hall as [Hys Ht].
  inversion Ht; subst. rewrite join_snoc. apply split_on_lines; assumption.
Qed.

(** X20: the text of an enumeration is read back line by line.  When the
    names and the values hold no newline, the text splits at the newlines
    into the line of the type and one line for every constant, in the
    order in which the constants were added; and adding a constant adds its
    line at the end. *)
Theorem enum_lines (e : EnumDecl.t) (c : EnumConstant.t) :
  no_newline (EnumDecl.name e) = true ->
  forallb (fun k => no_newline (EnumConstant.name k) && no_newline (EnumConstant.value k))
          (EnumDecl.constants e) = true ->
  split_on newline (EnumDecl.to_str e)
  = (EnumDecl.name e ++ str " = ENUM_TYPE")
    :: map EnumConstant.to_str (EnumDecl.constants e)
  /\ EnumDecl.to_str (EnumDecl.add_constant e c)
     = EnumDecl.to_str e ++ nl ++ EnumConstant.to_str c.
Proof.
  intros Hn Hc. split.
  - rewrite enum_text_concat.
    rewrite <- (map_map EnumConstant.to_str (fun l => nl ++ l)), <- join_cons_lines.
    set (h := EnumDecl.name e ++ str " = ENUM_TYPE").
    set (ls := map EnumConstant.to_str (EnumDecl.constants e)).
    assert (Hall : Forall (fun l => no_newline l = true) (h :: ls)).
    { constructor.
      - unfold h. rewrite no_newline_app, Hn. reflexivity.
      - unfold ls. apply Forall_map. apply Forall_forall. intros k Hk.
        rewrite forallb_forall in Hc. specialize (Hc k Hk).
        apply andb_true_iff in Hc. destruct Hc as [H1 H2].
        unfold EnumConstant.to_str. rewrite !no_newline_app, H1, H2. reflexivity. }
    exact (split_on_join h ls Hall).
  - rewrite !enum_text_concat. cbn [EnumDecl.add_constant EnumDecl.name EnumDecl.constants].
    rewrite map_app, concat_app. cbn [map List.concat].
    rewrite app_nil_r, <- !app_assoc. reflexivity.
Qed.

(** ** Type aliases *)

(** X21: a type alias is written only when it says something.  The text of
    a [Typedef] is empty exactly when the alias is the translation of the
    original; so an alias of a declared type for its own spelling in the
    namespace [vr::] gives no text, and any other alias of it gives the
    assignment of the bare name to the alias. *)
Theorem typedef_text (t : Typedef.t) :
  (Typedef.to_str t = [] <-> Typedef.name t = translate_type (Typedef.original t))
  /\ (forall y, type_name y = true -> Typedef.original t = str "vr::" ++ y ->
        Typedef.to_str t
        = if text_eqb (Typedef.name t) y then []
          else Typedef.name t ++ str " = " ++ y).
Proof.
  split.
  - unfold Typedef.to_str.
    destruct (text_eqb (Typedef.name t) (translate_type (Typedef.original t))) eqn:E.
    + apply text_eqb_eq in E. split; auto.
    + split.
      * intros H. apply (f_equal (@List.length ascii)) in H.
        rewrite !length_app in H. cbn [List.length str list_ascii_of_string] in H. lia.
      * intros H. apply text_eqb_eq in H. congruence.
  - intros y Hy Ho. unfold Typedef.to_str. rewrite Ho.
    replace (translate_type (str "vr::" ++ y)) with y; [reflexivity|].
    symmetry. apply (translate_type_fuel_sound 1).
    apply (dressed_name_fuel (str "vr::") y 0 false (or_intror eq_refl) Hy).
Qed.

(** ** The wrapper of a function with an error output *)

Lemma splitlines_rest s : forall cur,
  no_break s = true -> s <> [] -> splitlines_from cur s = [rev cur ++ s].
Proof.
  induction s as [|c s IH]; intros cur H Hs; [contradiction|].
  cbn [no_break forallb] in H. apply andb_true_iff in H. destruct H as [Hc Hl].
  apply negb_true_iff in Hc. cbn [splitlines_from]. rewrite Hc.
  destruct s as [|d s].
  - cbn [splitlines_from is_nil rev]. reflexivity.
  - rewrite (IH (c :: cur) Hl) by discriminate. cbn [rev]. rewrite <- app_assoc.
    reflexivity.
Qed.

(** The docstring of a function, as [textwrap.indent] leaves it. *)
Lemma function_docstring doc :
  short_doc doc = true -> truthy doc = true ->
  indent (nl ++ triple_quote ++ text_of doc ++ triple_quote) (spaces 20)
  = nl ++ spaces 20 ++ triple_quote ++ text_of doc ++ triple_quote.
Proof.
  intros H Ht. pose proof (short_doc_line doc H Ht) as Hc.
  unfold code_line in Hc. apply andb_true_iff in Hc. destruct Hc as [Hp Hb].
  destruct (plain_line_parts _ Hp) as (_ & _ & Hl).
  unfold indent.
  pose proof (splitlines_line [] [] (triple_quote ++ text_of doc ++ triple_quote) eq_refl)
    as S.
  cbn [app rev] in S. cbn [app]. rewrite S.
  rewrite (splitlines_rest _ [] Hb) by discriminate.
  cbn [rev app map List.concat]. rewrite !strip_nil_iff, Hl. rewrite app_nil_r.
  reflexivity.
Qed.

Lemma error_wrapper_text (f : Func.t) (py_name : text) (e : Param.t) :
  downcase_first (Func.python_name f) = Some py_name ->
  last_error (Func.parameters f) None = Some e ->
  short_doc (Func.docstring f) = true ->
  one_line (Func.name f) = true ->
  one_line (translate_type (spelling (Func.type_ f))) = true ->
  forallb tidy_parameter (Func.parameters f) = true ->
  let ps := Func.parameters f in
  Func.to_str f
  = Returned
      (join nl
         ([str "_openvr." ++ Func.name f ++ str ".restype = "
           ++ translate_type (spelling (Func.type_ f));
           str "_openvr." ++ Func.name f ++ str ".argtypes = ["
           ++ join (str ", ") (map (fun p => translate_type (spelling (Param.type_ p))) ps)
           ++ str "]";
           str "def " ++ py_name ++ str "("
           ++ join (str ", ")
                (map Func.signature_name (filter (fun p => negb (Param.is_error p)) ps))
           ++ str "):"]
          ++ (if truthy (Func.docstring f)
              then [str "    " ++ triple_quote ++ text_of (Func.docstring f) ++ triple_quote]
              else [])
          ++ [str "    " ++ Param.name e ++ str " = "
              ++ translate_type (spelling (get_pointee (Param.type_ e))) ++ str "()";
              str "    result =     _openvr." ++ Func.name f ++ str "("
              ++ join (str ", ") (map Func.call_argument ps) ++ str ")";
              str "    _checkInitError(" ++ Param.name e ++ str ".value)";
              str "    return result"])).
Proof.
  intros Hn Ee Hdoc HN HR HP ps.
  rewrite (to_str_collected f py_name Hn). cbv zeta. rewrite Ee. fold ps.
  change (last_error ps None = Some e) in Ee. change (forallb tidy_parameter ps = true) in HP.
  pose proof (one_line_python_name f py_name HN Hn) as Hpy.
  set (args := join (str ", ")
                 (map Func.signature_name (filter (fun p => negb (Param.is_error p)) ps))).
  assert (Hargs : one_line args = true).
  { apply one_line_join; [reflexivity|]. apply Forall_map, Forall_forall.
    intros p Hp. apply filter_In in Hp. destruct Hp as [Hp _].
    apply tidy_signature_name. rewrite forallb_forall in HP. apply HP, Hp. }
  set (call_args := join (str ", ") (map Func.call_argument ps)) in *.
  assert (Hcall : one_line call_args = true).
  { apply one_line_join; [reflexivity|]. apply Forall_tidy; [|exact HP].
    apply tidy_call_argument. }
  set (arg_types := join (str ", ")
                      (map (fun p => translate_type (spelling (Param.type_ p))) ps)) in *.
  assert (Htys : one_line arg_types = true).
  { apply one_line_join; [reflexivity|]. apply Forall_tidy; [|exact HP].
    intros p Hp. apply tidy_parts in Hp. apply Hp. }
  set (restype := translate_type (spelling (Func.type_ f))) in *.
  set (name := Func.name f) in *.
  assert (He : In e ps).
  { apply last_error_in in Ee. destruct Ee as [Ee|Ee]; [discriminate|exact Ee]. }
  rewrite forallb_forall in HP. apply HP, tidy_parts in He.
  destruct He as (Hen & _ & _ & Het).
  set (etype := translate_type (spelling (get_pointee (Param.type_ e)))) in *.
  set (ename := Param.name e) in *.
  set (doc := Func.docstring f) in *.
  assert (HD : truthy doc = true -> one_line (text_of doc) = true)
    by (apply short_doc_one_line; exact Hdoc).
  assert (ED : truthy doc = true ->
               indent (nl ++ triple_quote ++ text_of doc ++ triple_quote) (spaces 20)
               = nl ++ spaces 20 ++ triple_quote ++ text_of doc ++ triple_quote)
    by (apply function_docstring; exact Hdoc).
  destruct (truthy doc); [specialize (HD eq_refl); rewrite (ED eq_refl)|clear HD];
    clear ED; use_one_line; f_equal; cbn [app];
    rewrite <- (cleandoc_block 16 _ _ 12);
    [ f_equal; unfold Func.error_template; cbn [List.concat map];
      rewrite <- ?app_assoc, ?app_nil_r; reflexivity
    | plain_lines | reflexivity | lia
    | f_equal; unfold Func.error_template; cbn [List.concat map];
      rewrite <- ?app_assoc, ?app_nil_r; reflexivity
    | plain_lines | reflexivity | lia ].
Qed.


(** X5: when several parameters of a function are error outputs, the
    wrapper allocates and checks the last of them only: in the text of the
    wrapper, the one statement that makes a fresh value and the one call
    of [_checkInitError] name the last error output.  The earlier ones are
    left out of the parameters of the wrapper all the same, and are still
    arguments of the native call. *)
Theorem last_error_parameter_wins (f : Func.t) (A B : list Param.t) (e : Param.t)
        (py_name : text) :
  Func.parameters f = A ++ e :: B ->
  Param.is_error e = true ->
  existsb Param.is_error B = false ->
  downcase_first (Func.python_name f) = Some py_name ->
  short_doc (Func.docstring f) = true ->
  one_line (Func.name f) = true ->
  one_line (translate_type (spelling (Func.type_ f))) = true ->
  forallb tidy_parameter (Func.parameters f) = true ->
  Func.to_str f
  = Returned
      (join nl
         ([str "_openvr." ++ Func.name f ++ str ".restype = "
           ++ translate_type (spelling (Func.type_ f));
           str "_openvr." ++ Func.name f ++ str ".argtypes = ["
           ++ join (str ", ")
                (map (fun p => translate_type (spelling (Param.type_ p))) (A ++ e :: B))
           ++ str "]";
           str "def " ++ py_name ++ str "("
           ++ join (str ", ")
                (map Func.signature_name
                     (filter (fun p => negb (Param.is_error p)) A ++ B))
           ++ str "):"]
          ++ (if truthy (Func.docstring f)
              then [str "    " ++ triple_quote ++ text_of (Func.docstring f) ++ triple_quote]
              else [])
          ++ [str "    " ++ Param.name e ++ str " = "
              ++ translate_type (spelling (get_pointee (Param.type_ e))) ++ str "()";
              str "    result =     _openvr." ++ Func.name f ++ str "("
              ++ join (str ", ") (map Func.call_argument (A ++ e :: B)) ++ str ")";
              str "    _checkInitError(" ++ Param.name e ++ str ".value)";
              str "    return result"])).
Proof.
  intros Hps He HB Hname Hdoc HN HR HP.
  assert (Ee : last_error (Func.parameters f) None = Some e).
  { rewrite Hps. apply last_error_single; assumption. }
  rewrite (error_wrapper_text f py_name e Hname Ee Hdoc HN HR HP).
  rewrite Hps, filter_app. cbn [filter]. rewrite He. cbn [negb].
  rewrite (filter_no_error B HB). reflexivity.
Qed.

(** ** The properties at the samples *)


(** X5 at a function with two error outputs: the wrapper allocates and
    checks the last one. *)
Lemma last_error_parameter_wins_witness :
  Func.to_str sample_two_errors
  = Returned
      (join nl
         [str "_openvr.VR_GetGenericInterface.restype = c_void_p";
          str "_openvr.VR_GetGenericInterface.argtypes = [POINTER(EVRInitError), c_char_p, POINTER(EVRInitError)]";
          str "def getGenericInterface(pchInterfaceVersion):";
          str "    peError = EVRInitError()";
          str "    result =     _openvr.VR_GetGenericInterface(byref(peFirst), pchInterfaceVersion, byref(peError))";
          str "    _checkInitError(peError.value)";
          str "    return result"]).
Proof.
  exact (last_error_parameter_wins sample_two_errors
           (firstn 2 (Func.parameters sample_two_errors)) []
           sample_error_parameter (str "getGenericInterface")
           eq_refl eq_refl eq_refl eq_refl eq_refl eq_refl eq_refl eq_refl).
Defined.

(** X6 at an array of poses. *)
Lemma array_pre_call_block_witness :
  Param.pre_call_block sample_array_parameter
  = str "if pTrackedDevicePoseArray is None:" ++ nl
    ++ str "    unTrackedDevicePoseArrayCount = k_unMaxTrackedDeviceCount" ++ nl
    ++ str "    pTrackedDevicePoseArray = (TrackedDevicePose_t * unTrackedDevicePoseArrayCount)()"
    ++ nl
    ++ str "    pTrackedDevicePoseArrayArg = byref(pTrackedDevicePoseArray[0])" ++ nl
    ++ str "else:" ++ nl
    ++ str "    unTrackedDevicePoseArrayCount = len(pTrackedDevicePoseArray)" ++ nl
    ++ str "    pTrackedDevicePoseArrayArg = byref(pTrackedDevicePoseArray[0])" ++ nl.
Proof.
  exact (array_pre_call_block sample_array_parameter
           [(1, str "unTrackedDevicePoseArrayCount")] eq_refl eq_refl eq_refl).
Defined.

(** X7 at an error output. *)
Lemma error_post_call_block_witness :
  Param.post_call_block sample_error_parameter
  = str "if peError.value != 0:" ++ nl
    ++ str "    raise OpenVRError(str(peError))" ++ nl.
Proof. exact (error_post_call_block sample_error_parameter eq_refl). Defined.

(** X8 at an output string. *)
Lemma output_string_fragments_witness :
  Param.is_array sample_string_parameter = None
  /\ Param.pre_call_block sample_string_parameter = []
  /\ Param.call_param_name sample_string_parameter = str "pchValue"
  /\ Param.return_param_name sample_string_parameter = Some (str "bytes(pchValue.value)").
Proof. exact (output_string_fragments sample_string_parameter eq_refl). Defined.

(** X9 at the event structure. *)
Lemma forward_declaration_text_witness :
  StructureForwardDeclaration.to_str (str "VREvent_t")
  = str "class VREvent_t(Structure):" ++ nl ++ str "    pass".
Proof. exact (forward_declaration_text (str "VREvent_t") eq_refl). Defined.

(** X10 at a structure with an array and a boolean. *)
Lemma struct_text_witness :
  Struct.to_str sample_struct
  = join nl
      [str "class HmdQuad_t(Structure):";
       str "    _fields_ = [";
       str "        (" ++ [dquote] ++ str "vCorners" ++ [dquote] ++ str ", HmdVector3_t * 4),";
       str "        (" ++ [dquote] ++ str "bValid" ++ [dquote] ++ str ", openvr_bool),";
       str "    ]"].
Proof.
  apply (struct_text sample_struct); try reflexivity.
  repeat constructor.
Defined.

(** X11 at a function with an error output. *)
Lemma function_wrapper_text_witness :
  Func.to_str sample_error_function
  = Returned
      (join nl
         [str "_openvr.VR_InitInternal.restype = c_uint32";
          str "_openvr.VR_InitInternal.argtypes = [POINTER(EVRInitError), EVRApplicationType]";
          str "def initInternal(eType):";
          str "    peError = EVRInitError()";
          str "    result =     _openvr.VR_InitInternal(byref(peError), eType)";
          str "    _checkInitError(peError.value)";
          str "    return result"]).
Proof.
  exact (function_wrapper_text sample_error_function (str "initInternal")
           eq_refl eq_refl eq_refl eq_refl eq_refl).
Defined.

(** X12 at [int] between blanks. *)
Lemma translate_type_padded_witness :
  translate_type_b (str " " ++ str "int" ++ str "  ") false = translate_type_b (str "int") false
  /\ translate_type_b (strip (str "int")) false = translate_type_b (str "int") false.
Proof. exact (translate_type_padded (str " ") (str "int") (str "  ") false eq_refl eq_refl). Defined.

(** X13 at the name of a matrix. *)
Lemma qualifier_is_dropped_witness :
  translate_type_b (str "const " ++ str "HmdMatrix34_t") false
  = translate_type_b (str "HmdMatrix34_t") false
  /\ translate_type_b (str "struct " ++ str "HmdMatrix34_t") false
     = translate_type_b (str "HmdMatrix34_t") false
  /\ translate_type_b (str "enum " ++ str "HmdMatrix34_t") false
     = translate_type_b (str "HmdMatrix34_t") false
  /\ translate_type_b (str "union " ++ str "HmdMatrix34_t") false
     = translate_type_b (str "HmdMatrix34_t") false.
Proof. exact (qualifier_is_dropped (str "HmdMatrix34_t") false eq_refl). Defined.

(** X14 at a pointer to a pointer to a matrix. *)
Lemma pointer_to_named_type_witness :
  translate_type (str "HmdMatrix34_t" ++ stars 2) = nested_pointer 2 (str "HmdMatrix34_t").
Proof. exact (pointer_to_named_type (str "HmdMatrix34_t") 2 eq_refl eq_refl). Defined.

(** X15 at a matrix, with one blank and two stars. *)
Lemma declared_type_spellings_witness :
  translate_type (str "vr::" ++ str "HmdMatrix34_t") = str "HmdMatrix34_t"
  /\ translate_type (str "HmdMatrix34_t" ++ repeat " "%char 1 ++ stars 2)
     = nested_pointer 2 (str "HmdMatrix34_t")
  /\ translate_type (str "vr::" ++ str "HmdMatrix34_t" ++ repeat " "%char 1 ++ stars 2)
     = nested_pointer 2 (str "HmdMatrix34_t").
Proof. exact (declared_type_spellings (str "HmdMatrix34_t") 1 1 eq_refl). Defined.

(** X16 at two rows of three vectors. *)
Lemma array_of_declared_type_witness :
  translate_type_b (str "HmdVector3_t" ++ dimensions [str "2"; str "3"]) false
  = array_of (str "HmdVector3_t") [str "2"; str "3"] false
  /\ translate_type_b (str "vr::" ++ str "HmdVector3_t" ++ dimensions [str "2"; str "3"]) false
     = array_of (str "HmdVector3_t") [str "2"; str "3"] false.
Proof.
  apply (array_of_declared_type (str "HmdVector3_t") [str "2"; str "3"] false).
  - reflexivity.
  - repeat constructor.
Defined.

(** X20 at an enumeration with two constants. *)
Lemma enum_lines_witness :
  split_on newline (EnumDecl.to_str sample_enum)
  = [str "EVREye = ENUM_TYPE"; str "Eye_Left = ENUM_VALUE_TYPE(0)";
     str "Eye_Right = ENUM_VALUE_TYPE(1)"]
  /\ EnumDecl.to_str
       (EnumDecl.add_constant sample_enum (EnumConstant.mk (str "Eye_Both") (str "2") None))
     = EnumDecl.to_str sample_enum ++ nl ++ str "Eye_Both = ENUM_VALUE_TYPE(2)".
Proof.
  exact (enum_lines sample_enum (EnumConstant.mk (str "Eye_Both") (str "2") None)
           eq_refl eq_refl).
Defined.

(** X17 at a class with a docstring and two methods. *)
Lemma class_text_witness :
  snd (Class.to_str sample_class)
  = Answer (join nl
      [str "class IVRSystem_FnTable(Structure):";
       str "    _fields_ = [";
       str "        (" ++ [dquote] ++ str "getName" ++ [dquote]
         ++ str ", OPENVR_FNTABLE_CALLTYPE(c_uint32, c_char_p, c_uint32)),";
       str "        (" ++ [dquote] ++ str "getCount" ++ [dquote]
         ++ str ", OPENVR_FNTABLE_CALLTYPE(c_uint32, EVRApplicationType)),";
       str "    ]";
       [];
       [];
       str "class IVRSystem(object):";
       str "    " ++ triple_quote ++ str "The system." ++ triple_quote;
       [];
       str "    def __init__(self):";
       str "        version_key = IVRSystem_Version";
       str "        if not isInterfaceVersionValid(version_key):";
       str "            _checkInitError(VRInitError_Init_InterfaceNotFound)";
       str "        fn_key = b" ++ [dquote] ++ str "FnTable:" ++ [dquote] ++ str " + version_key";
       str "        fn_type = IVRSystem_FnTable";
       str "        fn_table_ptr = cast(getGenericInterface(fn_key), POINTER(fn_type))";
       str "        if fn_table_ptr is None:";
       str "            raise OpenVRError(" ++ [dquote]
         ++ str "Error retrieving VR API for IVRSystem" ++ [dquote] ++ str ")";
       str "        self.function_table = fn_table_ptr.contents";
       [];
       str "    def getName(self):";
       str "        fn = self.function_table.getName";
       str "        unBufferSize = fn(None, 0)";
       str "        if unBufferSize == 0:";
       str "            return b''";
       str "        pchValue = ctypes.create_string_buffer(unBufferSize)";
       str "        fn(pchValue, unBufferSize)";
       str "        return bytes(pchValue.value)";
       [];
       str "    def getCount(self, eType):";
       str "        fn = self.function_table.getCount";
       str "        result = fn(eType)";
       str "        return result"]).
Proof.
  etransitivity.
  - apply (class_text sample_class); [discriminate|reflexivity ..].
  - vm_compute. reflexivity.
Defined.

(** X18 at a class without methods. *)
Lemma class_without_methods_witness :
  snd (Class.to_str sample_empty_class)
  = Answer (join nl
      [spaces 12 ++ str "class IVRSystem_FnTable(Structure):";
       spaces 16 ++ str "_fields_ = [";
       spaces 16 ++ str "]";
       spaces 8;
       [];
       spaces 12 ++ str "class IVRSystem(object):";
       spaces 16 ++ str "def __init__(self):";
       spaces 20 ++ str "version_key = IVRSystem_Version";
       spaces 20 ++ str "if not isInterfaceVersionValid(version_key):";
       spaces 24 ++ str "_checkInitError(VRInitError_Init_InterfaceNotFound)";
       spaces 20 ++ str "fn_key = b" ++ [dquote] ++ str "FnTable:" ++ [dquote]
         ++ str " + version_key";
       spaces 20 ++ str "fn_type = IVRSystem_FnTable";
       spaces 20 ++ str "fn_table_ptr = cast(getGenericInterface(fn_key), POINTER(fn_type))";
       spaces 20 ++ str "if fn_table_ptr is None:";
       spaces 24 ++ str "raise OpenVRError(" ++ [dquote]
         ++ str "Error retrieving VR API for IVRSystem" ++ [dquote] ++ str ")";
       spaces 20 ++ str "self.function_table = fn_table_ptr.contents";
       str "pass";
       spaces 8]).
Proof.
  etransitivity.
  - apply (class_without_methods sample_empty_class); reflexivity.
  - vm_compute. reflexivity.
Defined.
